(** * Playback-state synchronisation core of the call panel

    A shallow embedding of [video-state.service.ts] (the shared store and
    its authority slot) and of [video-player.ts] (one player surface per
    visible media element), followed by the properties the design document
    states about them. The embedding goes on with the code around them:
    the audio service, the call service, and the handlers of the two
    containers that host the players.

    Conventions of the embedding.
    - A TypeScript [number] holding seconds is a rational [Q] (a finite
      number); a player state code, a timer handle or a millisecond
      timestamp is an integer.
    - The numbers the call service computes with, the draws of
      [Math.random], their products and what [Math.floor] makes of them,
      are binary64 doubles: the primitive floats, whose operations round
      as IEEE 754 says. A counter that only [++] changes is the integer
      its double holds, and stops at [2^53] as the double does.
    - [Partial<VideoState>] is a record of options: [Some v] is a key that
      is present with value [v], [None] a key that is absent.
    - A [BehaviorSubject] is its current value together with the list of
      values passed to [next], oldest first; that list is what a subscriber
      present from the start receives after the initial value.
    - [Date.now()] reads the field [clock] of the environment; the clock
      only moves between two turns of the event loop.
    - The YouTube engine is external: what it reports is a table of
      telemetry the environment may change at will, and every method called
      on an engine handle is appended to a log.
    - [setTimeout] and [setInterval] add a timer to the list of pending
      timers; the environment runs a pending timer once it is due.
    - A method runs in a state monad with exceptions: calling a method on a
      [null] engine handle throws, and what was mutated before stays
      mutated. *)

From Stdlib Require Import ZArith QArith Ascii String List Lia DecimalString DecimalPos.
From Stdlib Require Import Uint63 Floats.
From stdpp Require Import base option list strings gmap.

Open Scope Z_scope.

(** ** JavaScript odds and ends *)

(** Truthiness of a [string | null | undefined] value: the empty string is
    falsy, like [null]. *)
Definition truthy (o : option string) : bool :=
  match o with
  | Some s => negb (String.eqb s "")
  | None => false
  end.

(** Truthiness of a [number | null] timer handle: [0] is falsy. *)
Definition truthy_handle (o : option nat) : bool :=
  match o with
  | Some n => negb (Nat.eqb n 0)
  | None => false
  end.

(** [a > b] on numbers. *)
Definition Qgtb (a b : Q) : bool := negb (Qle_bool a b).

(** Decimal rendering of an integer inside a template literal. *)
Definition decimal (z : Z) : string := NilZero.string_of_int (Z.to_int z).

(** ** video-state.service.ts *)

Module VideoStateService.

Record VideoState := {
  currentTime : Q;
  playerState : Z;
  isPlaying : bool;
  lastUpdate : Z
}.

Record PartialVideoState := {
  p_currentTime : option Q;
  p_playerState : option Z;
  p_isPlaying : option bool;
  p_lastUpdate : option Z
}.

Record VideoConfig := {
  videoId : option string;
  playlistId : option string;
  videoIds : option (list string)
}.

Record BehaviorSubject (A : Type) := {
  value : A;
  emitted : list A
}.
Arguments value {A} _.
Arguments emitted {A} _.

Definition new_BehaviorSubject {A : Type} (init : A) : BehaviorSubject A :=
  {| value := init; emitted := [] |}.

Definition next {A : Type} (v : A) (b : BehaviorSubject A) : BehaviorSubject A :=
  {| value := v; emitted := emitted b ++ [v] |}.

Record t := {
  videoConfig : VideoConfig;
  videoStateSubject : BehaviorSubject VideoState;
  activePlayerId : option string
}.

(** [initialState]; [now] is the reading of [Date.now()] when the service
    is instantiated. *)
Definition initialState (now : Z) : VideoState :=
  {| currentTime := 0; playerState := -1; isPlaying := false; lastUpdate := now |}.

(** The configuration written in the source. *)
Definition repoVideoConfig : VideoConfig :=
  {| videoId := Some "WdxYgjjPSjg"; playlistId := None; videoIds := None |}.

Definition create (cfg : VideoConfig) (now : Z) : t :=
  {| videoConfig := cfg;
     videoStateSubject := new_BehaviorSubject (initialState now);
     activePlayerId := None |}.

Definition getVideoConfig (s : t) : VideoConfig := videoConfig s.

Definition getCurrentState (s : t) : VideoState := value (videoStateSubject s).

(** [{ ...currentState, ...state }] *)
Definition spread (cur : VideoState) (p : PartialVideoState) : VideoState :=
  {| currentTime := default (currentTime cur) (p_currentTime p);
     playerState := default (playerState cur) (p_playerState p);
     isPlaying := default (isPlaying cur) (p_isPlaying p);
     lastUpdate := default (lastUpdate cur) (p_lastUpdate p) |}.

(** [{ ...x, lastUpdate: now }] *)
Definition stamp (now : Z) (x : VideoState) : VideoState :=
  {| currentTime := currentTime x;
     playerState := playerState x;
     isPlaying := isPlaying x;
     lastUpdate := now |}.

Definition publish (v : VideoState) (s : t) : t :=
  {| videoConfig := videoConfig s;
     videoStateSubject := next v (videoStateSubject s);
     activePlayerId := activePlayerId s |}.

(** [this.activePlayerId && this.activePlayerId !== playerId] *)
Definition refused (s : t) (playerId : string) : bool :=
  truthy (activePlayerId s)
  && match activePlayerId s with
     | Some a => negb (String.eqb a playerId)
     | None => false
     end.

(** [updateState] (lines 94-108); [now] is the reading of [Date.now()]. *)
Definition updateState (now : Z) (state : PartialVideoState) (playerId : string)
    (s : t) : t :=
  if refused s playerId then s
  else
    let currentState := value (videoStateSubject s) in
    let newState := stamp now (spread currentState state) in
    publish newState s.

(** [setActivePlayer] (lines 110-112). *)
Definition setActivePlayer (playerId : string) (s : t) : t :=
  {| videoConfig := videoConfig s;
     videoStateSubject := videoStateSubject s;
     activePlayerId := Some playerId |}.

Definition only_currentTime (time : Q) : PartialVideoState :=
  {| p_currentTime := Some time; p_playerState := None;
     p_isPlaying := None; p_lastUpdate := None |}.

Definition only_state (ps : Z) (ip : bool) : PartialVideoState :=
  {| p_currentTime := None; p_playerState := Some ps;
     p_isPlaying := Some ip; p_lastUpdate := None |}.

Definition saveCurrentTime (now : Z) (time : Q) (playerId : string) (s : t) : t :=
  updateState now (only_currentTime time) playerId s.

Definition savePlayerState (now : Z) (ps : Z) (ip : bool) (playerId : string)
    (s : t) : t :=
  updateState now (only_state ps ip) playerId s.

(** [forceUpdateState] (lines 122-130). *)
Definition forceUpdateState (now : Z) (state : PartialVideoState) (s : t) : t :=
  let currentState := value (videoStateSubject s) in
  let newState := stamp now (spread currentState state) in
  publish newState s.

(** The public methods, as data, for reasoning about sequences of calls. *)
Inductive Call :=
| GetVideoConfig
| GetCurrentState
| UpdateState (state : PartialVideoState) (playerId : string)
| SetActivePlayer (playerId : string)
| SaveCurrentTime (time : Q) (playerId : string)
| SavePlayerState (ps : Z) (ip : bool) (playerId : string)
| ForceUpdateState (state : PartialVideoState).

Definition call (now : Z) (c : Call) (s : t) : t :=
  match c with
  | GetVideoConfig => s
  | GetCurrentState => s
  | UpdateState state playerId => updateState now state playerId s
  | SetActivePlayer playerId => setActivePlayer playerId s
  | SaveCurrentTime time playerId => saveCurrentTime now time playerId s
  | SavePlayerState ps ip playerId => savePlayerState now ps ip playerId s
  | ForceUpdateState state => forceUpdateState now state s
  end.

(** A sequence of calls, each made at its own clock reading. *)
Fixpoint calls (cs : list (Z * Call)) (s : t) : t :=
  match cs with
  | [] => s
  | (now, c) :: cs' => calls cs' (call now c s)
  end.

Definition is_SetActivePlayer (c : Call) : bool :=
  match c with
  | SetActivePlayer _ => true
  | _ => false
  end.

End VideoStateService.

(** ** video-player.ts *)

Module VideoPlayer.

(** A reference to a [VideoPlayer] instance, and one to an engine handle
    (the [event.target] of the engine's ready event). *)
Definition Ref := nat.
Definition EngineRef := nat.

(** Values stored in [playerConfig]. *)
Inductive JsValue :=
| JUndefined
| JNumber (n : Z)
| JString (s : string)
| JArray (l : list string).

Definition js_of_string (o : option string) : JsValue :=
  match o with
  | Some s => JString s
  | None => JUndefined
  end.

(** [a || b] on strings. *)
Definition js_or (a : option string) (b : string) : string :=
  match a with
  | Some s => if truthy a then s else b
  | None => b
  end.

Record t := {
  isMainPlayer : bool;
  videoConfig : option VideoStateService.VideoConfig;
  videoId : string;
  playlistId : option string;
  videoIds : option (list string);
  player : option EngineRef;
  currentTime : Q;
  isPlayerReady : bool;
  playerState : Z;
  saveStateInterval : option nat;
  playerId : string;
  videoStateSubscription : option unit;
  playerConfig : gmap string JsValue
}.

Definition initialPlayerConfig : gmap string JsValue :=
  <["autoplay" := JNumber 1]>
  (<["mute" := JNumber 1]>
  (<["loop" := JNumber 1]>
  (<["listType" := JUndefined]>
  (<["list" := JUndefined]>
  (<["playlist" := JUndefined]>
  (<["index" := JNumber 0]> ∅)))))).

(** The constructor followed by the binding of the [isMainPlayer] input.
    [rnd] stands for [Math.random().toString(36).substring(2, 9)] and
    [now] for the reading of [Date.now()]. *)
Definition create (isMain : bool) (rnd : string) (now : Z) : t :=
  {| isMainPlayer := isMain;
     videoConfig := None;
     videoId := "";
     playlistId := None;
     videoIds := None;
     player := None;
     currentTime := 0;
     isPlayerReady := false;
     playerState := -1;
     saveStateInterval := None;
     playerId := "player_" +:+ rnd +:+ "_" +:+ decimal now;
     videoStateSubscription := None;
     playerConfig := initialPlayerConfig |}.

(** Field updates. *)
Definition with_source (cfg : VideoStateService.VideoConfig) (p : t) : t :=
  {| isMainPlayer := isMainPlayer p;
     videoConfig := Some cfg;
     videoId := js_or (VideoStateService.videoId cfg) "dQw4w9WgXcQ";
     playlistId := VideoStateService.playlistId cfg;
     videoIds := VideoStateService.videoIds cfg;
     player := player p;
     currentTime := currentTime p;
     isPlayerReady := isPlayerReady p;
     playerState := playerState p;
     saveStateInterval := saveStateInterval p;
     playerId := playerId p;
     videoStateSubscription := videoStateSubscription p;
     playerConfig := playerConfig p |}.

Definition with_playerConfig (c : gmap string JsValue) (p : t) : t :=
  {| isMainPlayer := isMainPlayer p;
     videoConfig := videoConfig p;
     videoId := videoId p;
     playlistId := playlistId p;
     videoIds := videoIds p;
     player := player p;
     currentTime := currentTime p;
     isPlayerReady := isPlayerReady p;
     playerState := playerState p;
     saveStateInterval := saveStateInterval p;
     playerId := playerId p;
     videoStateSubscription := videoStateSubscription p;
     playerConfig := c |}.

Definition with_seed (time : Q) (st : Z) (p : t) : t :=
  {| isMainPlayer := isMainPlayer p;
     videoConfig := videoConfig p;
     videoId := videoId p;
     playlistId := playlistId p;
     videoIds := videoIds p;
     player := player p;
     currentTime := time;
     isPlayerReady := isPlayerReady p;
     playerState := st;
     saveStateInterval := saveStateInterval p;
     playerId := playerId p;
     videoStateSubscription := videoStateSubscription p;
     playerConfig := playerConfig p |}.

Definition with_player (h : EngineRef) (p : t) : t :=
  {| isMainPlayer := isMainPlayer p;
     videoConfig := videoConfig p;
     videoId := videoId p;
     playlistId := playlistId p;
     videoIds := videoIds p;
     player := Some h;
     currentTime := currentTime p;
     isPlayerReady := true;
     playerState := playerState p;
     saveStateInterval := saveStateInterval p;
     playerId := playerId p;
     videoStateSubscription := videoStateSubscription p;
     playerConfig := playerConfig p |}.

Definition with_saveStateInterval (id : nat) (p : t) : t :=
  {| isMainPlayer := isMainPlayer p;
     videoConfig := videoConfig p;
     videoId := videoId p;
     playlistId := playlistId p;
     videoIds := videoIds p;
     player := player p;
     currentTime := currentTime p;
     isPlayerReady := isPlayerReady p;
     playerState := playerState p;
     saveStateInterval := Some id;
     playerId := playerId p;
     videoStateSubscription := videoStateSubscription p;
     playerConfig := playerConfig p |}.

(** *** The source resolver *)

Definition longer_than_one (o : option (list string)) : bool :=
  match o with
  | Some l => (1 <? length l)%nat
  | None => false
  end.

(** [setupPlayerConfig] (lines 90-109). *)
Definition setupPlayerConfig (p : t) : t :=
  if truthy (playlistId p) then
    with_playerConfig
      (delete "playlist"
         (<["list" := js_of_string (playlistId p)]>
            (<["listType" := JString "playlist"]> (playerConfig p)))) p
  else if longer_than_one (videoIds p) then
    with_playerConfig
      (delete "list"
         (delete "listType"
            (<["playlist" := JArray (drop 1 (default [] (videoIds p)))]>
               (playerConfig p)))) p
  else
    with_playerConfig
      (delete "playlist" (delete "list" (delete "listType" (playerConfig p)))) p.

(** [getVideoId] (lines 111-122). *)
Definition getVideoId (p : t) : string :=
  match videoIds p with
  | Some (first :: _) => first
  | _ => if truthy (playlistId p) then "" else videoId p
  end.

(** *** The engine, the timers and the environment *)

Inductive EngineCall :=
| E_getCurrentTime
| E_getPlayerState
| E_playVideo
| E_pauseVideo
| E_seekTo (seconds : Q) (allowSeekAhead : bool)
| E_mute.

Record Telemetry := {
  engineTime : Q;
  engineState : Z
}.

(** The arrow functions handed to [setInterval] and [setTimeout]. *)
Inductive Callback :=
| CbSaveState                     (* setInterval, every 250 ms *)
| CbRestore (resumeTime : Q)      (* setTimeout 500, captures currentState *)
| CbEnsurePlaying                 (* setTimeout 200, nested in the former *)
| CbStartPlaying                  (* setTimeout 1000 *)
| CbRestartLoop.                  (* setTimeout 100 *)

Record Timer := {
  tm_id : nat;
  tm_owner : Ref;                 (* the [this] captured by the closure *)
  tm_due : Z;
  tm_period : option Z;           (* [Some d] for setInterval *)
  tm_callback : Callback
}.

(** What the two [EventEmitter] outputs emit. *)
Inductive Output :=
| playerReady (target : EngineRef)
| stateChange (data : Z).

Record Env := {
  clock : Z;
  service : VideoStateService.t;
  telemetry : EngineRef -> Telemetry;
  engineLog : list (EngineRef * EngineCall);
  timers : list Timer;
  nextTimer : nat;
  outputs : list (Ref * Output)
}.

Definition with_service (s : VideoStateService.t) (e : Env) : Env :=
  {| clock := clock e; service := s; telemetry := telemetry e;
     engineLog := engineLog e; timers := timers e;
     nextTimer := nextTimer e; outputs := outputs e |}.

Definition with_engineLog (l : list (EngineRef * EngineCall)) (e : Env) : Env :=
  {| clock := clock e; service := service e; telemetry := telemetry e;
     engineLog := l; timers := timers e;
     nextTimer := nextTimer e; outputs := outputs e |}.

Definition with_timers (l : list Timer) (n : nat) (e : Env) : Env :=
  {| clock := clock e; service := service e; telemetry := telemetry e;
     engineLog := engineLog e; timers := l;
     nextTimer := n; outputs := outputs e |}.

Definition with_outputs (l : list (Ref * Output)) (e : Env) : Env :=
  {| clock := clock e; service := service e; telemetry := telemetry e;
     engineLog := engineLog e; timers := timers e;
     nextTimer := nextTimer e; outputs := l |}.

Definition with_clock (now : Z) (e : Env) : Env :=
  {| clock := now; service := service e; telemetry := telemetry e;
     engineLog := engineLog e; timers := timers e;
     nextTimer := nextTimer e; outputs := outputs e |}.

Definition with_telemetry (f : EngineRef -> Telemetry) (e : Env) : Env :=
  {| clock := clock e; service := service e; telemetry := f;
     engineLog := engineLog e; timers := timers e;
     nextTimer := nextTimer e; outputs := outputs e |}.

(** *** A state monad with exceptions

    A method runs on the instance [this] (whose identity is [self]) in
    the environment [env]. An exception leaves the mutations made before
    it in place, as in JavaScript. *)

Inductive JsError := TypeError.

Inductive Outcome (A : Type) :=
| Returned (a : A)
| Thrown (e : JsError).
Arguments Returned {A} a.
Arguments Thrown {A} e.

Record Ctx := {
  self : Ref;
  this : t;
  env : Env
}.

Definition M (A : Type) : Type := Ctx -> Outcome A * Ctx.

Definition ret {A : Type} (a : A) : M A := fun c => (Returned a, c).

Definition bind {A B : Type} (m : M A) (k : A -> M B) : M B :=
  fun c =>
    match m c with
    | (Returned a, c') => k a c'
    | (Thrown e, c') => (Thrown e, c')
    end.

Definition throw {A : Type} (e : JsError) : M A := fun c => (Thrown e, c).

Notation "x <- m ;; k" := (bind m (fun x => k))
  (at level 100, m at next level, k at level 200, right associativity).
Notation "m ;; k" := (bind m (fun _ => k))
  (at level 100, k at level 200, right associativity).

Definition when (b : bool) (m : M unit) : M unit := if b then m else ret tt.

(** Primitive effects. *)

Definition get_this : M t := fun c => (Returned (this c), c).

Definition modify_this (f : t -> t) : M unit :=
  fun c => (Returned tt, {| self := self c; this := f (this c); env := env c |}).

Definition modify_env (f : Env -> Env) : M unit :=
  fun c => (Returned tt, {| self := self c; this := this c; env := f (env c) |}).

Definition Date_now : M Z := fun c => (Returned (clock (env c)), c).

(** Calls on the injected [videoStateService]. *)
Definition service_get {A : Type} (f : VideoStateService.t -> A) : M A :=
  fun c => (Returned (f (service (env c))), c).

Definition service_do (f : VideoStateService.t -> VideoStateService.t) : M unit :=
  modify_env (fun e => with_service (f (service e)) e).

Definition service_updateState (state : VideoStateService.PartialVideoState)
    (id : string) : M unit :=
  now <- Date_now ;;
  service_do (VideoStateService.updateState now state id).

Definition service_forceUpdateState (state : VideoStateService.PartialVideoState)
    : M unit :=
  now <- Date_now ;;
  service_do (VideoStateService.forceUpdateState now state).

Definition service_setActivePlayer (id : string) : M unit :=
  service_do (VideoStateService.setActivePlayer id).

(** A method call on [this.player]: a [TypeError] when the handle is
    [null], else the call is logged. *)
Definition engine (call : EngineCall) : M unit :=
  p <- get_this ;;
  match player p with
  | None => throw TypeError
  | Some h => modify_env (fun e => with_engineLog (engineLog e ++ [(h, call)]) e)
  end.

Definition engine_getCurrentTime : M Q :=
  engine E_getCurrentTime ;;
  fun c => (Returned (engineTime (telemetry (env c) (default O (player (this c))))), c).

Definition engine_getPlayerState : M Z :=
  engine E_getPlayerState ;;
  fun c => (Returned (engineState (telemetry (env c) (default O (player (this c))))), c).

(** [setTimeout] and [setInterval] hand out the next handle; handles are
    positive in a browser, so the counter starts at 1. *)
Definition schedule (period : option Z) (cb : Callback) (delay : Z) : M nat :=
  fun c =>
    let e := env c in
    let tm := {| tm_id := nextTimer e; tm_owner := self c;
                 tm_due := clock e + delay; tm_period := period;
                 tm_callback := cb |} in
    (Returned (nextTimer e),
     {| self := self c; this := this c;
        env := with_timers (timers e ++ [tm]) (S (nextTimer e)) e |}).

Definition setTimeout (cb : Callback) (delay : Z) : M nat :=
  schedule None cb delay.

Definition setInterval (cb : Callback) (period : Z) : M nat :=
  schedule (Some period) cb period.

Definition drop_timer (id : nat) (l : list Timer) : list Timer :=
  List.filter (fun tm => negb (Nat.eqb (tm_id tm) id)) l.

Definition clearInterval (id : option nat) : M unit :=
  modify_env (fun e => with_timers (drop_timer (default O id) (timers e)) (nextTimer e) e).

Definition emit (o : Output) : M unit :=
  fun c =>
    (Returned tt,
     {| self := self c; this := this c;
        env := with_outputs (outputs (env c) ++ [(self c, o)]) (env c) |}).

(** [Subscription.unsubscribe]; the field is never assigned, so this is
    never reached. *)
Definition unsubscribe : M unit := ret tt.

(** *** Lifecycle and engine callbacks *)

(** [ngOnInit] (lines 69-88). *)
Definition ngOnInit : M unit :=
  cfg <- service_get VideoStateService.getVideoConfig ;;
  modify_this (with_source cfg) ;;
  modify_this setupPlayerConfig ;;
  currentState <- service_get VideoStateService.getCurrentState ;;
  modify_this (with_seed (VideoStateService.currentTime currentState)
                         (VideoStateService.playerState currentState)) ;;
  p <- get_this ;;
  when (isMainPlayer p) (service_setActivePlayer (playerId p)).

(** The object literal flushed by [ngOnDestroy]; the engine state is read
    twice. *)
Definition telemetry_flush (time : Q) (st st' now : Z)
    : VideoStateService.PartialVideoState :=
  {| VideoStateService.p_currentTime := Some time;
     VideoStateService.p_playerState := Some st;
     VideoStateService.p_isPlaying := Some (st' =? 1);
     VideoStateService.p_lastUpdate := Some now |}.

(** [ngOnDestroy] (lines 124-143). *)
Definition ngOnDestroy : M unit :=
  p <- get_this ;;
  when (truthy_handle (saveStateInterval p)) (clearInterval (saveStateInterval p)) ;;
  when (bool_decide (is_Some (videoStateSubscription p))) unsubscribe ;;
  when (bool_decide (is_Some (player p)) && isPlayerReady p)
    (time <- engine_getCurrentTime ;;
     st <- engine_getPlayerState ;;
     st' <- engine_getPlayerState ;;
     now <- Date_now ;;
     service_forceUpdateState (telemetry_flush time st st' now)).

(** [syncMiniPlayers] has an empty body. *)
Definition syncMiniPlayers : M unit := ret tt.

Definition telemetry_update (time : Q) (st : Z)
    : VideoStateService.PartialVideoState :=
  {| VideoStateService.p_currentTime := Some time;
     VideoStateService.p_playerState := Some st;
     VideoStateService.p_isPlaying := Some (st =? 1);
     VideoStateService.p_lastUpdate := None |}.

Definition playing_from_start : VideoStateService.PartialVideoState :=
  {| VideoStateService.p_currentTime := Some 0%Q;
     VideoStateService.p_playerState := Some 1;
     VideoStateService.p_isPlaying := Some true;
     VideoStateService.p_lastUpdate := None |}.

Definition only_playing : VideoStateService.PartialVideoState :=
  {| VideoStateService.p_currentTime := None;
     VideoStateService.p_playerState := None;
     VideoStateService.p_isPlaying := Some true;
     VideoStateService.p_lastUpdate := None |}.

(** The body of the [setInterval] callback (lines 160-180). *)
Definition saveStateTick : M unit :=
  p <- get_this ;;
  when (bool_decide (is_Some (player p)) && isPlayerReady p)
    (newTime <- engine_getCurrentTime ;;
     newState <- engine_getPlayerState ;;
     when (negb (newState =? 1) && negb (newState =? 0)) (engine E_playVideo) ;;
     service_updateState (telemetry_update newTime newState) (playerId p) ;;
     syncMiniPlayers).

(** The body of the 200 ms callback (lines 189-192). *)
Definition ensurePlaying : M unit :=
  engine E_playVideo ;;
  p <- get_this ;;
  service_updateState only_playing (playerId p).

(** The body of the 500 ms callback (lines 185-198). *)
Definition restorePosition (resumeTime : Q) : M unit :=
  engine (E_seekTo resumeTime true) ;;
  setTimeout CbEnsurePlaying 200 ;;
  p <- get_this ;;
  when (negb (isMainPlayer p)) (engine E_mute).

(** The body of the 1000 ms callback (lines 201-208). *)
Definition startPlaying : M unit :=
  engine E_playVideo ;;
  p <- get_this ;;
  service_updateState playing_from_start (playerId p).

(** The body of the 100 ms callback (lines 221-229). *)
Definition restartLoop : M unit :=
  engine (E_seekTo 0 true) ;;
  engine E_playVideo ;;
  p <- get_this ;;
  service_updateState playing_from_start (playerId p).

Definition run_callback (cb : Callback) : M unit :=
  match cb with
  | CbSaveState => saveStateTick
  | CbRestore resumeTime => restorePosition resumeTime
  | CbEnsurePlaying => ensurePlaying
  | CbStartPlaying => startPlaying
  | CbRestartLoop => restartLoop
  end.

(** [onPlayerReady] (lines 145-212); [target] is [event.target]. *)
Definition onPlayerReady (target : EngineRef) : M unit :=
  modify_this (with_player target) ;;
  currentState <- service_get VideoStateService.getCurrentState ;;
  p <- get_this ;;
  when (isMainPlayer p)
    (service_setActivePlayer (playerId p) ;;
     when (truthy_handle (saveStateInterval p)) (clearInterval (saveStateInterval p)) ;;
     id <- setInterval CbSaveState 250 ;;
     modify_this (with_saveStateInterval id)) ;;
  (if Qgtb (VideoStateService.currentTime currentState) 0
   then setTimeout (CbRestore (VideoStateService.currentTime currentState)) 500 ;; ret tt
   else setTimeout CbStartPlaying 1000 ;; ret tt) ;;
  emit (playerReady target).

(** [onStateChange] (lines 214-244); [data] is [event.data]. The [return]
    of the ENDED branch skips the final [emit]. *)
Definition onStateChange (data : Z) : M unit :=
  p <- get_this ;;
  if isMainPlayer p && bool_decide (is_Some (player p)) && isPlayerReady p then
    newTime <- engine_getCurrentTime ;;
    if data =? 0 then
      setTimeout CbRestartLoop 100 ;;
      ret tt
    else
      service_updateState (telemetry_update newTime data) (playerId p) ;;
      syncMiniPlayers ;;
      emit (stateChange data)
  else
    emit (stateChange data).

(** [syncWith] (lines 253-262). *)
Definition syncWith (time : Q) (state : Z) : M unit :=
  p <- get_this ;;
  when (bool_decide (is_Some (player p)) && isPlayerReady p)
    (engine (E_seekTo time true) ;;
     if (state =? 1) && isMainPlayer p then engine E_playVideo
     else if state =? 2 then engine E_pauseVideo
     else ret tt).

End VideoPlayer.

(** ** The event loop

    Every [VideoPlayer] ever instantiated stays in [surfaces]: a destroyed
    component is still reachable from the closures of its pending timers.
    One [Event] is one turn of the single-threaded loop. *)

Module EventLoop.
Import VideoPlayer.

Record World := {
  w_env : Env;
  surfaces : list VideoPlayer.t
}.

Inductive Event :=
| Elapse (ms : Z)                             (* the clock moves on *)
| New (isMain : bool) (rnd : string)          (* a player component is instantiated *)
| NgOnInit (i : Ref)
| NgOnDestroy (i : Ref)
| PlayerReady (i : Ref) (target : EngineRef)  (* the engine's ready event *)
| StateChange (i : Ref) (data : Z)            (* the engine's state-change event *)
| SyncWith (i : Ref) (time : Q) (state : Z)
| Fire (id : nat)                             (* a due timer runs its callback *)
| Engine (h : EngineRef) (now : Telemetry)    (* the engine moves by itself *)
| Store (c : VideoStateService.Call).         (* another collaborator calls the store *)

(** Run a method on the instance [i]; the instance and the environment
    keep the mutations whether the method returns or throws. *)
Definition dispatch (i : Ref) (m : M unit) (w : World) : Outcome unit * World :=
  match surfaces w !! i with
  | None => (Returned tt, w)
  | Some p =>
      let r := m {| self := i; this := p; env := w_env w |} in
      (fst r, {| w_env := env (snd r); surfaces := <[i := this (snd r)]> (surfaces w) |})
  end.

Definition rearm (now : Z) (id : nat) (tm : Timer) : Timer :=
  if Nat.eqb (tm_id tm) id then
    {| tm_id := tm_id tm; tm_owner := tm_owner tm;
       tm_due := now + default 0 (tm_period tm);
       tm_period := tm_period tm; tm_callback := tm_callback tm |}
  else tm.

(** A timer runs only once it is due; a timeout is then forgotten, an
    interval is armed again. *)
Definition fire (id : nat) (w : World) : Outcome unit * World :=
  let e := w_env w in
  match List.find (fun tm => Nat.eqb (tm_id tm) id) (timers e) with
  | Some tm =>
      if tm_due tm <=? clock e then
        let pending :=
          match tm_period tm with
          | None => drop_timer id (timers e)
          | Some _ => List.map (rearm (clock e) id) (timers e)
          end in
        dispatch (tm_owner tm) (run_callback (tm_callback tm))
          {| w_env := with_timers pending (nextTimer e) e; surfaces := surfaces w |}
      else (Returned tt, w)
  | None => (Returned tt, w)
  end.

Definition set_telemetry (h : EngineRef) (now : Telemetry)
    (f : EngineRef -> Telemetry) : EngineRef -> Telemetry :=
  fun h' => if Nat.eqb h' h then now else f h'.

Definition handle (ev : Event) (w : World) : Outcome unit * World :=
  let e := w_env w in
  match ev with
  | Elapse ms =>
      (Returned tt, {| w_env := with_clock (clock e + Z.max 0 ms) e; surfaces := surfaces w |})
  | New isMain rnd =>
      (Returned tt,
       {| w_env := e; surfaces := surfaces w ++ [VideoPlayer.create isMain rnd (clock e)] |})
  | NgOnInit i => dispatch i ngOnInit w
  | NgOnDestroy i => dispatch i ngOnDestroy w
  | PlayerReady i target => dispatch i (onPlayerReady target) w
  | StateChange i data => dispatch i (onStateChange data) w
  | SyncWith i time state => dispatch i (syncWith time state) w
  | Fire id => fire id w
  | Engine h now =>
      (Returned tt,
       {| w_env := with_telemetry (set_telemetry h now (telemetry e)) e;
          surfaces := surfaces w |})
  | Store c =>
      (Returned tt,
       {| w_env := with_service (VideoStateService.call (clock e) c (service e)) e;
          surfaces := surfaces w |})
  end.

Definition step (w : World) (ev : Event) : World := snd (handle ev w).

Definition run (evs : list Event) (w : World) : World := fold_left step evs w.

(** The application right after the store has been instantiated. *)
Definition boot (cfg : VideoStateService.VideoConfig) (now : Z) : World :=
  {| w_env :=
       {| clock := now;
          service := VideoStateService.create cfg now;
          telemetry := fun _ => {| engineTime := 0; engineState := -1 |};
          engineLog := [];
          timers := [];
          nextTimer := 1;
          outputs := [] |};
     surfaces := [] |}.

Definition store (w : World) : VideoStateService.t := service (w_env w).

Definition token (w : World) : option string :=
  VideoStateService.activePlayerId (store w).

Definition snapshot (w : World) : VideoStateService.VideoState :=
  VideoStateService.getCurrentState (store w).

(** Direct calls to [setActivePlayer] in a trace all carry a producer id,
    that is a non-empty string. *)
Definition producer_ids_only (ev : Event) : bool :=
  match ev with
  | Store (VideoStateService.SetActivePlayer id) => negb (String.eqb id "")
  | _ => true
  end.

End EventLoop.

(** ** The audio service

    [AudioService] of [audio.service.ts]. An [HTMLAudioElement] is external:
    whether [new Audio] succeeds and what a call of [play] does (it throws,
    it answers [undefined], or it answers a promise that the browser
    settles later) is chosen by the environment. The elements are not in
    the document, so their properties are written by the service only. *)

Module AudioService.

Inductive AudioCall :=
| A_load
| A_play
| A_pause.

(** The properties of an element the service writes, and the methods it
    called on it, in order. *)
Record Audio := {
  src : string;
  volume : Q;
  preload : string;
  currentTime : Q;
  calls : list AudioCall
}.

(** [new Audio(src)]: full volume, nothing called yet. *)
Definition new_Audio (source : string) : Audio :=
  {| src := source; volume := 1; preload := ""; currentTime := 0; calls := [] |}.

Definition with_src (source : string) (a : Audio) : Audio :=
  {| src := source; volume := volume a; preload := preload a;
     currentTime := currentTime a; calls := calls a |}.

Definition with_volume (v : Q) (a : Audio) : Audio :=
  {| src := src a; volume := v; preload := preload a;
     currentTime := currentTime a; calls := calls a |}.

Definition with_preload (p : string) (a : Audio) : Audio :=
  {| src := src a; volume := volume a; preload := p;
     currentTime := currentTime a; calls := calls a |}.

Definition with_currentTime (time : Q) (a : Audio) : Audio :=
  {| src := src a; volume := volume a; preload := preload a;
     currentTime := time; calls := calls a |}.

Definition called (c : AudioCall) (a : Audio) : Audio :=
  {| src := src a; volume := volume a; preload := preload a;
     currentTime := currentTime a; calls := calls a ++ [c] |}.

(** What a call of [play] does. *)
Inductive PlayResult :=
| Throws
| AnswersUndefined
| AnswersPromise.

(** The callbacks attached to a promise of [play]. *)
Inductive Promise :=
| EnablePlay (originalVolume : Q)   (* [enableAudio]: [then] restores the volume *)
| TonePlay                          (* [playCallTone]: [catch] runs the fallback *)
| FallbackPlay.                     (* [playCallToneFallback]: [catch] does nothing *)

Record t := {
  audioEnabledSubject : VideoStateService.BehaviorSubject bool;
  callToneAudio : option Audio;
  isAudioEnabled : bool
}.

Record Env := {
  this : t;
  fallbacks : list Audio;     (* the elements made by [playCallToneFallback] *)
  promises : list Promise     (* the promises of [play] not settled yet *)
}.

Inductive JsError :=
| TypeError
| DOMException.

Inductive Outcome (A : Type) :=
| Returned (a : A)
| Thrown (e : JsError).
Arguments Returned {A} a.
Arguments Thrown {A} e.

Definition M (A : Type) : Type := Env -> Outcome A * Env.

Definition ret {A : Type} (a : A) : M A := fun e => (Returned a, e).

Definition bind {A B : Type} (m : M A) (k : A -> M B) : M B :=
  fun e =>
    match m e with
    | (Returned a, e') => k a e'
    | (Thrown err, e') => (Thrown err, e')
    end.

Definition throw {A : Type} (err : JsError) : M A := fun e => (Thrown err, e).

(** [try { m } catch (error) { handler }]. *)
Definition try_catch (m handler : M unit) : M unit :=
  fun e =>
    match m e with
    | (Returned a, e') => (Returned a, e')
    | (Thrown _, e') => handler e'
    end.

Notation "x <- m ;; k" := (bind m (fun x => k))
  (at level 100, m at next level, k at level 200, right associativity).
Notation "m ;; k" := (bind m (fun _ => k))
  (at level 100, k at level 200, right associativity).

Definition get_this : M t := fun e => (Returned (this e), e).

Definition modify_this (f : t -> t) : M unit :=
  fun e => (Returned tt,
            {| this := f (this e); fallbacks := fallbacks e; promises := promises e |}).

Definition with_callToneAudio (a : option Audio) (s : t) : t :=
  {| audioEnabledSubject := audioEnabledSubject s; callToneAudio := a;
     isAudioEnabled := isAudioEnabled s |}.

Definition with_isAudioEnabled (b : bool) (s : t) : t :=
  {| audioEnabledSubject := audioEnabledSubject s; callToneAudio := callToneAudio s;
     isAudioEnabled := b |}.

Definition publish (b : bool) (s : t) : t :=
  {| audioEnabledSubject := VideoStateService.next b (audioEnabledSubject s);
     callToneAudio := callToneAudio s; isAudioEnabled := isAudioEnabled s |}.

(** A write or a method call on [this.callToneAudio]: a [TypeError] when
    it is [null]. *)
Definition on_callTone (f : Audio -> Audio) : M unit :=
  s <- get_this ;;
  match callToneAudio s with
  | None => throw TypeError
  | Some a => modify_this (with_callToneAudio (Some (f a)))
  end.

(** Attach callbacks to the promise [play] answered. *)
Definition attach (p : Promise) : M unit :=
  fun e => (Returned tt,
            {| this := this e; fallbacks := fallbacks e; promises := promises e ++ [p] |}).

(** The answer of [play], once the call is made: the attached callbacks make
    a [TypeError] of [undefined]. *)
Definition answer (res : PlayResult) (callbacks : option Promise) : M unit :=
  match res with
  | Throws => throw DOMException
  | AnswersUndefined =>
      match callbacks with
      | Some _ => throw TypeError
      | None => ret tt
      end
  | AnswersPromise =>
      match callbacks with
      | Some p => attach p
      | None => ret tt
      end
  end.

Definition tone : string := "/assets/tone.mp3".

(** [initializeAudio] (lines 42-53), run by the constructor; [available]
    tells whether [new Audio()] succeeds. *)
Definition initializeAudio (available : bool) : M unit :=
  try_catch
    (if available then
       modify_this (with_callToneAudio (Some (new_Audio ""))) ;;
       on_callTone (with_src tone) ;;
       on_callTone (with_volume (7 # 10)) ;;
       on_callTone (with_preload "auto") ;;
       on_callTone (called A_load)
     else throw DOMException)
    (ret tt).

(** The field initialisers. *)
Definition fresh : Env :=
  {| this := {| audioEnabledSubject := VideoStateService.new_BehaviorSubject false;
                callToneAudio := None;
                isAudioEnabled := false |};
     fallbacks := [];
     promises := [] |}.

Definition create (available : bool) : Env := snd (initializeAudio available fresh).

(** [playCallToneFallback] (lines 89-99). The element is a local
    variable; it is recorded once [play] is called on it. *)
Definition playCallToneFallback (available : bool) (res : PlayResult) : M unit :=
  try_catch
    (if available then
       let audio := called A_play (with_volume (7 # 10) (new_Audio tone)) in
       (fun e => (Returned tt,
                  {| this := this e; fallbacks := fallbacks e ++ [audio];
                     promises := promises e |})) ;;
       answer res (Some FallbackPlay)
     else throw DOMException)
    (ret tt).

(** [playCallTone] (lines 59-87). [if (playPromise !== undefined)] guards
    the callbacks, so [undefined] is no error here. *)
Definition playCallTone (res : PlayResult) (available : bool) (res' : PlayResult)
    : M unit :=
  s <- get_this ;;
  if negb (isAudioEnabled s) then ret tt
  else
    try_catch
      (match callToneAudio s with
       | Some _ =>
           on_callTone (with_currentTime 0) ;;
           on_callTone (called A_play) ;;
           match res with
           | AnswersUndefined => ret tt
           | _ => answer res (Some TonePlay)
           end
       | None => playCallToneFallback available res'
       end)
      (playCallToneFallback available res').

(** [enableAudio] (lines 102-119). *)
Definition enableAudio (res : PlayResult) : M unit :=
  s <- get_this ;;
  match callToneAudio s with
  | Some a =>
      if negb (isAudioEnabled s) then
        let originalVolume := volume a in
        on_callTone (with_volume 0) ;;
        on_callTone (called A_play) ;;
        answer res (Some (EnablePlay originalVolume))
      else ret tt
  | None => ret tt
  end.

(** [disableAudio] (lines 122-125). *)
Definition disableAudio : M unit :=
  modify_this (with_isAudioEnabled false) ;;
  modify_this (publish false).

Definition isAudioActive (s : t) : bool := isAudioEnabled s.

(** [toggleAudio] (lines 133-139). *)
Definition toggleAudio (res : PlayResult) : M unit :=
  s <- get_this ;;
  if isAudioEnabled s then disableAudio else enableAudio res.

(** The callbacks of a settled promise. *)
Definition settled (p : Promise) (fulfilled : bool) (available : bool) (res' : PlayResult)
    : M unit :=
  match p, fulfilled with
  | EnablePlay originalVolume, true =>
      on_callTone (with_volume originalVolume) ;;
      on_callTone (called A_pause) ;;
      on_callTone (with_currentTime 0) ;;
      modify_this (with_isAudioEnabled true) ;;
      modify_this (publish true)
  | TonePlay, false => playCallToneFallback available res'
  | _, _ => ret tt
  end.

(** What happens to the service. *)
Inductive Event :=
| PlayCallTone (res : PlayResult) (available : bool) (res' : PlayResult)
| EnableAudio (res : PlayResult)
| DisableAudio
| ToggleAudio (res : PlayResult)
| Settle (k : nat) (fulfilled : bool) (available : bool) (res' : PlayResult).

Definition handle (ev : Event) : M unit :=
  match ev with
  | PlayCallTone res available res' => playCallTone res available res'
  | EnableAudio res => enableAudio res
  | DisableAudio => disableAudio
  | ToggleAudio res => toggleAudio res
  | Settle k fulfilled available res' =>
      fun e =>
        match promises e !! k with
        | Some p =>
            settled p fulfilled available res'
              {| this := this e; fallbacks := fallbacks e;
                 promises := delete k (promises e) |}
        | None => (Returned tt, e)
        end
  end.

Definition step (e : Env) (ev : Event) : Env := snd (handle ev e).

Definition run (evs : list Event) (e : Env) : Env := fold_left step evs e.

End AudioService.

(** ** The call models

    [CallData] and [AppState] of [call.model.ts]. A [Date] is the reading
    of the clock it was created at; strings are sequences of UTF-8 bytes;
    the counter number [guichet] is the double the arithmetic of
    [generateCall] leaves. *)

Module CallModel.

Inductive AppState := DEFAULT | CALLING.

Definition AppState_eqb (a b : AppState) : bool :=
  match a, b with
  | DEFAULT, DEFAULT | CALLING, CALLING => true
  | _, _ => false
  end.

Record CallData := {
  id : string;
  password : string;
  doctorName : string;
  specialty : string;
  guichet : float;
  timestamp : Z
}.

End CallModel.

(** ** The call service

    [CallService] of [call.service.ts]. The three draws of [Math.random]
    made by [generateCall] are inputs; the audio service and the timers
    are part of the environment of [CallLoop] below. *)

Module CallService.

Definition BehaviorSubject := VideoStateService.BehaviorSubject.

(** A counter is a JavaScript number. It starts at [0] and only [++]
    changes it, so it is a double whose value is an integer, [Num z] for
    the value [z], or [NaN], which is what [undefined++] leaves. *)
Inductive JsNumber :=
| Num (z : Z)
| NaN.

(** Up to [2^53] every integer is a double. *)
Definition two_53 : Z := 9007199254740992.

(** [x++] on a counter: the sum [z + 1] rounded to the nearest double,
    ties to the even significand. The sum is a double when it lies within
    [2^53]. From there up to [2^54] the doubles are the even integers,
    [z + 1] is half way between [z] and [z + 2] and the one whose half is
    even is taken: [2^53 + 1] is [2^53] again, the counter stops there.
    Beyond [2^54] the doubles are at least [4] apart and [z + 1] is nearest
    to [z]. *)
Definition js_incr (o : option JsNumber) : JsNumber :=
  match o with
  | Some (Num z) =>
      if Z.abs (z + 1) <=? two_53 then Num (z + 1)
      else if Z.abs z <? 2 * two_53 then Num (if Z.even (z / 2) then z else z + 2)
      else Num z
  | _ => NaN
  end.

(** [n.toString()]; the digits of the integer as long as it is below
    [10^21], which a counter never reaches. *)
Definition js_toString (n : JsNumber) : string :=
  match n with
  | Num z => decimal z
  | NaN => "NaN"
  end.

(** [n] zeros in front of [s]. *)
Fixpoint zeros_then (n : nat) (s : string) : string :=
  match n with
  | O => s
  | S n' => String "0"%char (zeros_then n' s)
  end.

(** [s.padStart(len, '0')]. *)
Definition padStart (len : nat) (s : string) : string :=
  zeros_then (len - String.length s) s.

Record Doctor := {
  name : string;
  doc_specialty : string
}.

Definition specialtyAcronyms : list (string * string) :=
  [("Cardiologista", "CARD");
   ("Pediatra", "PED");
   ("Neurologista", "NEURO");
   ("Dermatologista", "DERMA");
   ("Ortopedista", "ORTO")]%string.

(** [specialtyAcronyms[key]]. *)
Definition acronym_of (key : string) : option string :=
  snd <$> List.find (fun kv => String.eqb (fst kv) key) specialtyAcronyms.

Definition mockDoctors : list Doctor :=
  [{| name := "José Ferreira"; doc_specialty := "Cardiologista" |};
   {| name := "Ana Souza"; doc_specialty := "Pediatra" |};
   {| name := "Carlos Silva"; doc_specialty := "Neurologista" |};
   {| name := "Mariana Costa"; doc_specialty := "Dermatologista" |};
   {| name := "José Pereira"; doc_specialty := "Ortopedista" |}]%string.

Record t := {
  currentStateSubject : BehaviorSubject CallModel.AppState;
  currentCallSubject : BehaviorSubject (option CallModel.CallData);
  callHistorySubject : BehaviorSubject (list CallModel.CallData);
  specialtyCounters : gmap string JsNumber;
  callHistory : list CallModel.CallData
}.

Definition with_specialtyCounters (c : gmap string JsNumber) (s : t) : t :=
  {| currentStateSubject := currentStateSubject s;
     currentCallSubject := currentCallSubject s;
     callHistorySubject := callHistorySubject s;
     specialtyCounters := c;
     callHistory := callHistory s |}.

(** [initializeSpecialtyCounters] (lines 64-69). *)
Definition initializeSpecialtyCounters (s : t) : t :=
  with_specialtyCounters
    (fold_left (fun c kv => <[fst kv := Num 0]> c) specialtyAcronyms (specialtyCounters s))
    s.

(** The field initialisers followed by the constructor. *)
Definition create : t :=
  initializeSpecialtyCounters
    {| currentStateSubject := VideoStateService.new_BehaviorSubject CallModel.DEFAULT;
       currentCallSubject := VideoStateService.new_BehaviorSubject None;
       callHistorySubject := VideoStateService.new_BehaviorSubject [];
       specialtyCounters := ∅;
       callHistory := [] |}.

(** The three draws of [Math.random] in [generateCall], doubles as
    [Math.random] returns them; [r_id] stands for
    [Math.random().toString(36).substring(2, 15)]. *)
Record Random := {
  r_doctor : float;
  r_id : string;
  r_guichet : float
}.

(** The double of an integer below [2^63] in absolute value, exact
    within [2^53]; [array.length] and the literals of the code are such. *)
Definition float_of_Z (n : Z) : float :=
  if n <? 0 then PrimFloat.opp (PrimFloat.of_uint63 (Uint63.of_Z (- n)))
  else PrimFloat.of_uint63 (Uint63.of_Z n).

(** [Math.floor]: [NaN], the infinities and the zeros are returned as
    they are, and so is a double with no fractional bit; otherwise the
    significand is shifted right, towards minus infinity. *)
Definition Math_floor (x : float) : float :=
  match Prim2SF x with
  | S754_finite s m e =>
      if e <? 0 then float_of_Z ((if s then Z.neg m else Z.pos m) / 2 ^ (- e))
      else x
  | _ => x
  end.

(** The integer a double is, if it is one; both zeros are [0]. *)
Definition to_integer (x : float) : option Z :=
  match Prim2SF x with
  | S754_zero _ => Some 0
  | S754_finite s m e =>
      let v := if s then Z.neg m else Z.pos m in
      if 0 <=? e then Some (v * 2 ^ e)
      else if v mod 2 ^ (- e) =? 0 then Some (v / 2 ^ (- e))
      else None
  | _ => None
  end.

(** [array[index]] for a number [index]: the element at that position
    when the number is an integer within the array, [undefined]
    otherwise. *)
Definition at_index {A : Type} (l : list A) (index : float) : option A :=
  match to_integer index with
  | Some z => if (0 <=? z) && (z <? Z.of_nat (length l)) then l !! Z.to_nat z else None
  | None => None
  end.

(** [Math.floor(Math.random() * this.mockDoctors.length)] (line 83): the
    product is the double nearest to the exact one. *)
Definition doctorIndex (rnd : Random) : float :=
  Math_floor (PrimFloat.mul (r_doctor rnd) (float_of_Z (Z.of_nat (length mockDoctors)))).

(** [Math.floor(Math.random() * 10) + 1] (line 98). *)
Definition guichetNumber (rnd : Random) : float :=
  PrimFloat.add (Math_floor (PrimFloat.mul (r_guichet rnd) 10%float)) 1%float.

(** [generateCall] (lines 82-101). [None] stands for the [TypeError]
    raised by [doctor.specialty] when [doctor] is [undefined]; nothing has
    been mutated by then. *)
Definition generateCall (now : Z) (rnd : Random) (s : t)
    : option (CallModel.CallData * t) :=
  match at_index mockDoctors (doctorIndex rnd) with
  | None => None
  | Some doctor =>
      let sp := doc_specialty doctor in
      let n := js_incr (specialtyCounters s !! sp) in
      let acronym := VideoPlayer.js_or (acronym_of sp) "GEN" in
      let counter := padStart 3 (js_toString n) in
      Some
        ({| CallModel.id := r_id rnd;
            CallModel.password := (acronym ++ "-" ++ counter ++ "N")%string;
            CallModel.doctorName := name doctor;
            CallModel.specialty := sp;
            CallModel.guichet := guichetNumber rnd;
            CallModel.timestamp := now |},
         with_specialtyCounters (<[sp := n]> (specialtyCounters s)) s)
  end.

(** The part of [generateNewCall] (lines 113-135) that follows
    [generateCall] and [playCallTone] and precedes [setTimeout]. *)
Definition announce (newCall : CallModel.CallData) (s : t) : t :=
  let unshifted := newCall :: callHistory s in
  let history := if (4 <? length unshifted)%nat then take 4 unshifted else unshifted in
  {| currentStateSubject :=
       VideoStateService.next CallModel.CALLING (currentStateSubject s);
     currentCallSubject := VideoStateService.next (Some newCall) (currentCallSubject s);
     callHistorySubject := VideoStateService.next history (callHistorySubject s);
     specialtyCounters := specialtyCounters s;
     callHistory := history |}.

(** The callback of the 15 s timeout (lines 131-134). *)
Definition backToDefault (s : t) : t :=
  {| currentStateSubject :=
       VideoStateService.next CallModel.DEFAULT (currentStateSubject s);
     currentCallSubject := VideoStateService.next None (currentCallSubject s);
     callHistorySubject := callHistorySubject s;
     specialtyCounters := specialtyCounters s;
     callHistory := callHistory s |}.

Definition getCurrentCall (s : t) : option CallModel.CallData :=
  VideoStateService.value (currentCallSubject s).

Definition getLastCall (s : t) : option CallModel.CallData :=
  if (0 <? length (callHistory s))%nat then callHistory s !! O else None.

Definition getCallHistory (s : t) : list CallModel.CallData := drop 1 (callHistory s).

Definition getCurrentState (s : t) : CallModel.AppState :=
  VideoStateService.value (currentStateSubject s).

End CallService.

(** ** The event loop of the call service *)

Module CallLoop.

Inductive Callback :=
| CbBackToDefault     (* setTimeout, 15000 ms *)
| CbAutoCall.         (* setInterval, 30000 ms *)

Record Timer := {
  tm_due : Z;
  tm_period : option Z;
  tm_callback : Callback
}.

Record World := {
  clock : Z;
  service : CallService.t;
  playCallTone : nat;          (* calls made to [audioService.playCallTone] *)
  timers : list Timer
}.

(** [generateNewCall] (lines 113-135). *)
Definition generateNewCall (rnd : CallService.Random) (w : World) : World :=
  match CallService.generateCall (clock w) rnd (service w) with
  | None => w
  | Some (newCall, s) =>
      {| clock := clock w;
         service := CallService.announce newCall s;
         playCallTone := S (playCallTone w);
         timers := timers w ++ [{| tm_due := clock w + 15000; tm_period := None;
                                   tm_callback := CbBackToDefault |}] |}
  end.

(** [startAutoCall] (lines 164-170). *)
Definition startAutoCall (w : World) : World :=
  {| clock := clock w;
     service := service w;
     playCallTone := playCallTone w;
     timers := timers w ++ [{| tm_due := clock w + 30000; tm_period := Some 30000;
                               tm_callback := CbAutoCall |}] |}.

Definition run_callback (cb : Callback) (rnd : CallService.Random) (w : World) : World :=
  match cb with
  | CbBackToDefault =>
      {| clock := clock w;
         service := CallService.backToDefault (service w);
         playCallTone := playCallTone w;
         timers := timers w |}
  | CbAutoCall =>
      if CallModel.AppState_eqb (CallService.getCurrentState (service w)) CallModel.DEFAULT
      then generateNewCall rnd w
      else w
  end.

Inductive Event :=
| Elapse (ms : Z)
| GenerateNewCall (rnd : CallService.Random)
| StartAutoCall
| Fire (k : nat) (rnd : CallService.Random).   (* the [k]-th pending timer runs *)

Definition with_timers (l : list Timer) (w : World) : World :=
  {| clock := clock w; service := service w; playCallTone := playCallTone w;
     timers := l |}.

(** A timer runs only once it is due; a timeout is then forgotten, an
    interval is armed again. *)
Definition fire (k : nat) (rnd : CallService.Random) (w : World) : World :=
  match timers w !! k with
  | Some tm =>
      if tm_due tm <=? clock w then
        let pending :=
          match tm_period tm with
          | None => delete k (timers w)
          | Some period =>
              <[k := {| tm_due := clock w + period; tm_period := tm_period tm;
                        tm_callback := tm_callback tm |}]> (timers w)
          end in
        run_callback (tm_callback tm) rnd (with_timers pending w)
      else w
  | None => w
  end.

Definition step (w : World) (ev : Event) : World :=
  match ev with
  | Elapse ms =>
      {| clock := clock w + Z.max 0 ms; service := service w;
         playCallTone := playCallTone w; timers := timers w |}
  | GenerateNewCall rnd => generateNewCall rnd w
  | StartAutoCall => startAutoCall w
  | Fire k rnd => fire k rnd w
  end.

Definition run (evs : list Event) (w : World) : World := fold_left step evs w.

(** The application right after the service has been instantiated. *)
Definition boot (now : Z) : World :=
  {| clock := now; service := CallService.create; playCallTone := 0; timers := [] |}.

End CallLoop.

(** ** The containers that host the players

    The subscription handlers of [Highlight] and [Sidebar]. Subscribing to
    a [BehaviorSubject] runs the handler on the current value at once, then
    on every value published later. *)

Module Highlight.

Record t := {
  isCallingState : bool;
  currentCall : option CallModel.CallData;
  showVideo : bool
}.

Definition create : t :=
  {| isCallingState := false; currentCall := None; showVideo := false |}.

(** The handler of [currentState$] (lines 64-84). *)
Definition onState (state : CallModel.AppState) (h : t) : t :=
  let wasCallingState := isCallingState h in
  let calling := CallModel.AppState_eqb state CallModel.CALLING in
  let show1 :=
    if CallModel.AppState_eqb state CallModel.DEFAULT && wasCallingState
    then true else showVideo h in
  let show2 :=
    if calling && negb wasCallingState then false else show1 in
  let show3 :=
    if CallModel.AppState_eqb state CallModel.DEFAULT then true else show2 in
  {| isCallingState := calling; currentCall := currentCall h; showVideo := show3 |}.

(** The handler of [currentCall$] (lines 86-88). *)
Definition onCall (call : option CallModel.CallData) (h : t) : t :=
  {| isCallingState := isCallingState h; currentCall := call; showVideo := showVideo h |}.

(** [setupSubscriptions] on the current values of the service. *)
Definition setupSubscriptions (s : CallService.t) (h : t) : t :=
  onCall (CallService.getCurrentCall s) (onState (CallService.getCurrentState s) h).

Definition ngOnInit (s : CallService.t) (h : t) : t := setupSubscriptions s h.

End Highlight.

Module Sidebar.

Record t := {
  isCallingState : bool;
  lastCall : option CallModel.CallData;
  callHistory : list CallModel.CallData;
  allHistory : list CallModel.CallData;
  audioEnabled : bool;
  showMiniVideo : bool
}.

Definition create : t :=
  {| isCallingState := false; lastCall := None; callHistory := []; allHistory := [];
     audioEnabled := false; showMiniVideo := false |}.

(** The handler of [currentState$] (lines 249-264 of [call.service.ts],
    where the component is found). *)
Definition onState (state : CallModel.AppState) (sb : t) : t :=
  let wasCallingState := isCallingState sb in
  let calling := CallModel.AppState_eqb state CallModel.CALLING in
  let show1 := if calling && negb wasCallingState then true else showMiniVideo sb in
  let show2 :=
    if CallModel.AppState_eqb state CallModel.DEFAULT && wasCallingState
    then false else show1 in
  {| isCallingState := calling; lastCall := lastCall sb; callHistory := callHistory sb;
     allHistory := allHistory sb; audioEnabled := audioEnabled sb;
     showMiniVideo := show2 |}.

(** The handler of [callHistory$]; [slice(1, 5)] keeps at most four items
    after the first. *)
Definition onHistory (history : list CallModel.CallData) (sb : t) : t :=
  {| isCallingState := isCallingState sb;
     lastCall := if (0 <? length history)%nat then history !! O else None;
     callHistory := take 4 (drop 1 history);
     allHistory := history;
     audioEnabled := audioEnabled sb;
     showMiniVideo := showMiniVideo sb |}.

(** The handler of [audioEnabled$]. *)
Definition onAudio (enabled : bool) (sb : t) : t :=
  {| isCallingState := isCallingState sb; lastCall := lastCall sb;
     callHistory := callHistory sb; allHistory := allHistory sb;
     audioEnabled := enabled; showMiniVideo := showMiniVideo sb |}.

(** [setupSubscriptions] on the current values of the two services. *)
Definition setupSubscriptions (s : CallService.t) (audio : bool) (sb : t) : t :=
  onAudio audio
    (onHistory (VideoStateService.value (CallService.callHistorySubject s))
       (onState (CallService.getCurrentState s) sb)).

(** [loadInitialData]; the [filter] drops a [null] first item. *)
Definition loadInitialData (s : CallService.t) (sb : t) : t :=
  let last := CallService.getLastCall s in
  let history := CallService.getCallHistory s in
  {| isCallingState := isCallingState sb;
     lastCall := last;
     callHistory := history;
     allHistory := omap (fun x => x) (last :: (Some <$> history));
     audioEnabled := audioEnabled sb;
     showMiniVideo := showMiniVideo sb |}.

Definition ngOnInit (s : CallService.t) (audio : bool) (sb : t) : t :=
  loadInitialData s (setupSubscriptions s audio sb).

End Sidebar.

(** * Vocabulary of the statements *)

Module S := VideoStateService.
Module P := VideoPlayer.
Module CM := CallModel.
Module CS := CallService.
Module CL := CallLoop.
Module Au := AudioService.
Import EventLoop.

(** The authority slot is empty when it holds [null] or the empty string. *)
Definition token_empty (s : S.t) : Prop :=
  S.activePlayerId s = None \/ S.activePlayerId s = Some ""%string.

(** A producer id is a non-empty string: the empty string in the slot
    reads as no holder at all. *)
Definition producer_id (id : string) : Prop := id <> ""%string.

(** What an accepted write leaves in the store. *)
Definition written (now : Z) (state : S.PartialVideoState) (s : S.t) : S.t :=
  S.publish (S.stamp now (S.spread (S.getCurrentState s) state)) s.

(** A field after a merge: taken from the partial when named there, kept
    otherwise. *)
Definition field_merged {A : Type} (old : A) (named : option A) (new : A) : Prop :=
  match named with
  | Some v => new = v
  | None => new = old
  end.

(** [new] is [old] with the playback fields named in [state] replaced. *)
Definition merged_over (old : S.VideoState) (state : S.PartialVideoState)
    (new : S.VideoState) : Prop :=
  field_merged (S.currentTime old) (S.p_currentTime state) (S.currentTime new)
  /\ field_merged (S.playerState old) (S.p_playerState state) (S.playerState new)
  /\ field_merged (S.isPlaying old) (S.p_isPlaying state) (S.isPlaying new).

(** Contexts and scenarios used to exercise the statements below. *)

Definition gate_ctx (tok : option string) : P.Ctx :=
  {| P.self := O;
     P.this := P.create false "f" 1000;
     P.env := P.with_service
                {| S.videoConfig := S.repoVideoConfig;
                   S.videoStateSubject := S.new_BehaviorSubject (S.initialState 1000);
                   S.activePlayerId := tok |}
                (w_env (boot S.repoVideoConfig 2000)) |}.

(** Two forced writes within one millisecond; the second partial names
    every field, [lastUpdate] included. *)
Definition first_write : S.PartialVideoState := S.only_currentTime 5.

Definition second_write : S.PartialVideoState :=
  {| S.p_currentTime := Some 6%Q; S.p_playerState := Some 1;
     S.p_isPlaying := Some true; S.p_lastUpdate := Some 7 |}.

Definition written_once : S.t :=
  S.forceUpdateState 2000 first_write (S.create S.repoVideoConfig 1000).

Definition written_twice : S.t := S.forceUpdateState 2000 second_write written_once.

(** No call in the sequence is [setActivePlayer]. *)
Definition no_SetActivePlayer (cs : list (Z * S.Call)) : bool :=
  forallb (fun nc => negb (S.is_SetActivePlayer (snd nc))) cs.

(** A component just instantiated, about to run [ngOnInit], in an
    application whose store was configured with [cfg]. *)
Definition just_created (cfg : S.VideoConfig) (isMain : bool) : P.Ctx :=
  {| P.self := O;
     P.this := P.create isMain "abc" 1000;
     P.env := w_env (boot cfg 1000) |}.

Definition both_set : S.VideoConfig :=
  {| S.videoId := Some "v"%string; S.playlistId := Some "X"%string;
     S.videoIds := Some ["a"; "b"; "c"]%string |}.

Definition collection_only : S.VideoConfig :=
  {| S.videoId := Some "v"%string; S.playlistId := Some "X"%string;
     S.videoIds := None |}.

(** The context in which a method of the instance [i] runs in [w]. *)
Definition ctx_at (i : P.Ref) (w : World) : P.Ctx :=
  {| P.self := i;
     P.this := default (P.create true "" 0) (surfaces w !! i);
     P.env := w_env w |}.

(** The application starts at time 1000; a main surface is created and its
    engine becomes ready. *)
Definition main_trace : list Event :=
  [New true "abc"; NgOnInit 0%nat; PlayerReady 0%nat 0%nat].

Definition main_ready : World :=
  run main_trace (boot S.repoVideoConfig 1000).

(** One second later the main surface starts playing; the engine reaches
    second 120 and a tick of the scheduler stores it. *)
Definition playing_trace : list Event :=
  main_trace
  ++ [Elapse 1000; Fire 2%nat;
      Engine 0%nat {| P.engineTime := 120; P.engineState := 1 |};
      Elapse 250; Fire 1%nat].

Definition main_at_120 : World :=
  run playing_trace (boot S.repoVideoConfig 1000).

(** The engine of the main surface is then found paused at second 121. *)
Definition main_paused : World :=
  run
    [Engine 0%nat {| P.engineTime := 121; P.engineState := 2 |};
     Elapse 250]
    main_at_120.

(** A follower is created next to the main surface. *)
Definition follower_trace : list Event :=
  playing_trace ++ [New false "fol"; NgOnInit 1%nat].

Definition follower_created : World :=
  run follower_trace (boot S.repoVideoConfig 1000).

(** Its engine becomes ready and reaches second 119, paused. *)
Definition follower_ready : World :=
  run
    [PlayerReady 1%nat 1%nat;
     Engine 1%nat {| P.engineTime := 119; P.engineState := 2 |}]
    follower_created.

(** Some collaborator hands the empty string to [setActivePlayer] while
    the main surface holds the slot. *)
Definition slot_emptied : World :=
  step main_ready (Store (S.SetActivePlayer "")).

(** A second main surface is created while the first one is alive. *)
Definition two_mains : World :=
  run [New true "xyz"; NgOnInit 1%nat] main_ready.

(** The engine of the first one then reports ENDED, and the recovery
    timer runs 100 ms later. *)
Definition ended_on_first : World :=
  run [StateChange 0%nat 0] two_mains.

Definition recovered_on_first : World :=
  run [Elapse 100; Fire 3%nat] ended_on_first.

(** Every instance carries a non-empty [playerId]. *)
Definition ids_nonempty (w : World) : Prop :=
  Forall (fun p => P.playerId p <> ""%string) (surfaces w).

(** A method that leaves [playerId] alone. *)
Definition keeps_id (m : P.M unit) : Prop :=
  forall c, P.playerId (P.this (snd (m c))) = P.playerId (P.this c).

(** A method that leaves the authority slot alone or puts the id of its
    own instance in it. *)
Definition keeps_or_claims (m : P.M unit) : Prop :=
  forall c,
    S.activePlayerId (P.service (P.env (snd (m c)))) = S.activePlayerId (P.service (P.env c))
    \/ S.activePlayerId (P.service (P.env (snd (m c)))) = Some (P.playerId (P.this c)).

(** Timer handles already handed out are below the next one. *)
Definition fresh_env (e : P.Env) : Prop :=
  Forall (fun tm => (P.tm_id tm < P.nextTimer e)%nat) (P.timers e).

Definition timers_fresh (w : World) : Prop := fresh_env (w_env w).

Definition keeps_fresh (m : P.M unit) : Prop :=
  forall c, fresh_env (P.env c) -> fresh_env (P.env (snd (m c))).

Definition other_id (n : nat) (tm : P.Timer) : Prop := P.tm_id tm <> n.

(** The calls made so far on engine handles, in order. *)
Definition engineLog (w : World) : list (P.EngineRef * P.EngineCall) :=
  P.engineLog (w_env w).

Definition clock_of (w : World) : Z := P.clock (w_env w).

(** No pending timer belongs to the instance [i]. *)
Definition owned_by_others (i : P.Ref) (l : list P.Timer) : Prop :=
  Forall (fun tm => P.tm_owner tm <> i) l.

(** The engine of the instance [i] has not become ready: its handle is
    [null] and no pending timer is its own. *)
Definition never_ready (i : P.Ref) (w : World) : Prop :=
  (forall p, surfaces w !! i = Some p -> P.player p = None)
  /\ owned_by_others i (P.timers (w_env w)).

(** The ready event of the engine of the instance [i]. *)
Definition is_PlayerReady (i : P.Ref) (ev : Event) : bool :=
  match ev with
  | PlayerReady j _ => Nat.eqb j i
  | _ => false
  end.

Definition no_PlayerReady (i : P.Ref) (evs : list Event) : bool :=
  forallb (fun ev => negb (is_PlayerReady i ev)) evs.

Definition keeps_player (m : P.M unit) : Prop :=
  forall c, P.player (P.this (snd (m c))) = P.player (P.this c).

(** A method arms timers for its own instance only. *)
Definition arms_own (m : P.M unit) : Prop :=
  forall c i, P.self c <> i -> owned_by_others i (P.timers (P.env c)) ->
    owned_by_others i (P.timers (P.env (snd (m c)))).

(** A method that arms no timer while the engine handle is [null]. *)
Definition arms_none_when_null (m : P.M unit) : Prop :=
  forall c i, P.player (P.this c) = None -> owned_by_others i (P.timers (P.env c)) ->
    owned_by_others i (P.timers (P.env (snd (m c)))).

(** A trace of a main surface living on while other parties call the
    store and a second main surface comes and goes. *)
Definition busy_trace : list Event :=
  [PlayerReady 0%nat 0%nat;
   Store (S.ForceUpdateState second_write);
   Store (S.SetActivePlayer "kiosk");
   New true "xyz";
   NgOnInit 1%nat;
   NgOnDestroy 1%nat;
   Elapse 1000;
   Fire 2%nat;
   NgOnDestroy 0%nat].

(** ** Vocabulary for sequences of store calls *)

(** [{ ...p1, ...p2 }] on partial states. *)
Definition overlay (p1 p2 : S.PartialVideoState) : S.PartialVideoState :=
  {| S.p_currentTime := from_option Some (S.p_currentTime p1) (S.p_currentTime p2);
     S.p_playerState := from_option Some (S.p_playerState p1) (S.p_playerState p2);
     S.p_isPlaying := from_option Some (S.p_isPlaying p1) (S.p_isPlaying p2);
     S.p_lastUpdate := from_option Some (S.p_lastUpdate p1) (S.p_lastUpdate p2) |}.

(** [{}] *)
Definition empty_partial : S.PartialVideoState :=
  {| S.p_currentTime := None; S.p_playerState := None;
     S.p_isPlaying := None; S.p_lastUpdate := None |}.

(** The clock readings of a sequence of calls never go back, starting
    from [t]. *)
Fixpoint readings_from (t : Z) (cs : list (Z * S.Call)) : bool :=
  match cs with
  | [] => true
  | (now, _) :: cs' => (t <=? now) && readings_from now cs'
  end.

(** A list of stamps that never goes back, starting from [t]. *)
Fixpoint nondecreasing (t : Z) (l : list Z) : bool :=
  match l with
  | [] => true
  | x :: l' => (t <=? x) && nondecreasing x l'
  end.

(** The [lastUpdate] of every state published so far, oldest first. *)
Definition stamps (s : S.t) : list Z :=
  List.map S.lastUpdate (S.emitted (S.videoStateSubject s)).

(** The id given to the last [setActivePlayer] of a sequence, if any. *)
Fixpoint last_SetActivePlayer (cs : list (Z * S.Call)) : option string :=
  match cs with
  | [] => None
  | (_, c) :: cs' =>
      match last_SetActivePlayer cs' with
      | Some id => Some id
      | None => match c with S.SetActivePlayer id => Some id | _ => None end
      end
  end.

(** The playback fields of a state, without its stamp. *)
Definition playback (v : S.VideoState) : Q * Z * bool :=
  (S.currentTime v, S.playerState v, S.isPlaying v).

(** Three writes, the first two within the same millisecond, then a
    change of holder and a write that is refused. *)
Definition sample_calls : list (Z * S.Call) :=
  [(1000, S.ForceUpdateState first_write);
   (1000, S.UpdateState second_write "A"%string);
   (1004, S.SetActivePlayer "B"%string);
   (1005, S.SaveCurrentTime 9 "A"%string);
   (1007, S.SavePlayerState 2 false "B"%string)].

(** ** Vocabulary for the source resolver *)

(** A [string | undefined] that reads as false: absent or empty. *)
Definition unset (o : option string) : Prop := o = None \/ o = Some ""%string.

(** The three keys [setupPlayerConfig] writes or deletes. *)
Definition mode_key (k : string) : Prop :=
  k = "listType"%string \/ k = "list"%string \/ k = "playlist"%string.

Definition list_only : S.VideoConfig :=
  {| S.videoId := Some "v"%string; S.playlistId := None;
     S.videoIds := Some ["a"; "b"; "c"]%string |}.

Definition one_item : S.VideoConfig :=
  {| S.videoId := Some "v"%string; S.playlistId := Some ""%string;
     S.videoIds := Some ["a"]%string |}.

Definition nothing_set : S.VideoConfig :=
  {| S.videoId := None; S.playlistId := None; S.videoIds := Some [] |}.

(** ** Vocabulary for the engine events *)

Definition outputs_of (w : World) : list (P.Ref * P.Output) := P.outputs (w_env w).

Definition timers_of (w : World) : list P.Timer := P.timers (w_env w).

(** The world [w] after the instance [i] has emitted [o] and nothing else
    has happened. *)
Definition emitted_only (o : P.Output) (i : P.Ref) (w : World) : World :=
  {| w_env := P.with_outputs (P.outputs (w_env w) ++ [(i, o)]) (w_env w);
     surfaces := surfaces w |}.

(** The engine calls [syncWith] makes on a ready surface. *)
Definition sync_commands (isMain : bool) (time : Q) (state : Z) : list P.EngineCall :=
  P.E_seekTo time true
  :: (if (state =? 1) && isMain then [P.E_playVideo]
      else if state =? 2 then [P.E_pauseVideo] else []).


(** ** Vocabulary for the timers of the surfaces *)

(** The periodic scheduler is the only timer whose callback is the
    [setInterval] arrow function. *)
Definition is_scheduler (tm : P.Timer) : bool :=
  match P.tm_callback tm with
  | P.CbSaveState => true
  | _ => false
  end.

Definition scheduler_of (i : P.Ref) (tm : P.Timer) : bool :=
  is_scheduler tm && Nat.eqb (P.tm_owner tm) i.

(** The pending periodic schedulers of the instance [i]. *)
Definition schedulers (i : P.Ref) (w : World) : list P.Timer :=
  List.filter (scheduler_of i) (timers_of w).

(** The pending timers [tms], the next handle [n] and the
    [saveStateInterval] fields [handles] of the instances agree: handles
    are positive, below [n] and pairwise distinct; a pending scheduler is
    the one its owner remembers; a remembered handle is that of no other
    timer. *)
Definition armed (n : nat) (tms : list P.Timer) (handles : list (option nat)) : Prop :=
  (1 <= n)%nat
  /\ Forall (fun tm => (1 <= P.tm_id tm < n)%nat) tms
  /\ NoDup (P.tm_id <$> tms)
  /\ (forall tm, tm ∈ tms -> is_scheduler tm = true ->
        handles !! P.tm_owner tm = Some (Some (P.tm_id tm)))
  /\ (forall i id, handles !! i = Some (Some id) ->
        (1 <= id < n)%nat
        /\ forall tm, tm ∈ tms -> P.tm_id tm = id -> scheduler_of i tm = true).

Definition well_armed (w : World) : Prop :=
  armed (P.nextTimer (w_env w)) (timers_of w) (P.saveStateInterval <$> surfaces w).

(** [if (h) clearInterval(h)] on the pending timers. *)
Definition cleared (h : option nat) (tms : list P.Timer) : list P.Timer :=
  if truthy_handle h then P.drop_timer (default O h) tms else tms.

(** What a method may do to the timers and to [saveStateInterval]: nothing,
    arm one timeout, clear the remembered interval, or replace the
    remembered interval by a new scheduler and arm one timeout. *)
Inductive timer_effect (c c' : P.Ctx) : Prop :=
| te_none :
    P.timers (P.env c') = P.timers (P.env c) ->
    P.nextTimer (P.env c') = P.nextTimer (P.env c) ->
    P.saveStateInterval (P.this c') = P.saveStateInterval (P.this c) ->
    timer_effect c c'
| te_timeout (tm : P.Timer) :
    P.timers (P.env c') = P.timers (P.env c) ++ [tm] ->
    P.tm_id tm = P.nextTimer (P.env c) ->
    is_scheduler tm = false ->
    P.nextTimer (P.env c') = S (P.nextTimer (P.env c)) ->
    P.saveStateInterval (P.this c') = P.saveStateInterval (P.this c) ->
    timer_effect c c'
| te_clear :
    P.timers (P.env c')
    = P.drop_timer (default O (P.saveStateInterval (P.this c))) (P.timers (P.env c)) ->
    P.nextTimer (P.env c') = P.nextTimer (P.env c) ->
    P.saveStateInterval (P.this c') = P.saveStateInterval (P.this c) ->
    timer_effect c c'
| te_scheduler (tm1 tm2 : P.Timer) :
    P.timers (P.env c')
    = (cleared (P.saveStateInterval (P.this c)) (P.timers (P.env c)) ++ [tm1]) ++ [tm2] ->
    P.tm_id tm1 = P.nextTimer (P.env c) ->
    P.tm_owner tm1 = P.self c ->
    is_scheduler tm1 = true ->
    P.tm_id tm2 = S (P.nextTimer (P.env c)) ->
    is_scheduler tm2 = false ->
    P.nextTimer (P.env c') = S (S (P.nextTimer (P.env c))) ->
    P.saveStateInterval (P.this c') = Some (P.nextTimer (P.env c)) ->
    timer_effect c c'.

Definition timer_discipline (m : P.M unit) : Prop :=
  forall c, timer_effect c (snd (m c)).

(** ** Vocabulary for the holder of the authority slot *)

(** The authority slot is empty or holds the id of a main surface. *)
Definition held_by_main (w : World) : Prop :=
  token w = None
  \/ exists i p, surfaces w !! i = Some p /\ P.isMainPlayer p = true
                 /\ token w = Some (P.playerId p).

Definition no_direct_claim (ev : Event) : bool :=
  match ev with
  | Store c => negb (S.is_SetActivePlayer c)
  | _ => true
  end.

Definition claims_as_main (m : P.M unit) : Prop :=
  forall c,
    P.isMainPlayer (P.this (snd (m c))) = P.isMainPlayer (P.this c)
    /\ P.playerId (P.this (snd (m c))) = P.playerId (P.this c)
    /\ (S.activePlayerId (P.service (P.env (snd (m c))))
        = S.activePlayerId (P.service (P.env c))
        \/ (P.isMainPlayer (P.this c) = true
            /\ S.activePlayerId (P.service (P.env (snd (m c))))
               = Some (P.playerId (P.this c)))).

(** ** Vocabulary for the call service and the containers *)

(** Reading a sequence of decimal digits back. *)
Definition read_digits (s : string) : option Z := Z.of_uint <$> NilZero.uint_of_string s.

(** The calls announced so far, oldest first. *)
Definition generated (s : CS.t) : list CM.CallData :=
  omap (fun call => call) (S.emitted (CS.currentCallSubject s)).

Definition same_specialty (sp : string) (c : CM.CallData) : bool :=
  String.eqb (CM.specialty c) sp.

(** How many of the calls [g] are for the specialty [sp]. *)
Definition calls_for (sp : string) (g : list CM.CallData) : Z :=
  Z.of_nat (length (List.filter (same_specialty sp) g)).

(** The password [SIGLA-XXXN] that carries the number [k]. *)
Definition password_for (acronym : string) (k : Z) : string :=
  (acronym ++ "-" ++ CS.padStart 3 (decimal k) ++ "N")%string.

(** What a counter reads after [n] increments from [0]: it counts up to
    [2^53] and stays there. *)
Definition counter_after (n : Z) : Z := Z.min n CS.two_53.

(** Every call carries the acronym of its specialty and what the counter
    of that specialty read once the call was counted. *)
Definition sequential (g : list CM.CallData) : Prop :=
  forall j c, g !! j = Some c ->
    exists acronym, CS.acronym_of (CM.specialty c) = Some acronym
      /\ CM.password c
         = password_for acronym (counter_after (calls_for (CM.specialty c) (take (S j) g))).

(** The counter of every specialty has been incremented once for every
    call announced for it. *)
Definition counted (s : CS.t) : Prop :=
  forall sp, is_Some (CS.acronym_of sp) ->
    CS.specialtyCounters s !! sp
    = Some (CS.Num (counter_after (calls_for sp (generated s)))).

(** What the timers and the callers make of the service: a call is
    generated and announced, or the 15 s timeout brings the default state
    back. *)
Inductive service_step (s : CS.t) : CS.t -> Prop :=
| ss_call (now : Z) (rnd : CS.Random) (c : CM.CallData) (s1 : CS.t) :
    CS.generateCall now rnd s = Some (c, s1) ->
    service_step s (CS.announce c s1)
| ss_reset : service_step s (CS.backToDefault s).

(** A double of the interval [0, 1), where [Math.random] draws. *)
Definition in_unit (r : float) : bool := PrimFloat.leb 0 r && PrimFloat.ltb r 1.

Definition draws_in_range (rnd : CS.Random) : Prop :=
  in_unit (CS.r_doctor rnd) = true /\ in_unit (CS.r_guichet rnd) = true.

(** Rounding a product shifts its significand to the right. [mrs] is
    what is left of [M] once [j] bits have been shifted out of it; the
    round bit is set only when these bits make at least half a unit. *)
Definition shifted (M j : Z) (mrs : shr_record) : Prop :=
  0 <= j /\ 0 <= shr_m mrs
  /\ exists rem, 0 <= rem < 2 ^ j /\ M = shr_m mrs * 2 ^ j + rem
       /\ (shr_r mrs = true -> 2 ^ j <= 2 * rem).

Definition some_draws : CS.Random :=
  {| CS.r_doctor := 0.5; CS.r_id := "k3j9x"; CS.r_guichet := 0.25 |}.

Definition other_draws : CS.Random :=
  {| CS.r_doctor := 0.5; CS.r_id := "p0q8z"; CS.r_guichet := 0 |}.

(** The doubles nearest to 0.6 and to 0.7. Their exact products with 5
    and with 10 lie just below 3 and 7; the doubles nearest to these
    products are 3 and 7. *)
Definition rounded_draws : CS.Random :=
  {| CS.r_doctor := 0x1.3333333333333p-1; CS.r_id := "k3j9x";
     CS.r_guichet := 0x1.6666666666666p-1 |}.

(** A draw no [Math.random] makes. *)
Definition odd_draws : CS.Random :=
  {| CS.r_doctor := 1; CS.r_id := "k3j9x"; CS.r_guichet := 0.5 |}.

(** Two calls made by hand, for the same doctor. *)
Definition two_calls : CL.World :=
  CL.run [CL.GenerateNewCall some_draws; CL.Elapse 20000; CL.GenerateNewCall other_draws]
    (CL.boot 1000).

(** Values delivered to a subscriber, in order. *)
Definition deliver {A B : Type} (handler : A -> B -> B) (vs : list A) (b : B) : B :=
  fold_left (fun acc v => handler v acc) vs b.

Definition windowed (s : CS.t) : Prop :=
  CS.callHistory s = take 4 (reverse (generated s))
  /\ S.value (CS.callHistorySubject s) = CS.callHistory s.

Definition on_display (s : CS.t) : Prop :=
  (CS.getCurrentState s = CM.CALLING <-> is_Some (CS.getCurrentCall s))
  /\ (forall c, CS.getCurrentCall s = Some c -> CS.getLastCall s = Some c).

Definition acronym_pairs (sp acr : string) : Prop :=
  (sp = "Cardiologista" /\ acr = "CARD")%string
  \/ (sp = "Pediatra" /\ acr = "PED")%string
  \/ (sp = "Neurologista" /\ acr = "NEURO")%string
  \/ (sp = "Dermatologista" /\ acr = "DERMA")%string
  \/ (sp = "Ortopedista" /\ acr = "ORTO")%string.

Definition ranked (s : CS.t) : Prop := counted s /\ sequential (generated s).

Definition is_reset (tm : CL.Timer) : bool :=
  match CL.tm_callback tm with
  | CL.CbBackToDefault => true
  | CL.CbAutoCall => false
  end.

(** The pending timeouts that bring the default state back. *)
Definition pending_resets (w : CL.World) : list CL.Timer := List.filter is_reset (CL.timers w).

Definition manual (ev : CL.Event) : bool :=
  match ev with
  | CL.GenerateNewCall _ => true
  | _ => false
  end.

Definition auto_only (evs : list CL.Event) : bool := forallb (fun ev => negb (manual ev)) evs.

(** A timeout brings the default state back, an interval calls. *)
Definition timer_kind (tm : CL.Timer) : Prop :=
  match CL.tm_callback tm with
  | CL.CbBackToDefault => CL.tm_period tm = None
  | CL.CbAutoCall => is_Some (CL.tm_period tm)
  end.

(** No call is on display and no timeout is pending, or one call is and
    the one pending timeout is due 15 s after the call was made. *)
Definition undisturbed (w : CL.World) : Prop :=
  Forall timer_kind (CL.timers w)
  /\ match CS.getCurrentCall (CL.service w) with
     | None => CS.getCurrentState (CL.service w) = CM.DEFAULT /\ pending_resets w = []
     | Some c =>
         CS.getCurrentState (CL.service w) = CM.CALLING
         /\ pending_resets w = [{| CL.tm_due := CM.timestamp c + 15000; CL.tm_period := None;
                                   CL.tm_callback := CL.CbBackToDefault |}]
     end.

(** The automatic calls are started and the first one is made. *)
Definition auto_trace : list CL.Event :=
  [CL.StartAutoCall; CL.Elapse 30000; CL.Fire 0%nat some_draws].

(** ** Vocabulary for the audio service *)

(** The volume of the call tone element; [None] when there is none. *)
Definition tone_volume (e : Au.Env) : option Q := Au.volume <$> Au.callToneAudio (Au.this e).

(** [true] has never been published on [audioEnabled$]. *)
Definition never_enabled (e : Au.Env) : Prop :=
  Forall (fun b => b = false) (S.emitted (Au.audioEnabledSubject (Au.this e))).

Definition is_EnablePlay (p : Au.Promise) : bool :=
  match p with
  | Au.EnablePlay _ => true
  | _ => false
  end.

(** The volume a pending [enableAudio] would restore, if [p] is one. *)
Definition restores (v : Q) (p : Au.Promise) : Prop :=
  match p with
  | Au.EnablePlay originalVolume => originalVolume = v
  | _ => True
  end.

(** The call tone element is silent and no pending promise would make it
    audible again. *)
Definition muted (e : Au.Env) : Prop :=
  tone_volume e = Some 0%Q /\ Forall (restores 0) (Au.promises e).

(** The service keeps its flag and its subject together. *)
Definition coherent (e : Au.Env) : Prop :=
  S.value (Au.audioEnabledSubject (Au.this e)) = Au.isAudioEnabled (Au.this e)
  /\ (Au.isAudioEnabled (Au.this e) = true -> is_Some (Au.callToneAudio (Au.this e)))
  /\ (never_enabled e ->
        Au.isAudioEnabled (Au.this e) = false
        /\ Au.fallbacks e = []
        /\ Forall (fun p => is_EnablePlay p = true) (Au.promises e)).

Definition failed_then_enabled : list Au.Event :=
  [Au.EnableAudio Au.AnswersPromise; Au.Settle 0 false true Au.AnswersPromise;
   Au.EnableAudio Au.AnswersPromise; Au.Settle 0 true true Au.AnswersPromise;
   Au.PlayCallTone Au.AnswersPromise true Au.AnswersPromise].

(** * Properties of the store *)

Lemma truthy_true (o : option string) :
  truthy o = true <-> exists tok, o = Some tok /\ tok <> ""%string.
Proof.
  destruct o as [tok|]; simpl.
  - rewrite negb_true_iff, String.eqb_neq. split.
    + intros H. exists tok. split; [reflexivity | exact H].
    + intros [tok' [Heq Hne]]. injection Heq as ->. exact Hne.
  - split; [discriminate | intros [tok [Heq _]]; discriminate].
Qed.

Lemma refused_true (s : S.t) (id : string) :
  S.refused s id = true
  <-> exists tok, S.activePlayerId s = Some tok /\ tok <> ""%string /\ tok <> id.
Proof.
  unfold S.refused. destruct (S.activePlayerId s) as [tok|]; simpl.
  - rewrite andb_true_iff, !negb_true_iff, !String.eqb_neq. split.
    + intros [H1 H2]. exists tok. auto.
    + intros [tok' [Heq [H1 H2]]]. injection Heq as ->. auto.
  - split; [discriminate | intros [tok [Heq _]]; discriminate].
Qed.

Lemma refused_false (s : S.t) (id : string) :
  S.refused s id = false <-> (token_empty s \/ S.activePlayerId s = Some id).
Proof.
  unfold S.refused, token_empty. destruct (S.activePlayerId s) as [tok|]; simpl.
  - rewrite andb_false_iff, !negb_false_iff, !String.eqb_eq. split.
    + intros [->| ->]; auto.
    + intros [[H|H]|H]; try discriminate; injection H as ->; auto.
  - split; auto.
Qed.

Lemma updateState_refused (now : Z) (state : S.PartialVideoState) (id : string) (s : S.t) :
  S.refused s id = true -> S.updateState now state id s = s.
Proof. intros H. unfold S.updateState. rewrite H. reflexivity. Qed.

Lemma updateState_accepted (now : Z) (state : S.PartialVideoState) (id : string) (s : S.t) :
  S.refused s id = false -> S.updateState now state id s = written now state s.
Proof. intros H. unfold S.updateState. rewrite H. reflexivity. Qed.

Lemma updateState_token (now : Z) (state : S.PartialVideoState) (id : string) (s : S.t) :
  S.activePlayerId (S.updateState now state id s) = S.activePlayerId s.
Proof. unfold S.updateState. destruct (S.refused s id); reflexivity. Qed.

Lemma call_token (now : Z) (c : S.Call) (s : S.t) :
  S.is_SetActivePlayer c = false ->
  S.activePlayerId (S.call now c s) = S.activePlayerId s.
Proof.
  destruct c; simpl; intros H; try discriminate; try reflexivity;
    unfold S.saveCurrentTime, S.savePlayerState; apply updateState_token.
Qed.

Lemma calls_token (cs : list (Z * S.Call)) (s : S.t) :
  no_SetActivePlayer cs = true ->
  S.activePlayerId (S.calls cs s) = S.activePlayerId s.
Proof.
  unfold no_SetActivePlayer.
  revert s. induction cs as [|[now c] cs IH]; intros s H; simpl in *.
  - reflexivity.
  - apply andb_true_iff in H as [Hc Hcs]. rewrite IH by exact Hcs.
    apply call_token. apply negb_true_iff. exact Hc.
Qed.

(** C1. A gated write from a requester that is not the holder of a
    non-empty authority token returns normally and leaves the whole context
    as it was: same snapshot, same [lastUpdate], nothing published. When the
    token is empty or equals the requester, the call returns normally, the
    partial is merged over the current state, [lastUpdate] is set to the
    clock reading, and that state is published; nothing else changes. *)
Theorem updateState_gate (c : P.Ctx) (state : S.PartialVideoState) (id : string) :
  let s := P.service (P.env c) in
  (forall tok, S.activePlayerId s = Some tok -> tok <> ""%string -> tok <> id ->
     P.service_updateState state id c = (P.Returned tt, c))
  /\ (token_empty s \/ S.activePlayerId s = Some id ->
      let s' := written (P.clock (P.env c)) state s in
      P.service_updateState state id c
        = (P.Returned tt,
           {| P.self := P.self c; P.this := P.this c;
              P.env := P.with_service s' (P.env c) |})
      /\ merged_over (S.getCurrentState s) state (S.getCurrentState s')
      /\ S.lastUpdate (S.getCurrentState s') = P.clock (P.env c)
      /\ S.emitted (S.videoStateSubject s')
         = S.emitted (S.videoStateSubject s) ++ [S.getCurrentState s']
      /\ S.activePlayerId s' = S.activePlayerId s
      /\ S.videoConfig s' = S.videoConfig s).
Proof.
  intros s. split.
  - intros tok Htok Hne Hid.
    assert (Hr : S.refused s id = true) by (apply refused_true; eauto).
    unfold P.service_updateState, P.service_do, P.modify_env, P.Date_now, P.bind.
    fold s. rewrite updateState_refused by exact Hr.
    destruct c as [i p [k sv tl lg tms nt outs]]; reflexivity.
  - intros H. apply refused_false in H.
    unfold P.service_updateState, P.service_do, P.modify_env, P.Date_now, P.bind.
    fold s. rewrite updateState_accepted by exact H.
    unfold merged_over, field_merged, written. cbn.
    destruct (S.p_currentTime state), (S.p_playerState state), (S.p_isPlaying state);
      repeat split; reflexivity.
Qed.

Lemma updateState_gate_witness :
  P.service_updateState (S.only_currentTime 5) "B" (gate_ctx (Some "A"%string))
    = (P.Returned tt, gate_ctx (Some "A"%string))
  /\ S.getCurrentState
       (P.service (P.env (snd (P.service_updateState (S.only_currentTime 5) "B"
                                 (gate_ctx (Some "B"%string))))))
     = {| S.currentTime := 5; S.playerState := -1; S.isPlaying := false;
          S.lastUpdate := 2000 |}.
Proof.
  split.
  - apply (proj1 (updateState_gate (gate_ctx (Some "A"%string)) (S.only_currentTime 5) "B")
             "A"%string); [reflexivity | discriminate | discriminate].
  - destruct (proj2 (updateState_gate (gate_ctx (Some "B"%string)) (S.only_currentTime 5) "B")
                (or_intror eq_refl)) as [H _].
    rewrite H. reflexivity.
Defined.

(** C2, as the code has it. A successful write (any forced write, or a
    gated write that is not refused) takes each of [currentTime],
    [playerState] and [isPlaying] from the partial when it is named there
    and keeps it otherwise, sets [lastUpdate] to the clock reading of the
    write whatever the partial says, publishes the result once and leaves
    the authority slot alone. [lastUpdate] grows strictly when the clock
    has moved past the previous stamp. The forced write needs no condition
    on the authority slot. *)
Theorem successful_write (now : Z) (state : S.PartialVideoState) (id : string)
    (s s' : S.t) :
  s' = S.forceUpdateState now state s
  \/ (S.refused s id = false /\ s' = S.updateState now state id s) ->
  merged_over (S.getCurrentState s) state (S.getCurrentState s')
  /\ S.lastUpdate (S.getCurrentState s') = now
  /\ (S.lastUpdate (S.getCurrentState s) < now ->
      S.lastUpdate (S.getCurrentState s) < S.lastUpdate (S.getCurrentState s'))
  /\ S.emitted (S.videoStateSubject s')
     = S.emitted (S.videoStateSubject s) ++ [S.getCurrentState s']
  /\ S.activePlayerId s' = S.activePlayerId s.
Proof.
  intros H.
  assert (Hs : s' = written now state s).
  { destruct H as [->|[Hr ->]]; [reflexivity | apply updateState_accepted, Hr]. }
  subst s'. unfold merged_over, field_merged, written. cbn.
  destruct (S.p_currentTime state), (S.p_playerState state), (S.p_isPlaying state);
    repeat split; auto.
Qed.

Lemma successful_write_witness :
  S.lastUpdate (S.getCurrentState (S.create S.repoVideoConfig 1000))
  < S.lastUpdate (S.getCurrentState written_once)
  /\ S.currentTime (S.getCurrentState written_once) = 5%Q.
Proof.
  destruct (successful_write 2000 first_write "any"
              (S.create S.repoVideoConfig 1000) written_once (or_introl eq_refl))
    as [[Ht _] [_ [Hlt _]]].
  split; [apply Hlt; reflexivity | exact Ht].
Defined.

(** C2, as stated, fails: the second of two forced writes made within the
    same millisecond is a successful write, yet its [lastUpdate] is not
    greater than the previous one, and the [lastUpdate] its partial names
    is not the one stored. *)
Lemma successful_write_counterexample :
  S.emitted (S.videoStateSubject written_twice)
  = S.emitted (S.videoStateSubject written_once) ++ [S.getCurrentState written_twice]
  /\ ~ (S.lastUpdate (S.getCurrentState written_once)
        < S.lastUpdate (S.getCurrentState written_twice))
  /\ S.p_lastUpdate second_write = Some 7
  /\ S.lastUpdate (S.getCurrentState written_twice) <> 7.
Proof.
  repeat split; vm_compute; congruence.
Qed.

(** The empty string in the slot is no holder: every gated write goes
    through. *)
Remark empty_string_is_no_holder (s : S.t) (now : Z) (state : S.PartialVideoState)
    (id : string) :
  S.updateState now state id (S.setActivePlayer "" s)
  = written now state (S.setActivePlayer "" s).
Proof. apply updateState_accepted, refused_false. left. right. reflexivity. Qed.

(** C3. [setActivePlayer B] puts [B] in the slot whatever it held, without
    publishing anything. From then on, through any calls other than
    [setActivePlayer], a gated write under a different id [A] leaves the
    store as it is and a gated write under [B] goes through. *)
Theorem setActivePlayer_takeover (s : S.t) (A B : string) (cs : list (Z * S.Call))
    (now : Z) (state : S.PartialVideoState) :
  A <> B -> producer_id B -> no_SetActivePlayer cs = true ->
  let s1 := S.setActivePlayer B s in
  let s2 := S.calls cs s1 in
  S.activePlayerId s1 = Some B
  /\ S.videoStateSubject s1 = S.videoStateSubject s
  /\ S.updateState now state A s2 = s2
  /\ S.updateState now state B s2 = written now state s2.
Proof.
  intros HAB HB Hcs s1 s2.
  assert (Htok : S.activePlayerId s2 = Some B).
  { unfold s2. rewrite calls_token by exact Hcs. reflexivity. }
  repeat split.
  - apply updateState_refused, refused_true. exists B. auto.
  - apply updateState_accepted, refused_false. right. exact Htok.
Qed.

Lemma setActivePlayer_takeover_witness :
  let s1 := S.setActivePlayer "B" (S.setActivePlayer "A" written_once) in
  let s2 := S.calls [(2001, S.UpdateState first_write "A"%string);
                     (2002, S.ForceUpdateState second_write)] s1 in
  S.updateState 2003 first_write "A" s2 = s2
  /\ S.currentTime (S.getCurrentState (S.updateState 2003 first_write "B" s2)) = 5%Q.
Proof.
  intros s1 s2.
  destruct (setActivePlayer_takeover (S.setActivePlayer "A" written_once)
              "A" "B"
              [(2001, S.UpdateState first_write "A"%string);
               (2002, S.ForceUpdateState second_write)]
              2003 first_write)
    as [_ [_ [HA HB]]]; [discriminate | discriminate | reflexivity |].
  split; [exact HA | fold s1 s2 in HB; rewrite HB; reflexivity].
Defined.

(** * Properties of a player surface *)

Ltac run_method :=
  unfold P.onStateChange, P.onPlayerReady, P.ngOnDestroy, P.ngOnInit, P.syncWith,
    P.run_callback, P.saveStateTick, P.ensurePlaying, P.restorePosition,
    P.startPlaying, P.restartLoop, P.syncMiniPlayers, P.unsubscribe,
    P.engine_getCurrentTime, P.engine_getPlayerState, P.engine,
    P.service_updateState, P.service_forceUpdateState, P.service_setActivePlayer,
    P.service_do, P.service_get, P.setTimeout, P.setInterval, P.schedule,
    P.clearInterval, P.emit, P.when, P.Date_now, P.modify_env, P.modify_this,
    P.get_this, P.throw, P.bind, P.ret.

(** Open the context and the instance so that field reads compute. *)
Ltac open_ctx c :=
  let i := fresh "i" in
  let p := fresh "p" in
  let e := fresh "e" in
  destruct c as [i p e]; destruct p; simpl in *; subst.

Ltac split_branch :=
  match goal with
  | |- context [if ?b then _ else _] =>
      lazymatch b with
      | context [if _ then _ else _] => fail
      | context [match _ with Some _ => _ | None => _ end] => fail
      | _ => destruct b; cbn
      end
  | |- context [match ?o with Some _ => _ | None => _ end] =>
      lazymatch o with
      | context [if _ then _ else _] => fail
      | _ => destruct o; cbn
      end
  end.

Ltac crush_method c :=
  open_ctx c; run_method; unfold P.setupPlayerConfig; cbn;
  repeat split_branch; rewrite ?updateState_token; auto.

Lemma Qgtb_true (a b : Q) : Qgtb a b = true <-> (b < a)%Q.
Proof.
  unfold Qgtb. rewrite negb_true_iff. split.
  - intros H. apply Qnot_le_lt. intros Hle.
    apply Qle_bool_iff in Hle. congruence.
  - intros H. destruct (Qle_bool a b) eqn:E; [|reflexivity].
    apply Qle_bool_iff in E. exfalso. exact (Qlt_not_le _ _ H E).
Qed.

(** C4, as the code has it. When [playlistId] is set and [videoIds] holds
    more than one item, [setupPlayerConfig] selects the playlist mode with
    that id and emits no explicit playlist, and the engine configuration it
    leaves is the same whatever the item list is; [getVideoId], however,
    answers the first item of the list. *)
Theorem collection_precedence (p : P.t) (X first : string) (rest : list string) :
  P.playlistId p = Some X -> X <> ""%string ->
  P.videoIds p = Some (first :: rest) -> (1 < length (first :: rest))%nat ->
  let q := P.setupPlayerConfig p in
  P.playerConfig q !! "listType"%string = Some (P.JString "playlist")
  /\ P.playerConfig q !! "list"%string = Some (P.JString X)
  /\ P.playerConfig q !! "playlist"%string = None
  /\ (forall p', P.playlistId p' = Some X -> P.playerConfig p' = P.playerConfig p ->
        P.playerConfig (P.setupPlayerConfig p') = P.playerConfig q)
  /\ P.videoIds q = P.videoIds p
  /\ P.getVideoId q = first.
Proof.
  intros Hpl HX Hids _ q.
  assert (Ht : truthy (Some X) = true) by (apply truthy_true; eauto).
  assert (Hq : forall p', P.playlistId p' = Some X ->
            P.setupPlayerConfig p'
            = P.with_playerConfig
                (delete "playlist"%string
                   (<["list"%string := P.JString X]>
                      (<["listType"%string := P.JString "playlist"]> (P.playerConfig p'))))
                p').
  { intros p' Hp'. unfold P.setupPlayerConfig. rewrite Hp', Ht. reflexivity. }
  unfold q. rewrite (Hq p Hpl). cbn [P.playerConfig P.with_playerConfig].
  split; [|split; [|split; [|split; [|split]]]].
  - rewrite lookup_delete_ne by discriminate.
    rewrite lookup_insert_ne by discriminate. apply lookup_insert_eq.
  - rewrite lookup_delete_ne by discriminate. apply lookup_insert_eq.
  - apply lookup_delete_eq.
  - intros p' Hp' Hcfg. rewrite (Hq p' Hp'). cbn [P.playerConfig P.with_playerConfig].
    rewrite Hcfg. reflexivity.
  - reflexivity.
  - unfold P.getVideoId. cbn [P.videoIds P.with_playerConfig]. rewrite Hids. reflexivity.
Qed.

Lemma collection_precedence_witness :
  let q := P.setupPlayerConfig (P.with_source both_set (P.this (just_created both_set true))) in
  P.playerConfig q !! "list"%string = Some (P.JString "X")
  /\ P.playerConfig q !! "playlist"%string = None
  /\ P.getVideoId q = "a"%string.
Proof.
  intros q.
  destruct (collection_precedence (P.with_source both_set (P.this (just_created both_set true)))
              "X" "a" ["b"; "c"]%string)
    as [_ [Hl [Hp [_ [_ Hv]]]]];
    [reflexivity | discriminate | reflexivity | simpl; lia |].
  auto.
Defined.

(** C4, as stated, fails: with the collection id [X] and the item list
    [a, b, c] both set, the surface initialised by [ngOnInit] is in playlist
    mode, yet its primary target is [a], taken from the item list; with the
    collection id alone it is the empty id. *)
Lemma collection_precedence_counterexample :
  let both := P.this (snd (P.ngOnInit (just_created both_set true))) in
  let only := P.this (snd (P.ngOnInit (just_created collection_only true))) in
  P.playerConfig both !! "list"%string = Some (P.JString "X")
  /\ P.playerConfig both = P.playerConfig only
  /\ P.getVideoId both = "a"%string
  /\ P.getVideoId only = ""%string
  /\ P.getVideoId both <> P.getVideoId only.
Proof.
  repeat split; try reflexivity. vm_compute. discriminate.
Qed.

(** The store state pushed by the loop-continuity correction. *)
Lemma playing_from_start_written (now : Z) (s : S.t) :
  S.getCurrentState (written now P.playing_from_start s)
  = {| S.currentTime := 0; S.playerState := 1; S.isPlaying := true;
       S.lastUpdate := now |}.
Proof. reflexivity. Qed.

(** The two steps of the loop-continuity correction, each on its own.
    When the engine of a ready main surface reports ENDED, the handler only
    reads the engine position and arms one timeout of 100 ms; it neither
    writes to the store nor emits [stateChange]. Whenever the callback of
    that timeout runs, whatever happened in between, the surface seeks to
    0, plays, and makes one gated write of [{currentTime: 0, isPlaying:
    true, playerState: 1}] under its own id. *)
Lemma ended_recovery_steps (c : P.Ctx) (h : P.EngineRef) :
  P.isMainPlayer (P.this c) = true ->
  P.player (P.this c) = Some h ->
  P.isPlayerReady (P.this c) = true ->
  let r := P.onStateChange 0 c in
  fst r = P.Returned tt
  /\ P.this (snd r) = P.this c
  /\ P.service (P.env (snd r)) = P.service (P.env c)
  /\ P.outputs (P.env (snd r)) = P.outputs (P.env c)
  /\ P.engineLog (P.env (snd r)) = P.engineLog (P.env c) ++ [(h, P.E_getCurrentTime)]
  /\ P.timers (P.env (snd r))
     = P.timers (P.env c)
       ++ [{| P.tm_id := P.nextTimer (P.env c); P.tm_owner := P.self c;
              P.tm_due := P.clock (P.env c) + 100; P.tm_period := None;
              P.tm_callback := P.CbRestartLoop |}]
  /\ forall c' h',
       P.player (P.this c') = Some h' ->
       let r' := P.run_callback P.CbRestartLoop c' in
       let s := P.service (P.env c') in
       let s' := P.service (P.env (snd r')) in
       fst r' = P.Returned tt
       /\ P.engineLog (P.env (snd r'))
          = P.engineLog (P.env c') ++ [(h', P.E_seekTo 0 true); (h', P.E_playVideo)]
       /\ s' = S.updateState (P.clock (P.env c')) P.playing_from_start
                 (P.playerId (P.this c')) s
       /\ (token_empty s \/ S.activePlayerId s = Some (P.playerId (P.this c')) ->
           S.getCurrentState s'
           = {| S.currentTime := 0; S.playerState := 1; S.isPlaying := true;
                S.lastUpdate := P.clock (P.env c') |})
       /\ (forall tok, S.activePlayerId s = Some tok -> tok <> ""%string ->
             tok <> P.playerId (P.this c') -> s' = s).
Proof.
  intros Hm Hp Hr. split; [|split; [|split; [|split; [|split; [|split]]]]];
    try (open_ctx c; run_method; cbn; reflexivity).
  intros c' h' Hp' r' s s'.
  assert (Hs : s' = S.updateState (P.clock (P.env c')) P.playing_from_start
                      (P.playerId (P.this c')) s).
  { unfold s', s, r'. open_ctx c'. run_method. cbn. reflexivity. }
  split; [|split; [|split; [|split]]].
  - unfold r'. open_ctx c'. run_method. cbn. reflexivity.
  - unfold r'. open_ctx c'. run_method. cbn. rewrite <- app_assoc. reflexivity.
  - exact Hs.
  - intros Hok. rewrite Hs, updateState_accepted by (apply refused_false; exact Hok).
    apply playing_from_start_written.
  - intros tok Htok Hne Hother. rewrite Hs. apply updateState_refused, refused_true.
    eauto.
Qed.

(** The three steps of a follower's resume, each on its own. A follower
    whose engine becomes ready while the store holds a positive
    [currentTime] keeps the handle, leaves the store and the engine alone,
    and arms one timeout of 500 ms carrying the stored time. Whenever that
    callback runs, the follower seeks to the stored time, arms a timeout of
    200 ms, and mutes its engine. Whenever the second callback runs, it
    calls play and makes one gated write of [{isPlaying: true}] under its
    own id; the authority slot is the same before and after. *)
Lemma follower_resume_steps (c : P.Ctx) (target : P.EngineRef) :
  P.isMainPlayer (P.this c) = false ->
  (0 < S.currentTime (S.getCurrentState (P.service (P.env c))))%Q ->
  let resumeTime := S.currentTime (S.getCurrentState (P.service (P.env c))) in
  let r := P.onPlayerReady target c in
  (fst r = P.Returned tt
   /\ P.player (P.this (snd r)) = Some target
   /\ P.isPlayerReady (P.this (snd r)) = true
   /\ P.service (P.env (snd r)) = P.service (P.env c)
   /\ P.engineLog (P.env (snd r)) = P.engineLog (P.env c)
   /\ P.timers (P.env (snd r))
      = P.timers (P.env c)
        ++ [{| P.tm_id := P.nextTimer (P.env c); P.tm_owner := P.self c;
               P.tm_due := P.clock (P.env c) + 500; P.tm_period := None;
               P.tm_callback := P.CbRestore resumeTime |}])
  /\ (forall c1,
        P.isMainPlayer (P.this c1) = false -> P.player (P.this c1) = Some target ->
        let r1 := P.run_callback (P.CbRestore resumeTime) c1 in
        fst r1 = P.Returned tt
        /\ P.engineLog (P.env (snd r1))
           = P.engineLog (P.env c1)
             ++ [(target, P.E_seekTo resumeTime true); (target, P.E_mute)]
        /\ P.timers (P.env (snd r1))
           = P.timers (P.env c1)
             ++ [{| P.tm_id := P.nextTimer (P.env c1); P.tm_owner := P.self c1;
                    P.tm_due := P.clock (P.env c1) + 200; P.tm_period := None;
                    P.tm_callback := P.CbEnsurePlaying |}]
        /\ P.service (P.env (snd r1)) = P.service (P.env c1))
  /\ (forall c2,
        P.player (P.this c2) = Some target ->
        let r2 := P.run_callback P.CbEnsurePlaying c2 in
        fst r2 = P.Returned tt
        /\ P.engineLog (P.env (snd r2)) = P.engineLog (P.env c2) ++ [(target, P.E_playVideo)]
        /\ P.service (P.env (snd r2))
           = S.updateState (P.clock (P.env c2)) P.only_playing (P.playerId (P.this c2))
               (P.service (P.env c2))
        /\ S.activePlayerId (P.service (P.env (snd r2)))
           = S.activePlayerId (P.service (P.env c2))).
Proof.
  intros Hf Hpos resumeTime r. apply Qgtb_true in Hpos.
  split; [|split].
  - unfold r, resumeTime in *. destruct c as [i p e]. destruct p. simpl in *. subst.
    run_method. unfold S.getCurrentState in *. cbn -[Qgtb]. rewrite Hpos. cbn.
    repeat split.
  - intros c1 Hf1 Hp1 r1. unfold r1. generalize resumeTime. intros t.
    open_ctx c1. run_method. cbn. rewrite <- app_assoc. repeat split.
  - intros c2 Hp2 r2.
    assert (Hs : P.service (P.env (snd r2))
                 = S.updateState (P.clock (P.env c2)) P.only_playing
                     (P.playerId (P.this c2)) (P.service (P.env c2))).
    { unfold r2. open_ctx c2. run_method. cbn. reflexivity. }
    split; [|split; [|split]].
    + unfold r2. open_ctx c2. run_method. cbn. reflexivity.
    + unfold r2. open_ctx c2. run_method. cbn. reflexivity.
    + exact Hs.
    + rewrite Hs. apply updateState_token.
Qed.

(** One run of the scheduler's callback on a ready surface: it reads the
    engine position and state code, calls play exactly when the code is
    neither 1 nor 0, and then makes one gated write of [{currentTime,
    playerState: code, isPlaying: code = 1}] under the surface's own id. *)
Lemma saveStateTick_runs (c : P.Ctx) (h : P.EngineRef) :
  P.player (P.this c) = Some h ->
  P.isPlayerReady (P.this c) = true ->
  let time := P.engineTime (P.telemetry (P.env c) h) in
  let code := P.engineState (P.telemetry (P.env c) h) in
  let r := P.run_callback P.CbSaveState c in
  let reads := [(h, P.E_getCurrentTime); (h, P.E_getPlayerState)] in
  fst r = P.Returned tt
  /\ (code <> 1 /\ code <> 0 ->
      P.engineLog (P.env (snd r)) = P.engineLog (P.env c) ++ reads ++ [(h, P.E_playVideo)])
  /\ (code = 1 \/ code = 0 ->
      P.engineLog (P.env (snd r)) = P.engineLog (P.env c) ++ reads)
  /\ P.service (P.env (snd r))
     = S.updateState (P.clock (P.env c)) (P.telemetry_update time code)
         (P.playerId (P.this c)) (P.service (P.env c))
  /\ P.this (snd r) = P.this c
  /\ P.timers (P.env (snd r)) = P.timers (P.env c).
Proof.
  intros Hp Hr time code r reads.
  assert (Hplay : forall b, (negb (code =? 1) && negb (code =? 0)) = b ->
            fst r = P.Returned tt
            /\ P.engineLog (P.env (snd r))
               = P.engineLog (P.env c) ++ reads
                 ++ (if b then [(h, P.E_playVideo)] else [])
            /\ P.service (P.env (snd r))
               = S.updateState (P.clock (P.env c)) (P.telemetry_update time code)
                   (P.playerId (P.this c)) (P.service (P.env c))
            /\ P.this (snd r) = P.this c
            /\ P.timers (P.env (snd r)) = P.timers (P.env c)).
  { intros b Hb. unfold r, reads, time, code in *. clear r reads time code.
    open_ctx c. run_method. cbn.
    destruct (negb (P.engineState (P.telemetry e h) =? 1)
              && negb (P.engineState (P.telemetry e h) =? 0)); cbn;
      rewrite <- ?app_assoc; repeat split. }
  destruct (Hplay _ eq_refl) as [H1 [H2 [H3 [H4 H5]]]].
  split; [exact H1|]. split; [|split; [|split; [|split]]].
  - intros [Hn1 Hn0]. rewrite H2.
    apply Z.eqb_neq in Hn1, Hn0. rewrite Hn1, Hn0. reflexivity.
  - intros Hor. rewrite H2.
    destruct Hor as [E|E]; rewrite E; reflexivity.
  - exact H3.
  - exact H4.
  - exact H5.
Qed.

(** The engine's ready event makes a main surface arm the scheduler: an
    interval of 250 ms running [saveStateTick]. *)
Lemma onPlayerReady_arms_scheduler (c : P.Ctx) (target : P.EngineRef) :
  P.isMainPlayer (P.this c) = true ->
  {| P.tm_id := P.nextTimer (P.env c); P.tm_owner := P.self c;
     P.tm_due := P.clock (P.env c) + 250; P.tm_period := Some 250;
     P.tm_callback := P.CbSaveState |}
  ∈ P.timers (P.env (snd (P.onPlayerReady target c))).
Proof.
  intros Hm. open_ctx c. run_method. cbn.
  destruct (truthy_handle saveStateInterval); cbn;
    destruct (Qgtb _ _); cbn;
    rewrite !elem_of_app, !list_elem_of_singleton; auto.
Qed.

(** On a surface whose engine handle is [null], the destruction hook, the
    state-change handler and [syncWith] all return normally, leave the
    store and the instance as they are, and call no method of the engine. *)
Lemma null_engine_methods (c : P.Ctx) (m : P.M unit) :
  P.player (P.this c) = None ->
  m = P.ngOnDestroy
  \/ (exists data, m = P.onStateChange data)
  \/ (exists time state, m = P.syncWith time state) ->
  fst (m c) = P.Returned tt
  /\ P.service (P.env (snd (m c))) = P.service (P.env c)
  /\ P.engineLog (P.env (snd (m c))) = P.engineLog (P.env c)
  /\ P.this (snd (m c)) = P.this c.
Proof.
  intros Hnull [->|[[data ->]|[time [state ->]]]].
  - open_ctx c. run_method. cbn.
    destruct (truthy_handle saveStateInterval); cbn;
      destruct (bool_decide (is_Some videoStateSubscription)); cbn; repeat split.
  - open_ctx c. run_method. cbn. rewrite andb_false_r. cbn. repeat split.
  - open_ctx c. run_method. cbn. repeat split.
Qed.

(** [ngOnDestroy] on any surface that holds a ready engine handle, main
    or follower and whatever the authority slot holds, returns normally
    after exactly one forced write carrying the engine's current time and
    state code. *)
Lemma ngOnDestroy_flushes (c : P.Ctx) (h : P.EngineRef) :
  P.player (P.this c) = Some h ->
  P.isPlayerReady (P.this c) = true ->
  let time := P.engineTime (P.telemetry (P.env c) h) in
  let code := P.engineState (P.telemetry (P.env c) h) in
  let now := P.clock (P.env c) in
  let s := P.service (P.env c) in
  let r := P.ngOnDestroy c in
  let s' := P.service (P.env (snd r)) in
  fst r = P.Returned tt
  /\ s' = S.forceUpdateState now (P.telemetry_flush time code code now) s
  /\ S.getCurrentState s'
     = {| S.currentTime := time; S.playerState := code; S.isPlaying := (code =? 1);
          S.lastUpdate := now |}
  /\ S.emitted (S.videoStateSubject s')
     = S.emitted (S.videoStateSubject s) ++ [S.getCurrentState s']
  /\ S.activePlayerId s' = S.activePlayerId s
  /\ P.engineLog (P.env (snd r))
     = P.engineLog (P.env c)
       ++ [(h, P.E_getCurrentTime); (h, P.E_getPlayerState); (h, P.E_getPlayerState)].
Proof.
  intros Hp Hr time code now s r s'.
  assert (Hs : s' = S.forceUpdateState now (P.telemetry_flush time code code now) s).
  { unfold s', r, s, now, code, time. open_ctx c. run_method. cbn.
    destruct (truthy_handle saveStateInterval); cbn;
      destruct (bool_decide (is_Some videoStateSubscription)); reflexivity. }
  split; [|split; [exact Hs | rewrite Hs; repeat split]].
  - unfold r. open_ctx c. run_method. cbn.
    destruct (truthy_handle saveStateInterval); cbn;
      destruct (bool_decide (is_Some videoStateSubscription)); reflexivity.
  - unfold r. open_ctx c. run_method. cbn.
    destruct (truthy_handle saveStateInterval); cbn;
      destruct (bool_decide (is_Some videoStateSubscription)); cbn;
      rewrite <- !app_assoc; reflexivity.
Qed.

(** * Invariants of the event loop *)

Lemma ngOnInit_keeps_id : keeps_id P.ngOnInit.
Proof. intros c. crush_method c. Qed.

Lemma ngOnDestroy_keeps_id : keeps_id P.ngOnDestroy.
Proof. intros c. crush_method c. Qed.

Lemma onPlayerReady_keeps_id (target : P.EngineRef) : keeps_id (P.onPlayerReady target).
Proof. intros c. crush_method c. Qed.

Lemma onStateChange_keeps_id (data : Z) : keeps_id (P.onStateChange data).
Proof. intros c. crush_method c. Qed.

Lemma syncWith_keeps_id (time : Q) (state : Z) : keeps_id (P.syncWith time state).
Proof. intros c. crush_method c. Qed.

Lemma run_callback_keeps_id (cb : P.Callback) : keeps_id (P.run_callback cb).
Proof. intros c. destruct cb; crush_method c. Qed.

Lemma ngOnInit_token (c : P.Ctx) :
  S.activePlayerId (P.service (P.env (snd (P.ngOnInit c))))
  = if P.isMainPlayer (P.this c) then Some (P.playerId (P.this c))
    else S.activePlayerId (P.service (P.env c)).
Proof. crush_method c. Qed.

Lemma ngOnInit_claims : keeps_or_claims P.ngOnInit.
Proof.
  intros c. rewrite ngOnInit_token. destruct (P.isMainPlayer (P.this c)); auto.
Qed.

Lemma onPlayerReady_claims (target : P.EngineRef) : keeps_or_claims (P.onPlayerReady target).
Proof. intros c. crush_method c. Qed.

Lemma ngOnDestroy_keeps : keeps_or_claims P.ngOnDestroy.
Proof. intros c. left. crush_method c. Qed.

Lemma onStateChange_keeps (data : Z) : keeps_or_claims (P.onStateChange data).
Proof. intros c. left. crush_method c. Qed.

Lemma syncWith_keeps (time : Q) (state : Z) : keeps_or_claims (P.syncWith time state).
Proof. intros c. left. crush_method c. Qed.

Lemma run_callback_keeps (cb : P.Callback) : keeps_or_claims (P.run_callback cb).
Proof. intros c. left. destruct cb; crush_method c. Qed.

Lemma create_id_nonempty (isMain : bool) (rnd : string) (now : Z) :
  P.playerId (P.create isMain rnd now) <> ""%string.
Proof. discriminate. Qed.

Lemma dispatch_ids (i : P.Ref) (m : P.M unit) (w : World) :
  keeps_id m -> ids_nonempty w -> ids_nonempty (snd (dispatch i m w)).
Proof.
  intros Hm Hw. unfold dispatch.
  destruct (surfaces w !! i) as [p|] eqn:E; [|exact Hw].
  unfold ids_nonempty. cbn. apply Forall_insert; [exact Hw|].
  rewrite Hm. cbn. exact (Forall_lookup_1 _ _ _ _ Hw E).
Qed.

Lemma dispatch_token (i : P.Ref) (m : P.M unit) (w : World) :
  keeps_or_claims m -> ids_nonempty w ->
  truthy (token w) = true ->
  truthy (token (snd (dispatch i m w))) = true.
Proof.
  intros Hm Hw Ht. unfold dispatch.
  destruct (surfaces w !! i) as [p|] eqn:E; [|exact Ht].
  unfold token, store. cbn.
  destruct (Hm {| P.self := i; P.this := p; P.env := w_env w |}) as [H|H];
    rewrite H.
  - exact Ht.
  - apply truthy_true. eexists. split; [reflexivity|].
    exact (Forall_lookup_1 _ _ _ _ Hw E).
Qed.

Lemma step_ids (w : World) (ev : Event) :
  ids_nonempty w -> ids_nonempty (step w ev).
Proof.
  intros Hw. unfold step. destruct ev; cbn [handle].
  - exact Hw.
  - unfold ids_nonempty. cbn. apply Forall_app. split; [exact Hw|].
    apply Forall_singleton, create_id_nonempty.
  - apply dispatch_ids; [apply ngOnInit_keeps_id | exact Hw].
  - apply dispatch_ids; [apply ngOnDestroy_keeps_id | exact Hw].
  - apply dispatch_ids; [apply onPlayerReady_keeps_id | exact Hw].
  - apply dispatch_ids; [apply onStateChange_keeps_id | exact Hw].
  - apply dispatch_ids; [apply syncWith_keeps_id | exact Hw].
  - unfold fire.
    destruct (List.find _ _) as [tm|]; [|exact Hw].
    destruct (P.tm_due tm <=? _); [|exact Hw].
    apply dispatch_ids; [apply run_callback_keeps_id | exact Hw].
  - exact Hw.
  - exact Hw.
Qed.

Lemma run_ids (evs : list Event) (w : World) :
  ids_nonempty w -> ids_nonempty (run evs w).
Proof.
  revert w. induction evs as [|ev evs IH]; intros w Hw; cbn.
  - exact Hw.
  - apply IH, step_ids, Hw.
Qed.

Lemma boot_ids (cfg : S.VideoConfig) (now : Z) : ids_nonempty (boot cfg now).
Proof. apply Forall_nil_2. Qed.

Lemma step_token (w : World) (ev : Event) :
  ids_nonempty w -> producer_ids_only ev = true ->
  truthy (token w) = true ->
  truthy (token (step w ev)) = true.
Proof.
  intros Hw Hev Ht. unfold step. destruct ev; cbn [handle].
  - exact Ht.
  - exact Ht.
  - apply dispatch_token; [apply ngOnInit_claims | exact Hw | exact Ht].
  - apply dispatch_token; [apply ngOnDestroy_keeps | exact Hw | exact Ht].
  - apply dispatch_token; [apply onPlayerReady_claims | exact Hw | exact Ht].
  - apply dispatch_token; [apply onStateChange_keeps | exact Hw | exact Ht].
  - apply dispatch_token; [apply syncWith_keeps | exact Hw | exact Ht].
  - unfold fire.
    destruct (List.find _ _) as [tm|]; [|exact Ht].
    destruct (P.tm_due tm <=? _); [|exact Ht].
    apply dispatch_token; [apply run_callback_keeps | exact Hw | exact Ht].
  - exact Ht.
  - unfold token, store in *. cbn.
    destruct (S.is_SetActivePlayer c) eqn:Hc.
    + destruct c; try discriminate. cbn in *. exact Hev.
    + rewrite call_token by exact Hc. exact Ht.
Qed.

Lemma run_token (evs : list Event) (w : World) :
  ids_nonempty w -> forallb producer_ids_only evs = true ->
  truthy (token w) = true ->
  truthy (token (run evs w)) = true.
Proof.
  revert w. induction evs as [|ev evs IH]; intros w Hw Hevs Ht; cbn in *.
  - exact Ht.
  - apply andb_true_iff in Hevs as [Hev Hevs].
    apply IH; [apply step_ids, Hw | exact Hevs | apply step_token; assumption].
Qed.

Lemma only_token_accepted (s : S.t) (tok : string) :
  S.activePlayerId s = Some tok -> tok <> ""%string ->
  forall now state id, id <> tok -> S.updateState now state id s = s.
Proof.
  intros Htok Hne now state id Hid. apply updateState_refused, refused_true.
  exists tok. auto.
Qed.

(** C9, as the code has it. No method of the store other than
    [setActivePlayer] touches the authority slot, and no surface ever hands
    it anything but its own non-empty id. So in any state reached by the
    application, once the slot holds a non-empty id it holds a non-empty id
    after any further events (lifecycle hooks, engine events, timers,
    elapsing time, and direct store calls) as long as no direct call of
    [setActivePlayer] is given the empty string, and every gated write
    under another id than the one in the slot then leaves the store as it
    is. [ngOnInit] of a main surface puts its own non-empty id in the slot,
    so all of this holds from the first main surface on. The condition on
    direct calls cannot be dropped: [setActivePlayer] itself empties the
    slot when given the empty string, see the counterexample below. *)
Theorem token_never_cleared (cfg : S.VideoConfig) (t0 : Z)
    (evs1 evs2 : list Event) :
  forallb producer_ids_only evs2 = true ->
  let w1 := run evs1 (boot cfg t0) in
  (forall now c s, S.is_SetActivePlayer c = false ->
     S.activePlayerId (S.call now c s) = S.activePlayerId s)
  /\ ((exists tok0, token w1 = Some tok0 /\ producer_id tok0) ->
      exists tok, token (run evs2 w1) = Some tok
        /\ tok <> ""%string
        /\ forall now state id, id <> tok ->
             S.updateState now state id (store (run evs2 w1))
             = store (run evs2 w1))
  /\ (forall i p, surfaces w1 !! i = Some p -> P.isMainPlayer p = true ->
      let w2 := run evs2 (step w1 (NgOnInit i)) in
      token (step w1 (NgOnInit i)) = Some (P.playerId p)
      /\ P.playerId p <> ""%string
      /\ exists tok, token w2 = Some tok
           /\ tok <> ""%string
           /\ forall now state id, id <> tok ->
                S.updateState now state id (store w2) = store w2).
Proof.
  intros Hevs w1.
  assert (Hw1 : ids_nonempty w1) by apply run_ids, boot_ids.
  assert (Hrun : forall w, ids_nonempty w -> truthy (token w) = true ->
            exists tok, token (run evs2 w) = Some tok
              /\ tok <> ""%string
              /\ forall now state id, id <> tok ->
                   S.updateState now state id (store (run evs2 w))
                   = store (run evs2 w)).
  { intros w Hw Ht.
    destruct (proj1 (truthy_true _) (run_token evs2 w Hw Hevs Ht)) as [tok [Htok Hne]].
    exists tok. split; [exact Htok | split; [exact Hne|]].
    apply only_token_accepted; assumption. }
  split; [|split].
  - intros now c s Hc. apply call_token, Hc.
  - intros Ht. apply Hrun; [exact Hw1 | apply truthy_true; exact Ht].
  - intros i p Hp Hmain w2.
    assert (Hid : P.playerId p <> ""%string) by exact (Forall_lookup_1 _ _ _ _ Hw1 Hp).
    assert (Htok : token (step w1 (NgOnInit i))
                   = Some (P.playerId p)).
    { unfold step, token, store. cbn [handle].
      unfold dispatch. rewrite Hp. cbn [snd w_env].
      rewrite ngOnInit_token. cbn [P.this]. rewrite Hmain. reflexivity. }
    split; [exact Htok | split; [exact Hid|]].
    apply Hrun; [apply step_ids, Hw1|].
    rewrite Htok. apply truthy_true. eauto.
Qed.

Lemma token_never_cleared_witness :
  let w1 := run [New true "abc"] (boot S.repoVideoConfig 1000) in
  let w2 := run busy_trace (step w1 (NgOnInit 0%nat)) in
  token (step w1 (NgOnInit 0%nat))
  = Some (P.playerId (P.create true "abc" 1000))
  /\ token w2 = Some "player_xyz_1000"%string
  /\ S.updateState 5000 first_write "player_abc_1000" (store w2)
     = store w2.
Proof.
  intros w1 w2.
  destruct (token_never_cleared S.repoVideoConfig 1000 [New true "abc"]
              busy_trace eq_refl) as [_ [_ H]].
  destruct (H 0%nat (P.create true "abc" 1000) eq_refl eq_refl)
    as [Hinit [_ [tok [Htok [_ Hgate]]]]].
  fold w1 in Hinit, Htok, Hgate. fold w2 in Htok, Hgate.
  assert (Hxyz : token w2 = Some "player_xyz_1000"%string)
    by (vm_compute; reflexivity).
  split; [exact Hinit | split; [exact Hxyz|]].
  apply Hgate. intros E. rewrite <- E, Hxyz in Htok. discriminate Htok.
Defined.

(** C9 as the specification words it fails: an operation of the store
    does clear the slot. The main surface is constructed, initialised and
    ready, and holds the slot; [setActivePlayer] is then called with the
    empty string. The slot holds the empty string, the gate reads it as no
    holder, and a gated write under an id that never held the slot goes
    through and is published. *)
Lemma token_never_cleared_counterexample :
  token main_ready = Some "player_abc_1000"%string
  /\ token slot_emptied = Some ""%string
  /\ token_empty (store slot_emptied)
  /\ S.refused (store slot_emptied) "intruder" = false
  /\ S.updateState 5000 first_write "intruder" (store slot_emptied)
     = written 5000 first_write (store slot_emptied)
  /\ S.currentTime (S.getCurrentState (store slot_emptied)) = 0%Q
  /\ S.currentTime
       (S.getCurrentState
          (S.updateState 5000 first_write "intruder" (store slot_emptied))) = 5%Q.
Proof.
  split; [vm_compute; reflexivity|]. split; [vm_compute; reflexivity|].
  split; [right; vm_compute; reflexivity|]. split; [vm_compute; reflexivity|].
  split; [vm_compute; reflexivity|]. split; vm_compute; reflexivity.
Qed.

(** * Timers *)

Lemma drop_timer_below (n id : nat) (l : list P.Timer) :
  Forall (fun tm => (P.tm_id tm < n)%nat) l ->
  Forall (fun tm => (P.tm_id tm < n)%nat) (P.drop_timer id l).
Proof.
  intros H. apply List.Forall_forall. intros tm Hin.
  apply List.filter_In in Hin as [Hin _].
  exact (proj1 (List.Forall_forall _ _) H tm Hin).
Qed.

Lemma rearm_below (n id : nat) (k : Z) (l : list P.Timer) :
  Forall (fun tm => (P.tm_id tm < n)%nat) l ->
  Forall (fun tm => (P.tm_id tm < n)%nat) (List.map (rearm k id) l).
Proof.
  induction 1 as [|x l Hx Hl IH]; cbn; constructor; [|exact IH].
  unfold rearm. destruct (Nat.eqb (P.tm_id x) id); exact Hx.
Qed.

Lemma below_S (n : nat) (l : list P.Timer) :
  Forall (fun tm => (P.tm_id tm < n)%nat) l ->
  Forall (fun tm => (P.tm_id tm < S n)%nat) l.
Proof. intros H. eapply Forall_impl; [exact H|]. cbn. intros. lia. Qed.

Ltac fresh_solve :=
  repeat first
    [ assumption
    | apply Forall_app_2
    | apply Forall_cons_2
    | apply Forall_nil_2
    | apply drop_timer_below
    | apply below_S
    | (cbn; lia) ].

Ltac crush_fresh c :=
  intros c; unfold fresh_env; intros Hfresh;
  open_ctx c; run_method; unfold P.setupPlayerConfig; cbn in *;
  repeat split_branch; fresh_solve.

Lemma ngOnInit_keeps_fresh : keeps_fresh P.ngOnInit.
Proof. crush_fresh c. Qed.

Lemma ngOnDestroy_keeps_fresh : keeps_fresh P.ngOnDestroy.
Proof. crush_fresh c. Qed.

Lemma onPlayerReady_keeps_fresh (target : P.EngineRef) : keeps_fresh (P.onPlayerReady target).
Proof. crush_fresh c. Qed.

Lemma onStateChange_keeps_fresh (data : Z) : keeps_fresh (P.onStateChange data).
Proof. crush_fresh c. Qed.

Lemma syncWith_keeps_fresh (time : Q) (state : Z) : keeps_fresh (P.syncWith time state).
Proof. crush_fresh c. Qed.

Lemma run_callback_keeps_fresh (cb : P.Callback) : keeps_fresh (P.run_callback cb).
Proof. destruct cb; crush_fresh c. Qed.

Lemma dispatch_fresh (i : P.Ref) (m : P.M unit) (w : World) :
  keeps_fresh m -> timers_fresh w -> timers_fresh (snd (dispatch i m w)).
Proof.
  intros Hm Hw. unfold dispatch.
  destruct (surfaces w !! i) as [p|]; [|exact Hw].
  unfold timers_fresh. cbn. apply Hm. exact Hw.
Qed.

Lemma step_fresh (w : World) (ev : Event) :
  timers_fresh w -> timers_fresh (step w ev).
Proof.
  intros Hw. unfold step. destruct ev; cbn [handle].
  - exact Hw.
  - exact Hw.
  - apply dispatch_fresh; [apply ngOnInit_keeps_fresh | exact Hw].
  - apply dispatch_fresh; [apply ngOnDestroy_keeps_fresh | exact Hw].
  - apply dispatch_fresh; [apply onPlayerReady_keeps_fresh | exact Hw].
  - apply dispatch_fresh; [apply onStateChange_keeps_fresh | exact Hw].
  - apply dispatch_fresh; [apply syncWith_keeps_fresh | exact Hw].
  - unfold fire.
    destruct (List.find _ _) as [tm|]; [|exact Hw].
    destruct (P.tm_due tm <=? _); [|exact Hw].
    apply dispatch_fresh; [apply run_callback_keeps_fresh|].
    unfold timers_fresh, fresh_env in *. cbn.
    destruct (P.tm_period tm); [apply rearm_below | apply drop_timer_below]; exact Hw.
  - exact Hw.
  - exact Hw.
Qed.

Lemma run_fresh (evs : list Event) (w : World) :
  timers_fresh w -> timers_fresh (run evs w).
Proof.
  revert w. induction evs as [|ev evs IH]; intros w Hw; cbn; [exact Hw|].
  apply IH, step_fresh, Hw.
Qed.

(** Every state the application reaches has fresh timer handles. *)
Lemma reachable_fresh (cfg : S.VideoConfig) (t0 : Z) (evs : list Event) :
  timers_fresh (run evs (boot cfg t0)).
Proof. apply run_fresh. apply Forall_nil_2. Qed.

Lemma fresh_other (n : nat) (l : list P.Timer) :
  Forall (fun tm => (P.tm_id tm < n)%nat) l -> Forall (other_id n) l.
Proof.
  intros H. eapply Forall_impl; [exact H|]. intros tm Htm. unfold other_id.
  cbn in Htm. lia.
Qed.


Lemma find_fresh (l more : list P.Timer) (tm : P.Timer) (n : nat) :
  P.tm_id tm = n -> Forall (other_id n) l ->
  List.find (fun tm' => Nat.eqb (P.tm_id tm') n) (l ++ tm :: more) = Some tm.
Proof.
  intros <-. induction 1 as [|x l Hx Hl IH]; cbn.
  - rewrite Nat.eqb_refl. reflexivity.
  - apply Nat.eqb_neq in Hx. rewrite Hx. exact IH.
Qed.

Lemma drop_timer_other (l : list P.Timer) (n : nat) :
  Forall (other_id n) l -> P.drop_timer n l = l.
Proof.
  induction 1 as [|x l Hx Hl IH]; cbn.
  - reflexivity.
  - apply Nat.eqb_neq in Hx. rewrite Hx. cbn. unfold P.drop_timer in IH.
    rewrite IH. reflexivity.
Qed.

Lemma drop_timer_last (l : list P.Timer) (tm : P.Timer) (n : nat) :
  P.tm_id tm = n -> Forall (other_id n) l -> P.drop_timer n (l ++ [tm]) = l.
Proof.
  intros Hid Hl. unfold P.drop_timer. rewrite List.filter_app. cbn.
  rewrite Hid, Nat.eqb_refl. cbn. rewrite app_nil_r. apply drop_timer_other, Hl.
Qed.

(** A pending timeout runs its callback on its owner once it is due, and
    is then forgotten; asked to run earlier, it does nothing. *)
Lemma fire_timeout (w : World) (l more : list P.Timer) (tm : P.Timer) :
  P.timers (w_env w) = l ++ tm :: more ->
  Forall (other_id (P.tm_id tm)) (l ++ more) ->
  P.tm_period tm = None ->
  (P.tm_due tm <= clock_of w ->
   fire (P.tm_id tm) w
   = dispatch (P.tm_owner tm) (P.run_callback (P.tm_callback tm))
       {| w_env :=
            P.with_timers (l ++ more) (P.nextTimer (w_env w)) (w_env w);
          surfaces := surfaces w |})
  /\ (clock_of w < P.tm_due tm -> fire (P.tm_id tm) w = (P.Returned tt, w)).
Proof.
  intros Ht Hl Hper. apply Forall_app in Hl as [Hl Hm].
  unfold fire, clock_of. rewrite Ht, (find_fresh l more tm) by auto.
  split; intros Hdue.
  - apply Z.leb_le in Hdue. rewrite Hdue, Hper.
    unfold P.drop_timer. rewrite List.filter_app. cbn. rewrite Nat.eqb_refl. cbn.
    fold (P.drop_timer (P.tm_id tm) l). fold (P.drop_timer (P.tm_id tm) more).
    rewrite !drop_timer_other by assumption. reflexivity.
  - apply Z.leb_gt in Hdue. rewrite Hdue. reflexivity.
Qed.

(** * A follower joins, a loop restarts *)



(** C5, as the code has it. In a state the application has reached, when
    the engine of a ready main surface reports ENDED, the handler reads the
    engine position and arms a timer, without writing to the store or
    emitting [stateChange]. The timer does
    nothing before 100 ms have passed; run after that, it makes the surface
    seek to 0, call play, and make one gated write of [{currentTime: 0,
    isPlaying: true, playerState: 1}] under its own id. The store shows
    these values when the authority slot is empty or holds this surface's
    id; it is left as it was when the slot holds another id. *)
Theorem ended_recovery (cfg : S.VideoConfig) (t0 : Z) (evs : list Event)
    (i : P.Ref) (p : P.t) (h : P.EngineRef) (d : Z) :
  let w := run evs (boot cfg t0) in
  surfaces w !! i = Some p ->
  P.isMainPlayer p = true -> P.player p = Some h -> P.isPlayerReady p = true ->
  100 <= d ->
  let n := P.nextTimer (w_env w) in
  let w1 := step w (StateChange i 0) in
  let w2 := run [Elapse d; Fire n] w1 in
  (engineLog w1 = engineLog w ++ [(h, P.E_getCurrentTime)]
   /\ store w1 = store w
   /\ P.outputs (w_env w1) = P.outputs (w_env w))
  /\ (forall d', 0 <= d' < 100 ->
        step (step w1 (Elapse d')) (Fire n) = step w1 (Elapse d'))
  /\ engineLog w2 = engineLog w1 ++ [(h, P.E_seekTo 0 true); (h, P.E_playVideo)]
  /\ store w2
     = S.updateState (clock_of w + d) P.playing_from_start (P.playerId p) (store w)
  /\ (token_empty (store w) \/ token w = Some (P.playerId p) ->
      snapshot w2
      = {| S.currentTime := 0; S.playerState := 1; S.isPlaying := true;
           S.lastUpdate := clock_of w + d |})
  /\ (forall tok, token w = Some tok -> tok <> ""%string ->
        tok <> P.playerId p -> store w2 = store w).
Proof.
  intros w.
  assert (Hfresh : timers_fresh w) by apply reachable_fresh.
  clearbody w. intros Hp Hm Hh Hr Hd n w1 w2.
  assert (Hi : (i < length (surfaces w))%nat) by (eapply lookup_lt_Some; eauto).
  assert (Hstore : store w2
                   = S.updateState (clock_of w + d) P.playing_from_start (P.playerId p)
                       (store w)
                   /\ engineLog w1 = engineLog w ++ [(h, P.E_getCurrentTime)]
                   /\ store w1 = store w
                   /\ P.outputs (w_env w1) = P.outputs (w_env w)
                   /\ engineLog w2 = engineLog w1 ++ [(h, P.E_seekTo 0 true); (h, P.E_playVideo)]
                   /\ (forall d', 0 <= d' < 100 ->
                         step (step w1 (Elapse d')) (Fire n) = step w1 (Elapse d'))).
  { unfold engineLog, clock_of, store, timers_fresh, fresh_env in *.
    destruct w as [[k sv tl lg tms nt outs] surf]. destruct p.
    cbn in Hp, Hm, Hh, Hr, Hi, Hfresh, n. subst.
    pose proof (fresh_other _ _ Hfresh) as Hother.
    eassert (E1 : w1 = _).
    { unfold w1, step. cbn [handle]. unfold dispatch.
      cbn [surfaces w_env]. rewrite Hp.
      run_method. cbn. reflexivity. }
    eassert (E2 : w2 = _).
    { unfold w2, run, step, n. cbn [fold_left handle].
      rewrite E1. unfold fire. cbn -[P.drop_timer].
      erewrite find_fresh; [|reflexivity|exact Hother]. cbn -[P.drop_timer].
      rewrite (proj2 (Z.leb_le _ _)) by lia.
      rewrite drop_timer_last by (reflexivity || exact Hother).
      unfold dispatch. cbn. rewrite list_lookup_insert_eq by exact Hi.
      run_method. cbn. rewrite list_insert_insert_eq. reflexivity. }
    split; [|split; [|split; [|split; [|split]]]].
    - rewrite E2. cbn. f_equal. lia.
    - rewrite E1. reflexivity.
    - rewrite E1. reflexivity.
    - rewrite E1. reflexivity.
    - rewrite E2, E1. cbn. rewrite <- app_assoc. reflexivity.
    - intros d' Hd'. unfold step, n. cbn [handle snd].
      rewrite E1. unfold fire. cbn.
      erewrite find_fresh; [|reflexivity|exact Hother]. cbn.
      rewrite (proj2 (Z.leb_gt _ _)) by lia. reflexivity. }
  destruct Hstore as [Hs [Hl1 [Hs1 [Ho1 [Hl2 Hearly]]]]].
  split; [auto|]. split; [exact Hearly|]. split; [exact Hl2|]. split; [exact Hs|].
  split.
  - intros Hok. unfold snapshot. rewrite Hs.
    rewrite updateState_accepted by (apply refused_false; exact Hok).
    apply playing_from_start_written.
  - intros tok Htok Hne Hother. rewrite Hs.
    apply updateState_refused, refused_true. eauto.
Qed.

Lemma ended_recovery_witness :
  let w1 := step main_ready (StateChange 0%nat 0) in
  let w2 := run [Elapse 100; Fire 3%nat] w1 in
  engineLog w2 = engineLog w1 ++ [(0%nat, P.E_seekTo 0 true); (0%nat, P.E_playVideo)]
  /\ snapshot w2
     = {| S.currentTime := 0; S.playerState := 1; S.isPlaying := true;
          S.lastUpdate := 1100 |}.
Proof.
  intros w1 w2.
  destruct (ended_recovery S.repoVideoConfig 1000 main_trace 0%nat
              (P.this (ctx_at 0%nat main_ready)) 0%nat 100)
    as [_ [_ [Hl [_ [Hok _]]]]];
    [vm_compute; reflexivity | vm_compute; reflexivity | vm_compute; reflexivity
    | vm_compute; reflexivity | lia |].
  split.
  - vm_compute in Hl |- *. exact Hl.
  - assert (Hmine : token_empty (store main_ready)
                    \/ token main_ready = Some "player_abc_1000"%string)
      by (right; vm_compute; reflexivity).
    specialize (Hok Hmine). vm_compute in Hok |- *. exact Hok.
Defined.

(** C5, as stated, fails: a second main surface has taken the authority
    slot while the first one is still alive and ready; the engine of the
    first one reports ENDED and its recovery timer runs after 100 ms; the
    first surface seeks to 0 and plays, but the store still shows the
    initial state, not playing. *)
Lemma ended_recovery_counterexample :
  (exists p, surfaces two_mains !! 0%nat = Some p
             /\ P.isMainPlayer p = true /\ P.player p = Some 0%nat
             /\ P.isPlayerReady p = true)
  /\ P.engineLog (w_env recovered_on_first)
     = P.engineLog (w_env ended_on_first)
       ++ [(0%nat, P.E_seekTo 0 true); (0%nat, P.E_playVideo)]
  /\ snapshot recovered_on_first
     = {| S.currentTime := 0; S.playerState := -1; S.isPlaying := false;
          S.lastUpdate := 1000 |}
  /\ S.isPlaying (snapshot recovered_on_first) <> true.
Proof.
  split; [|split; [|split]].
  - eexists. split; [reflexivity|]. repeat split.
  - reflexivity.
  - reflexivity.
  - vm_compute. discriminate.
Qed.

(** * The scheduler *)

Lemma dispatch_some (i : P.Ref) (m : P.M unit) (w : World) (p : P.t) :
  surfaces w !! i = Some p ->
  let r := m {| P.self := i; P.this := p; P.env := w_env w |} in
  dispatch i m w
  = (fst r,
     {| w_env := P.env (snd r);
        surfaces := <[i := P.this (snd r)]> (surfaces w) |}).
Proof. intros Hp r. unfold dispatch. rewrite Hp. reflexivity. Qed.

Lemma find_rearm (k : Z) (id : nat) (l : list P.Timer) (tm : P.Timer) :
  List.find (fun tm' => Nat.eqb (P.tm_id tm') id) l = Some tm ->
  List.find (fun tm' => Nat.eqb (P.tm_id tm') id) (List.map (rearm k id) l)
  = Some {| P.tm_id := P.tm_id tm; P.tm_owner := P.tm_owner tm;
            P.tm_due := k + default 0 (P.tm_period tm);
            P.tm_period := P.tm_period tm; P.tm_callback := P.tm_callback tm |}.
Proof.
  induction l as [|x l IH]; cbn; [discriminate|].
  assert (Hid : P.tm_id (rearm k id x) = P.tm_id x)
    by (unfold rearm; destruct (Nat.eqb (P.tm_id x) id); reflexivity).
  rewrite Hid. destruct (Nat.eqb (P.tm_id x) id) eqn:E.
  - intros H. injection H as <-. unfold rearm. rewrite E. reflexivity.
  - exact IH.
Qed.

(** C7. On a ready surface whose scheduler timer (an interval of 250 ms
    running [saveStateTick]) is pending and due, one turn of the timer
    returns normally; it reads the engine position and state code, calls
    play exactly when the code is neither 1 nor 0, and makes one gated
    write of [{currentTime, playerState: code, isPlaying: code = 1}] under
    the surface's own id; the timer is pending again, due 250 ms later. It
    is the engine's ready event that arms this timer on a main surface. *)
Theorem scheduler_tick (w : World) (i : P.Ref) (p : P.t) (h : P.EngineRef)
    (id : nat) (tm : P.Timer) :
  surfaces w !! i = Some p ->
  P.player p = Some h -> P.isPlayerReady p = true ->
  List.find (fun tm' => Nat.eqb (P.tm_id tm') id) (P.timers (w_env w)) = Some tm ->
  P.tm_owner tm = i -> P.tm_callback tm = P.CbSaveState -> P.tm_period tm = Some 250 ->
  P.tm_due tm <= clock_of w ->
  let time := P.engineTime (P.telemetry (w_env w) h) in
  let code := P.engineState (P.telemetry (w_env w) h) in
  let reads := [(h, P.E_getCurrentTime); (h, P.E_getPlayerState)] in
  let w' := step w (Fire id) in
  fst (handle (Fire id) w) = P.Returned tt
  /\ (code <> 1 /\ code <> 0 -> engineLog w' = engineLog w ++ reads ++ [(h, P.E_playVideo)])
  /\ (code = 1 \/ code = 0 -> engineLog w' = engineLog w ++ reads)
  /\ store w'
     = S.updateState (clock_of w)
         {| S.p_currentTime := Some time; S.p_playerState := Some code;
            S.p_isPlaying := Some (code =? 1); S.p_lastUpdate := None |}
         (P.playerId p) (store w)
  /\ List.find (fun tm' => Nat.eqb (P.tm_id tm') id) (P.timers (w_env w'))
     = Some {| P.tm_id := P.tm_id tm; P.tm_owner := i; P.tm_due := clock_of w + 250;
               P.tm_period := Some 250; P.tm_callback := P.CbSaveState |}
  /\ forall w0 i0 p0 target,
       surfaces w0 !! i0 = Some p0 -> P.isMainPlayer p0 = true ->
       {| P.tm_id := P.nextTimer (w_env w0); P.tm_owner := i0;
          P.tm_due := clock_of w0 + 250; P.tm_period := Some 250;
          P.tm_callback := P.CbSaveState |}
       ∈ P.timers (w_env (step w0 (PlayerReady i0 target))).
Proof.
  intros Hp Hh Hr Hfind Hown Hcb Hper Hdue time code reads w'.
  set (pending := List.map (rearm (clock_of w) id) (P.timers (w_env w))).
  set (w1 := {| w_env :=
                  P.with_timers pending (P.nextTimer (w_env w)) (w_env w);
                surfaces := surfaces w |}).
  assert (Hfire : handle (Fire id) w
                  = dispatch i (P.run_callback P.CbSaveState) w1).
  { cbn [handle]. unfold fire. rewrite Hfind.
    apply Z.leb_le in Hdue. unfold clock_of in Hdue. rewrite Hdue, Hper, Hown, Hcb.
    reflexivity. }
  destruct (saveStateTick_runs {| P.self := i; P.this := p; P.env := w_env w1 |} h
              Hh Hr) as [H1 [H2 [H3 [H4 [_ H6]]]]].
  assert (Hw' : w' = snd (dispatch i (P.run_callback P.CbSaveState) w1))
    by (unfold w', step; rewrite Hfire; reflexivity).
  rewrite (dispatch_some i _ w1 p Hp) in Hfire, Hw'. cbn [fst snd] in Hfire, Hw'.
  split; [rewrite Hfire; exact H1|].
  split; [intros Hc; rewrite Hw'; exact (H2 Hc)|].
  split; [intros Hc; rewrite Hw'; exact (H3 Hc)|].
  split; [rewrite Hw'; exact H4|].
  split.
  - rewrite Hw'. cbn [w_env]. rewrite H6. cbn [P.env w_env w1 P.timers P.with_timers].
    unfold pending. rewrite (find_rearm _ _ _ _ Hfind), Hown, Hcb, Hper. reflexivity.
  - intros w0 i0 p0 target Hp0 Hm0. unfold step. cbn [handle].
    rewrite (dispatch_some i0 _ w0 p0 Hp0). cbn [snd w_env].
    apply (onPlayerReady_arms_scheduler
             {| P.self := i0; P.this := p0; P.env := w_env w0 |} target Hm0).
Qed.

Lemma scheduler_tick_witness :
  engineLog (step main_paused (Fire 1%nat))
  = engineLog main_paused
    ++ [(0%nat, P.E_getCurrentTime); (0%nat, P.E_getPlayerState)] ++ [(0%nat, P.E_playVideo)]
  /\ snapshot (step main_paused (Fire 1%nat))
     = {| S.currentTime := 121; S.playerState := 2; S.isPlaying := false;
          S.lastUpdate := 2500 |}.
Proof.
  destruct (scheduler_tick main_paused 0%nat (P.this (ctx_at 0%nat main_paused)) 0%nat 1%nat
              {| P.tm_id := 1; P.tm_owner := 0%nat; P.tm_due := 2500;
                 P.tm_period := Some 250; P.tm_callback := P.CbSaveState |})
    as [_ [Hplay [_ [Hs _]]]];
    [vm_compute; reflexivity | vm_compute; reflexivity | vm_compute; reflexivity
    | vm_compute; reflexivity | reflexivity | reflexivity | reflexivity
    | vm_compute; discriminate |].
  split.
  - assert (Hcode : P.engineState (P.telemetry (w_env main_paused) 0%nat) <> 1
                    /\ P.engineState (P.telemetry (w_env main_paused) 0%nat) <> 0)
      by (split; vm_compute; discriminate).
    specialize (Hplay Hcode). vm_compute in Hplay |- *. exact Hplay.
  - apply (f_equal S.getCurrentState) in Hs. vm_compute in Hs |- *. exact Hs.
Defined.

(** * A surface whose engine never becomes ready *)

Lemma drop_timer_Forall (R : P.Timer -> Prop) (id : nat) (l : list P.Timer) :
  Forall R l -> Forall R (P.drop_timer id l).
Proof.
  intros H. apply List.Forall_forall. intros tm Hin.
  apply List.filter_In in Hin as [Hin _].
  exact (proj1 (List.Forall_forall _ _) H tm Hin).
Qed.

Lemma rearm_owners (i : P.Ref) (k : Z) (id : nat) (l : list P.Timer) :
  owned_by_others i l -> owned_by_others i (List.map (rearm k id) l).
Proof.
  induction 1 as [|x l Hx Hl IH]; cbn; constructor; [|exact IH].
  unfold rearm. destruct (Nat.eqb (P.tm_id x) id); exact Hx.
Qed.

Ltac owner_solve :=
  repeat first
    [ assumption
    | apply Forall_app_2
    | apply Forall_cons_2
    | apply Forall_nil_2
    | apply drop_timer_Forall
    | (cbn; congruence) ].

Ltac crush_owner :=
  let c := fresh "c" in
  let i := fresh "i" in
  intros c i ? ?; unfold owned_by_others in *;
  open_ctx c; run_method; unfold P.setupPlayerConfig; cbn in *;
  repeat split_branch; owner_solve.

Lemma ngOnInit_arms_own : arms_own P.ngOnInit.
Proof. crush_owner. Qed.

Lemma ngOnDestroy_arms_own : arms_own P.ngOnDestroy.
Proof. crush_owner. Qed.

Lemma onPlayerReady_arms_own (target : P.EngineRef) : arms_own (P.onPlayerReady target).
Proof. crush_owner. Qed.

Lemma onStateChange_arms_own (data : Z) : arms_own (P.onStateChange data).
Proof. crush_owner. Qed.

Lemma syncWith_arms_own (time : Q) (state : Z) : arms_own (P.syncWith time state).
Proof. crush_owner. Qed.

Lemma run_callback_arms_own (cb : P.Callback) : arms_own (P.run_callback cb).
Proof. destruct cb; crush_owner. Qed.

Lemma ngOnInit_null : arms_none_when_null P.ngOnInit.
Proof. crush_owner. Qed.

Lemma ngOnDestroy_null : arms_none_when_null P.ngOnDestroy.
Proof. crush_owner. Qed.

Lemma onStateChange_null (data : Z) : arms_none_when_null (P.onStateChange data).
Proof. crush_owner. Qed.

Lemma syncWith_null (time : Q) (state : Z) : arms_none_when_null (P.syncWith time state).
Proof. crush_owner. Qed.

Lemma ngOnInit_keeps_player : keeps_player P.ngOnInit.
Proof. intros c. crush_method c. Qed.

Lemma ngOnDestroy_keeps_player : keeps_player P.ngOnDestroy.
Proof. intros c. crush_method c. Qed.

Lemma onStateChange_keeps_player (data : Z) : keeps_player (P.onStateChange data).
Proof. intros c. crush_method c. Qed.

Lemma syncWith_keeps_player (time : Q) (state : Z) : keeps_player (P.syncWith time state).
Proof. intros c. crush_method c. Qed.

Lemma dispatch_never_ready (i j : P.Ref) (m : P.M unit) (w : World) :
  arms_own m ->
  (j = i -> keeps_player m /\ arms_none_when_null m) ->
  never_ready i w -> never_ready i (snd (dispatch j m w)).
Proof.
  intros Hown Hsame [Hnull Htm]. unfold dispatch.
  destruct (surfaces w !! j) as [p|] eqn:Hp; [|split; assumption].
  cbn [snd]. split; cbn [surfaces w_env].
  - intros q Hq. destruct (decide (j = i)) as [->|Hne].
    + rewrite list_lookup_insert_eq in Hq by (eapply lookup_lt_Some; eauto).
      injection Hq as <-. destruct (Hsame eq_refl) as [Hk _].
      rewrite Hk. cbn. apply Hnull, Hp.
    + rewrite list_lookup_insert_ne in Hq by exact Hne. apply Hnull, Hq.
  - destruct (decide (j = i)) as [->|Hne].
    + destruct (Hsame eq_refl) as [_ Hn]. apply Hn; [cbn; apply Hnull, Hp | exact Htm].
    + apply Hown; [exact Hne | exact Htm].
Qed.

Lemma step_never_ready (i : P.Ref) (w : World) (ev : Event) :
  is_PlayerReady i ev = false -> never_ready i w -> never_ready i (step w ev).
Proof.
  intros Hev Hw. unfold step. destruct ev; cbn [handle].
  - exact Hw.
  - destruct Hw as [Hnull Htm]. split; [|exact Htm]. cbn [snd surfaces].
    intros q Hq. apply lookup_app_Some in Hq as [Hq|[_ Hq]]; [apply Hnull, Hq|].
    apply list_lookup_singleton_Some in Hq as [_ <-]. reflexivity.
  - apply dispatch_never_ready;
      [apply ngOnInit_arms_own
      | intros _; split; [apply ngOnInit_keeps_player | apply ngOnInit_null] | exact Hw].
  - apply dispatch_never_ready;
      [apply ngOnDestroy_arms_own
      | intros _; split; [apply ngOnDestroy_keeps_player | apply ngOnDestroy_null]
      | exact Hw].
  - apply dispatch_never_ready; [apply onPlayerReady_arms_own | | exact Hw].
    intros ->. cbn in Hev. rewrite Nat.eqb_refl in Hev. discriminate.
  - apply dispatch_never_ready;
      [apply onStateChange_arms_own
      | intros _; split; [apply onStateChange_keeps_player | apply onStateChange_null]
      | exact Hw].
  - apply dispatch_never_ready;
      [apply syncWith_arms_own
      | intros _; split; [apply syncWith_keeps_player | apply syncWith_null] | exact Hw].
  - unfold fire. destruct (List.find _ _) as [tm|] eqn:Hfind; [|exact Hw].
    destruct (P.tm_due tm <=? _); [|exact Hw].
    destruct Hw as [Hnull Htm].
    assert (Howner : P.tm_owner tm <> i).
    { apply List.find_some in Hfind as [Hin _].
      exact (proj1 (List.Forall_forall _ _) Htm tm Hin). }
    apply dispatch_never_ready; [apply run_callback_arms_own | intros E; contradiction |].
    split; [exact Hnull|]. cbn.
    destruct (P.tm_period tm); [apply rearm_owners | apply drop_timer_Forall]; exact Htm.
  - exact Hw.
  - exact Hw.
Qed.

Lemma run_never_ready (i : P.Ref) (evs : list Event) (w : World) :
  no_PlayerReady i evs = true -> never_ready i w -> never_ready i (run evs w).
Proof.
  unfold no_PlayerReady. revert w.
  induction evs as [|ev evs IH]; intros w Hevs Hw; cbn in *; [exact Hw|].
  apply andb_true_iff in Hevs as [Hev Hevs]. apply negb_true_iff in Hev.
  apply IH; [exact Hevs | apply step_never_ready; assumption].
Qed.

(** C8. As long as the ready event of a surface's engine has not occurred,
    the surface holds a [null] engine handle and no timer of its own is
    pending; its destruction hook, its state-change handler and its
    [syncWith] then return normally, leave the store as it is and call no
    method of any engine, and the surface is afterwards as inert as
    before. *)
Theorem null_engine_inert (cfg : S.VideoConfig) (t0 : Z) (evs : list Event)
    (i : P.Ref) (ev : Event) :
  no_PlayerReady i evs = true ->
  ev = NgOnDestroy i
  \/ (exists data, ev = StateChange i data)
  \/ (exists time state, ev = SyncWith i time state) ->
  let w := run evs (boot cfg t0) in
  never_ready i w
  /\ fst (handle ev w) = P.Returned tt
  /\ store (step w ev) = store w
  /\ engineLog (step w ev) = engineLog w
  /\ never_ready i (step w ev).
Proof.
  intros Hevs Hev w.
  assert (Hw : never_ready i w).
  { apply run_never_ready; [exact Hevs|]. split; [intros p Hp; discriminate Hp|].
    apply Forall_nil_2. }
  split; [exact Hw|].
  assert (Hafter : never_ready i (step w ev)).
  { apply step_never_ready; [|exact Hw].
    destruct Hev as [->|[[data ->]|[time [state ->]]]]; reflexivity. }
  assert (Hm : exists m,
             handle ev w = dispatch i m w
             /\ (m = P.ngOnDestroy
                 \/ (exists data, m = P.onStateChange data)
                 \/ (exists time state, m = P.syncWith time state))).
  { destruct Hev as [->|[[data ->]|[time [state ->]]]]; eexists; (split; [reflexivity|]);
      eauto. }
  destruct Hm as [m [Hh Hm]].
  assert (Hmid : fst (handle ev w) = P.Returned tt
                 /\ store (step w ev) = store w
                 /\ engineLog (step w ev) = engineLog w).
  { unfold step, store, engineLog. rewrite Hh. unfold dispatch.
    destruct (surfaces w !! i) as [p|] eqn:Hp; [|repeat split].
    destruct (null_engine_methods {| P.self := i; P.this := p; P.env := w_env w |} m)
      as [H1 [H2 [H3 _]]]; [cbn; apply (proj1 Hw), Hp | exact Hm |].
    cbn [fst snd w_env]. repeat split; assumption. }
  destruct Hmid as [H1 [H2 H3]].
  split; [exact H1 | split; [exact H2 | split; [exact H3 | exact Hafter]]].
Qed.

Lemma null_engine_inert_witness :
  never_ready 1%nat follower_created
  /\ store (step follower_created (NgOnDestroy 1%nat)) = store follower_created
  /\ engineLog (step follower_created (SyncWith 1%nat 30 1)) = engineLog follower_created.
Proof.
  destruct (null_engine_inert S.repoVideoConfig 1000 follower_trace 1%nat
              (NgOnDestroy 1%nat) eq_refl (or_introl eq_refl))
    as [Hn [_ [Hs _]]].
  destruct (null_engine_inert S.repoVideoConfig 1000 follower_trace 1%nat
              (SyncWith 1%nat 30 1) eq_refl)
    as [_ [_ [_ [Hl _]]]]; [right; right; eauto|].
  split; [exact Hn | split; [exact Hs | exact Hl]].
Defined.

(** * Destruction *)

(** C10. The destruction of any surface that holds a ready engine handle,
    main or follower and whatever the authority slot holds, returns
    normally after exactly one forced write: the store then shows the
    engine's current time and state code, [isPlaying] telling whether the
    code is 1, stamped with the clock reading; that state is published once
    and the authority slot is left alone. *)
Theorem destroy_flush (w : World) (i : P.Ref) (p : P.t) (h : P.EngineRef) :
  surfaces w !! i = Some p ->
  P.player p = Some h ->
  P.isPlayerReady p = true ->
  let time := P.engineTime (P.telemetry (w_env w) h) in
  let code := P.engineState (P.telemetry (w_env w) h) in
  let w' := step w (NgOnDestroy i) in
  fst (handle (NgOnDestroy i) w) = P.Returned tt
  /\ store w' = S.forceUpdateState (clock_of w)
                  (P.telemetry_flush time code code (clock_of w)) (store w)
  /\ snapshot w'
     = {| S.currentTime := time; S.playerState := code; S.isPlaying := (code =? 1);
          S.lastUpdate := clock_of w |}
  /\ S.emitted (S.videoStateSubject (store w'))
     = S.emitted (S.videoStateSubject (store w)) ++ [snapshot w']
  /\ token w' = token w
  /\ engineLog w'
     = engineLog w
       ++ [(h, P.E_getCurrentTime); (h, P.E_getPlayerState); (h, P.E_getPlayerState)].
Proof.
  intros Hp Hh Hr time code w'.
  destruct (ngOnDestroy_flushes {| P.self := i; P.this := p; P.env := w_env w |} h Hh Hr)
    as [H1 [H2 [H3 [H4 [H5 H6]]]]].
  assert (Hhandle : handle (NgOnDestroy i) w
                    = (fst (P.ngOnDestroy {| P.self := i; P.this := p; P.env := w_env w |}),
                       {| w_env := P.env (snd (P.ngOnDestroy
                                     {| P.self := i; P.this := p; P.env := w_env w |}));
                          surfaces := <[i := P.this (snd (P.ngOnDestroy
                                     {| P.self := i; P.this := p; P.env := w_env w |}))]>
                                        (surfaces w) |}))
    by (cbn [handle]; apply (dispatch_some i P.ngOnDestroy w p Hp)).
  unfold w', step, snapshot, token, store, engineLog, clock_of. rewrite Hhandle.
  cbn [fst snd w_env]. cbn [P.env] in H2, H3, H4, H5, H6.
  split; [exact H1 | split; [exact H2 | split; [exact H3 | split; [exact H4|]]]].
  split; [exact H5 | exact H6].
Qed.

Lemma destroy_flush_witness :
  P.isMainPlayer (P.this (ctx_at 1%nat follower_ready)) = false
  /\ token follower_ready = Some "player_abc_1000"%string
  /\ P.playerId (P.this (ctx_at 1%nat follower_ready)) = "player_fol_2250"%string
  /\ snapshot follower_ready
     = {| S.currentTime := 120; S.playerState := 1; S.isPlaying := true;
          S.lastUpdate := 2250 |}
  /\ snapshot (step follower_ready (NgOnDestroy 1%nat))
     = {| S.currentTime := 119; S.playerState := 2; S.isPlaying := false;
          S.lastUpdate := 2250 |}.
Proof.
  destruct (destroy_flush follower_ready 1%nat (P.this (ctx_at 1%nat follower_ready)) 1%nat)
    as [_ [_ [Hv _]]];
    [vm_compute; reflexivity | vm_compute; reflexivity | vm_compute; reflexivity |].
  split; [vm_compute; reflexivity|].
  split; [vm_compute; reflexivity|].
  split; [vm_compute; reflexivity|].
  split; [vm_compute; reflexivity|].
  vm_compute in Hv |- *. exact Hv.
Defined.

(** * More on the store: sequences of calls *)

Lemma written_value (now : Z) (state : S.PartialVideoState) (s : S.t) :
  S.getCurrentState (written now state s)
  = S.stamp now (S.spread (S.getCurrentState s) state).
Proof. reflexivity. Qed.

Lemma call_cases (now : Z) (c : S.Call) (s : S.t) :
  S.call now c s = s
  \/ (exists state, S.call now c s = written now state s)
  \/ (exists id, S.call now c s = S.setActivePlayer id s).
Proof.
  destruct c; cbn; eauto;
    unfold S.saveCurrentTime, S.savePlayerState, S.updateState;
    try (destruct (S.refused s _); eauto).
Qed.

Lemma stamps_written (now : Z) (state : S.PartialVideoState) (s : S.t) :
  stamps (written now state s) = stamps s ++ [now].
Proof. unfold stamps, written. cbn. rewrite List.map_app. reflexivity. Qed.

Lemma last_of_cons {A : Type} (a : A) (l : list A) (d d' : A) :
  List.last (a :: l) d = List.last (a :: l) d'.
Proof.
  revert a. induction l as [|b l IH]; intros a; [reflexivity|].
  change (List.last (b :: l) d = List.last (b :: l) d'). apply IH.
Qed.

Lemma nondecreasing_snoc (t x : Z) (l : list Z) :
  nondecreasing t l = true -> List.last l t <= x -> nondecreasing t (l ++ [x]) = true.
Proof.
  revert t. induction l as [|a l IH]; intros t Hl Hx; cbn in *.
  - rewrite andb_true_r. apply Z.leb_le. exact Hx.
  - apply andb_true_iff in Hl as [Hta Hl]. rewrite Hta. cbn. apply IH; [exact Hl|].
    destruct l as [|b l]; [exact Hx|]. rewrite (last_of_cons b l a t). exact Hx.
Qed.

(** X1. Along any sequence of store calls whose clock readings never go
    back, started on a fresh store, the stamps of the published states
    never decrease, none is older than the initial stamp, and the current
    state carries the latest of them. *)
Theorem stamps_never_decrease (cfg : S.VideoConfig) (t0 : Z) (cs : list (Z * S.Call)) :
  readings_from t0 cs = true ->
  let s := S.calls cs (S.create cfg t0) in
  nondecreasing t0 (stamps s) = true
  /\ S.lastUpdate (S.getCurrentState s) = List.last (stamps s) t0.
Proof.
  intros Hcs s.
  assert (Hgen : forall cs t s0,
            readings_from t cs = true ->
            S.lastUpdate (S.getCurrentState s0) <= t ->
            S.lastUpdate (S.getCurrentState s0) = List.last (stamps s0) t0 ->
            nondecreasing t0 (stamps s0) = true ->
            nondecreasing t0 (stamps (S.calls cs s0)) = true
            /\ S.lastUpdate (S.getCurrentState (S.calls cs s0))
               = List.last (stamps (S.calls cs s0)) t0).
  { clear. induction cs as [|[now c] cs IH]; intros t s0 Hr Hle Hlast Hsorted; cbn in *.
    - split; assumption.
    - apply andb_true_iff in Hr as [Htn Hr]. apply Z.leb_le in Htn.
      destruct (call_cases now c s0) as [->|[[state ->]| [id ->]]].
      + apply (IH now); [exact Hr | lia | exact Hlast | exact Hsorted].
      + apply (IH now); [exact Hr | cbn; lia | |].
        * rewrite stamps_written, List.last_last. reflexivity.
        * rewrite stamps_written. apply nondecreasing_snoc; [exact Hsorted | lia].
      + apply (IH now);
          [exact Hr | unfold S.getCurrentState in *; cbn; lia | exact Hlast | exact Hsorted]. }
  apply (Hgen cs t0 (S.create cfg t0)); [exact Hcs | cbn; lia | reflexivity | reflexivity].
Qed.

Lemma stamps_never_decrease_witness :
  stamps (S.calls sample_calls (S.create S.repoVideoConfig 1000)) = [1000; 1000; 1007]
  /\ nondecreasing 1000 (stamps (S.calls sample_calls (S.create S.repoVideoConfig 1000))) = true.
Proof.
  destruct (stamps_never_decrease S.repoVideoConfig 1000 sample_calls eq_refl) as [H _].
  split; [reflexivity | exact H].
Defined.

(** X2. Whatever calls a store has received since it was created, its
    current state is the last state it published (the initial state when
    it has published none), and its video configuration is the one it was
    created with. *)
Theorem current_is_last_published (cfg : S.VideoConfig) (t0 : Z) (cs : list (Z * S.Call)) :
  let s := S.calls cs (S.create cfg t0) in
  S.getCurrentState s = List.last (S.emitted (S.videoStateSubject s)) (S.initialState t0)
  /\ S.getVideoConfig s = cfg.
Proof.
  intros s.
  assert (Hgen : forall cs s0,
            S.getCurrentState s0
            = List.last (S.emitted (S.videoStateSubject s0)) (S.initialState t0) ->
            S.getVideoConfig s0 = cfg ->
            S.getCurrentState (S.calls cs s0)
            = List.last (S.emitted (S.videoStateSubject (S.calls cs s0))) (S.initialState t0)
            /\ S.getVideoConfig (S.calls cs s0) = cfg).
  { clear. induction cs as [|[now c] cs IH]; intros s0 Hv Hc; cbn.
    - split; assumption.
    - destruct (call_cases now c s0) as [->|[[state ->]| [id ->]]].
      + apply IH; assumption.
      + apply IH; [|exact Hc]. unfold written. cbn. rewrite List.last_last. reflexivity.
      + apply IH; assumption. }
  apply Hgen; reflexivity.
Qed.

(** X3. The authority slot always holds the id given to the most recent
    [setActivePlayer]; when a sequence of calls contains none, the slot is
    what it was before. No other call writes it and it never expires. *)
Theorem last_setActivePlayer_wins (cs : list (Z * S.Call)) (s : S.t) :
  S.activePlayerId (S.calls cs s)
  = from_option Some (S.activePlayerId s) (last_SetActivePlayer cs).
Proof.
  revert s. induction cs as [|[now c] cs IH]; intros s; cbn; [reflexivity|].
  rewrite IH. destruct (last_SetActivePlayer cs) as [id|]; cbn; [reflexivity|].
  destruct (S.is_SetActivePlayer c) eqn:Hc.
  - destruct c; try discriminate. reflexivity.
  - rewrite call_token by exact Hc. destruct c; try discriminate; reflexivity.
Qed.

(** X4. Two forced writes in a row leave the same current state as one
    forced write of the second partial laid over the first, made at the
    time of the second; they publish two states where the single write
    publishes one. *)
Theorem forced_writes_compose (now1 now2 : Z) (p1 p2 : S.PartialVideoState) (s : S.t) :
  let twice := S.forceUpdateState now2 p2 (S.forceUpdateState now1 p1 s) in
  let once := S.forceUpdateState now2 (overlay p1 p2) s in
  S.getCurrentState twice = S.getCurrentState once
  /\ length (S.emitted (S.videoStateSubject twice))
     = S (length (S.emitted (S.videoStateSubject once))).
Proof.
  intros twice once. split.
  - unfold twice, once, S.forceUpdateState, S.getCurrentState, S.publish, S.stamp, S.spread,
      overlay. cbn.
    destruct (S.p_currentTime p1), (S.p_currentTime p2), (S.p_playerState p1),
      (S.p_playerState p2), (S.p_isPlaying p1), (S.p_isPlaying p2); reflexivity.
  - unfold twice, once, S.forceUpdateState, S.publish. cbn.
    rewrite !length_app. cbn. lia.
Qed.

(** X5. A successful write of an empty partial changes no playback field,
    yet it re-stamps the state with the clock reading and publishes it:
    subscribers are notified although nothing but [lastUpdate] moved. *)
Theorem empty_write_still_publishes (now : Z) (id : string) (s s' : S.t) :
  s' = S.forceUpdateState now empty_partial s
  \/ (S.refused s id = false /\ s' = S.updateState now empty_partial id s) ->
  playback (S.getCurrentState s') = playback (S.getCurrentState s)
  /\ S.lastUpdate (S.getCurrentState s') = now
  /\ S.emitted (S.videoStateSubject s')
     = S.emitted (S.videoStateSubject s) ++ [S.getCurrentState s'].
Proof.
  intros H.
  assert (Hs : s' = written now empty_partial s).
  { destruct H as [->|[Hr ->]]; [reflexivity | apply updateState_accepted, Hr]. }
  subst s'. repeat split.
Qed.

Lemma empty_write_still_publishes_witness :
  S.getCurrentState (S.updateState 2005 empty_partial "A" written_once)
  = {| S.currentTime := 5; S.playerState := -1; S.isPlaying := false;
       S.lastUpdate := 2005 |}
  /\ length (S.emitted (S.videoStateSubject (S.updateState 2005 empty_partial "A" written_once)))
     = 2%nat.
Proof.
  destruct (empty_write_still_publishes 2005 "A" written_once
              (S.updateState 2005 empty_partial "A" written_once))
    as [_ [_ He]]; [right; split; reflexivity|].
  split; [reflexivity | rewrite He; reflexivity].
Defined.

(** X6. [saveCurrentTime] and [savePlayerState] go through the same gate
    as [updateState]: refused, they leave the store as it is. Accepted, the
    first replaces the position only and the second the state code and the
    playing flag only, so that one after the other, in either order, they
    leave the same playback fields. *)
Theorem save_methods (now1 now2 : Z) (time : Q) (ps : Z) (ip : bool) (id : string)
    (s : S.t) :
  (S.refused s id = true ->
   S.saveCurrentTime now1 time id s = s /\ S.savePlayerState now1 ps ip id s = s)
  /\ (S.refused s id = false ->
      let cur := S.getCurrentState s in
      playback (S.getCurrentState (S.saveCurrentTime now1 time id s))
      = (time, S.playerState cur, S.isPlaying cur)
      /\ playback (S.getCurrentState (S.savePlayerState now1 ps ip id s))
         = (S.currentTime cur, ps, ip)
      /\ playback (S.getCurrentState
                     (S.savePlayerState now2 ps ip id (S.saveCurrentTime now1 time id s)))
         = (time, ps, ip)
      /\ playback (S.getCurrentState
                     (S.saveCurrentTime now2 time id (S.savePlayerState now1 ps ip id s)))
         = (time, ps, ip)).
Proof.
  split; intros Hr.
  - unfold S.saveCurrentTime, S.savePlayerState. split; apply updateState_refused, Hr.
  - intros cur.
    assert (Hkeep : forall now state, S.refused (written now state s) id = false).
    { intros now state. exact Hr. }
    unfold S.saveCurrentTime, S.savePlayerState.
    rewrite !(updateState_accepted _ _ id s) by exact Hr.
    rewrite !updateState_accepted by apply Hkeep.
    repeat split.
Qed.

Lemma save_methods_witness :
  S.saveCurrentTime 2001 9 "A" (S.setActivePlayer "B" written_once)
  = S.setActivePlayer "B" written_once
  /\ playback (S.getCurrentState
                 (S.savePlayerState 2002 1 true "B"
                    (S.saveCurrentTime 2001 9 "B" (S.setActivePlayer "B" written_once))))
     = (9%Q, 1, true).
Proof.
  destruct (save_methods 2001 2002 9 1 true "A" (S.setActivePlayer "B" written_once))
    as [Hno _].
  destruct (save_methods 2001 2002 9 1 true "B" (S.setActivePlayer "B" written_once))
    as [_ Hyes].
  split.
  - apply Hno. reflexivity.
  - destruct (Hyes eq_refl) as [_ [_ [H _]]]. exact H.
Defined.

(** * More on the source resolver *)

Lemma truthy_unset (o : option string) : truthy o = false <-> unset o.
Proof.
  unfold unset. destruct o as [x|]; cbn.
  - rewrite negb_false_iff, String.eqb_eq. split.
    + intros ->. right. reflexivity.
    + intros [H|H]; [discriminate | injection H as ->; reflexivity].
  - split; auto.
Qed.

Lemma ngOnInit_this (c : P.Ctx) :
  let cfg := S.getVideoConfig (P.service (P.env c)) in
  let cur := S.getCurrentState (P.service (P.env c)) in
  P.this (snd (P.ngOnInit c))
  = P.with_seed (S.currentTime cur) (S.playerState cur)
      (P.setupPlayerConfig (P.with_source cfg (P.this c))).
Proof.
  destruct c as [i p e]. run_method. cbn.
  destruct (P.isMainPlayer _); reflexivity.
Qed.

(** X7. With no playlist id and a list of at least two video ids,
    [setupPlayerConfig] selects the item-list mode: the explicit playlist
    is the list without its first item, the two playlist keys are absent,
    every other key of the engine configuration is untouched, and
    [getVideoId] answers the first item, so that the primary target
    followed by the explicit playlist is the configured list again. *)
Theorem item_list_mode (p : P.t) (first second : string) (rest : list string) :
  unset (P.playlistId p) ->
  P.videoIds p = Some (first :: second :: rest) ->
  let q := P.setupPlayerConfig p in
  P.playerConfig q !! "playlist"%string = Some (P.JArray (second :: rest))
  /\ P.playerConfig q !! "listType"%string = None
  /\ P.playerConfig q !! "list"%string = None
  /\ P.getVideoId q = first
  /\ Some (P.getVideoId q :: second :: rest) = P.videoIds p
  /\ (forall k, ~ mode_key k -> P.playerConfig q !! k = P.playerConfig p !! k).
Proof.
  intros Hpl Hids q. apply truthy_unset in Hpl.
  assert (Hq : q = P.with_playerConfig
                     (delete "list"%string
                        (delete "listType"%string
                           (<["playlist"%string := P.JArray (second :: rest)]>
                              (P.playerConfig p)))) p).
  { unfold q, P.setupPlayerConfig. rewrite Hpl, Hids. reflexivity. }
  rewrite Hq. cbn [P.playerConfig P.with_playerConfig].
  split; [|split; [|split; [|split; [|split]]]].
  - rewrite !lookup_delete_ne by discriminate. apply lookup_insert_eq.
  - rewrite lookup_delete_ne by discriminate. apply lookup_delete_eq.
  - apply lookup_delete_eq.
  - unfold P.getVideoId. cbn [P.videoIds P.with_playerConfig]. rewrite Hids. reflexivity.
  - unfold P.getVideoId. cbn [P.videoIds P.with_playerConfig]. rewrite Hids. reflexivity.
  - intros k Hk. unfold mode_key in Hk.
    rewrite !lookup_delete_ne, lookup_insert_ne by (intros <-; tauto). reflexivity.
Qed.

Lemma item_list_mode_witness :
  let q := P.this (snd (P.ngOnInit (just_created list_only true))) in
  P.playerConfig q !! "playlist"%string = Some (P.JArray ["b"; "c"]%string)
  /\ P.getVideoId q = "a"%string.
Proof.
  intros q.
  destruct (item_list_mode (P.with_source list_only (P.this (just_created list_only true)))
              "a" "b" ["c"]%string)
    as [H1 [_ [_ [H4 _]]]]; [left; reflexivity | reflexivity |].
  split; [exact H1 | exact H4].
Defined.

(** X8. With no playlist id and fewer than two video ids,
    [setupPlayerConfig] selects the single-video mode: none of the three
    mode keys is present. [getVideoId] then answers [videoId] when the
    list is absent or empty, but the only item of a one-item list. *)
Theorem single_mode (p : P.t) :
  unset (P.playlistId p) ->
  P.videoIds p = None \/ P.videoIds p = Some [] \/ (exists x, P.videoIds p = Some [x]) ->
  let q := P.setupPlayerConfig p in
  (forall k, mode_key k -> P.playerConfig q !! k = None)
  /\ (forall k, ~ mode_key k -> P.playerConfig q !! k = P.playerConfig p !! k)
  /\ (P.videoIds p = None \/ P.videoIds p = Some [] -> P.getVideoId q = P.videoId p)
  /\ (forall x, P.videoIds p = Some [x] -> P.getVideoId q = x).
Proof.
  intros Hpl Hids q. apply truthy_unset in Hpl.
  assert (Hshort : P.longer_than_one (P.videoIds p) = false).
  { destruct Hids as [->|[->|[x ->]]]; reflexivity. }
  assert (Hq : q = P.with_playerConfig
                     (delete "playlist"%string
                        (delete "list"%string
                           (delete "listType"%string (P.playerConfig p)))) p).
  { unfold q, P.setupPlayerConfig. rewrite Hpl, Hshort. reflexivity. }
  rewrite Hq. cbn [P.playerConfig P.with_playerConfig].
  split; [|split; [|split]].
  - intros k [->|[->| ->]].
    + rewrite !lookup_delete_ne by discriminate. apply lookup_delete_eq.
    + rewrite lookup_delete_ne by discriminate. apply lookup_delete_eq.
    + apply lookup_delete_eq.
  - intros k Hk. unfold mode_key in Hk.
    rewrite !lookup_delete_ne by (intros <-; tauto). reflexivity.
  - intros Hnone. unfold P.getVideoId. cbn [P.videoIds P.playlistId P.videoId P.with_playerConfig].
    rewrite Hpl. destruct Hnone as [->| ->]; reflexivity.
  - intros x Hx. unfold P.getVideoId. cbn [P.videoIds P.with_playerConfig].
    rewrite Hx. reflexivity.
Qed.

Lemma single_mode_witness :
  let q := P.this (snd (P.ngOnInit (just_created one_item true))) in
  P.playerConfig q !! "playlist"%string = None
  /\ P.videoId q = "v"%string
  /\ P.getVideoId q = "a"%string.
Proof.
  intros q.
  destruct (single_mode (P.with_source one_item (P.this (just_created one_item true))))
    as [H1 [_ [_ H4]]]; [right; reflexivity | right; right; eexists; reflexivity |].
  split; [apply (H1 "playlist"%string); right; right; reflexivity|].
  split; [reflexivity | apply (H4 "a"%string); reflexivity].
Defined.

Ltac key_neq := solve [congruence | discriminate | intros <-; tauto | intros ->; tauto].

Ltac map_lookup :=
  repeat first
    [ rewrite lookup_delete_eq
    | rewrite lookup_insert_eq
    | rewrite lookup_delete_ne by key_neq
    | rewrite lookup_insert_ne by key_neq ].

Ltac by_key k :=
  destruct (decide (k = "playlist"%string)) as [->|?]; [map_lookup; reflexivity|];
  destruct (decide (k = "list"%string)) as [->|?]; [map_lookup; reflexivity|];
  destruct (decide (k = "listType"%string)) as [->|?]; [map_lookup; reflexivity|];
  map_lookup; reflexivity.

(** X9. [setupPlayerConfig] settles the engine configuration: running it
    again changes nothing. In the configuration it leaves, the key [list]
    is present exactly when [listType] is ["playlist"], [list] and
    [playlist] are never both present, and every key other than
    [listType], [list] and [playlist] is as it was. *)
Theorem setupPlayerConfig_settles (p : P.t) :
  let q := P.setupPlayerConfig p in
  P.setupPlayerConfig q = q
  /\ (is_Some (P.playerConfig q !! "list"%string)
      <-> P.playerConfig q !! "listType"%string = Some (P.JString "playlist"))
  /\ ~ (is_Some (P.playerConfig q !! "list"%string)
        /\ is_Some (P.playerConfig q !! "playlist"%string))
  /\ (forall k, ~ mode_key k -> P.playerConfig q !! k = P.playerConfig p !! k).
Proof.
  intros q. unfold q, P.setupPlayerConfig.
  destruct (truthy (P.playlistId p)) eqn:Hpl;
    [|destruct (P.longer_than_one (P.videoIds p)) eqn:Hlong];
    cbn [P.playerConfig P.with_playerConfig P.playlistId P.videoIds];
    rewrite ?Hpl, ?Hlong; cbn [P.playerConfig P.with_playerConfig P.playlistId P.videoIds].
  - split; [|split; [|split]].
    + unfold P.with_playerConfig; cbn. f_equal.
      apply map_eq. intros k. by_key k.
    + map_lookup. split; eauto.
    + map_lookup. intros [_ [x Hx]]. discriminate.
    + intros k Hk. unfold mode_key in Hk. map_lookup. reflexivity.
  - split; [|split; [|split]].
    + unfold P.with_playerConfig; cbn. f_equal.
      apply map_eq. intros k. by_key k.
    + map_lookup. split; [intros [x Hx]|]; discriminate.
    + map_lookup. intros [[x Hx] _]. discriminate.
    + intros k Hk. unfold mode_key in Hk. map_lookup. reflexivity.
  - split; [|split; [|split]].
    + unfold P.with_playerConfig; cbn. f_equal.
      apply map_eq. intros k. by_key k.
    + map_lookup. split; [intros [x Hx]|]; discriminate.
    + map_lookup. intros [_ [x Hx]]. discriminate.
    + intros k Hk. unfold mode_key in Hk. map_lookup. reflexivity.
Qed.

Lemma js_or_nonempty (a : option string) (b : string) :
  b <> ""%string -> P.js_or a b <> ""%string.
Proof.
  intros Hb. unfold P.js_or. destruct a as [x|]; cbn; [|exact Hb].
  destruct (String.eqb x "") eqn:E; cbn; [exact Hb|].
  apply String.eqb_neq in E. exact E.
Qed.

(** X10. After [ngOnInit] the field [videoId] is never empty: it is the
    configured id when that is a non-empty string and ["dQw4w9WgXcQ"]
    when the configuration names none. [getVideoId] then answers the
    first item of a non-empty [videoIds]; without items it answers the
    empty string when a playlist id is configured and [videoId]
    otherwise. *)
Theorem primary_target_after_init (c : P.Ctx) :
  let cfg := S.getVideoConfig (P.service (P.env c)) in
  let q := P.this (snd (P.ngOnInit c)) in
  P.videoId q <> ""%string
  /\ (unset (S.videoId cfg) -> P.videoId q = "dQw4w9WgXcQ"%string)
  /\ (forall v, S.videoId cfg = Some v -> v <> ""%string -> P.videoId q = v)
  /\ (S.videoIds cfg = None \/ S.videoIds cfg = Some [] ->
      P.getVideoId q = if truthy (S.playlistId cfg) then ""%string else P.videoId q)
  /\ (forall first rest, S.videoIds cfg = Some (first :: rest) -> P.getVideoId q = first).
Proof.
  intros cfg q. unfold q. rewrite ngOnInit_this. fold cfg.
  assert (Hs : forall t st x, P.videoId (P.with_seed t st (P.setupPlayerConfig x)) = P.videoId x
                 /\ P.videoIds (P.with_seed t st (P.setupPlayerConfig x)) = P.videoIds x
                 /\ P.playlistId (P.with_seed t st (P.setupPlayerConfig x)) = P.playlistId x).
  { intros t st x. unfold P.setupPlayerConfig.
    destruct (truthy _); [|destruct (P.longer_than_one _)]; repeat split. }
  unfold P.getVideoId.
  destruct (Hs (S.currentTime (S.getCurrentState (P.service (P.env c))))
               (S.playerState (S.getCurrentState (P.service (P.env c))))
               (P.with_source cfg (P.this c))) as [H1 [H2 H3]].
  rewrite H1, H2, H3. cbn [P.with_source P.videoId P.videoIds P.playlistId].
  split; [|split; [|split; [|split]]].
  - apply js_or_nonempty. discriminate.
  - intros [->| ->]; reflexivity.
  - intros v -> Hv. unfold P.js_or. cbn.
    apply String.eqb_neq in Hv. rewrite Hv. reflexivity.
  - intros [->| ->]; reflexivity.
  - intros first rest ->. reflexivity.
Qed.

(** * More on the engine events *)

(** X11. When the engine of a ready main surface reports a state other
    than ENDED, [onStateChange] reads the engine position once, makes one
    gated write of that position with the reported state (the engine is
    not asked for its state) under the surface's id, emits [stateChange],
    and arms no timer. The store shows the position and the reported state
    when the authority slot is empty or holds this surface's id. *)
Theorem state_change_report (w : World) (i : P.Ref) (p : P.t) (h : P.EngineRef) (data : Z) :
  surfaces w !! i = Some p ->
  P.isMainPlayer p = true -> P.player p = Some h -> P.isPlayerReady p = true ->
  data <> 0 ->
  let time := P.engineTime (P.telemetry (w_env w) h) in
  let w1 := step w (StateChange i data) in
  engineLog w1 = engineLog w ++ [(h, P.E_getCurrentTime)]
  /\ store w1
     = S.updateState (clock_of w) (P.telemetry_update time data) (P.playerId p) (store w)
  /\ outputs_of w1 = outputs_of w ++ [(i, P.stateChange data)]
  /\ timers_of w1 = timers_of w
  /\ surfaces w1 = surfaces w
  /\ (token_empty (store w) \/ token w = Some (P.playerId p) ->
      playback (snapshot w1) = (time, data, data =? 1)).
Proof.
  intros Hp Hm Hh Hr Hd time w1.
  assert (E : w1 = {| w_env :=
                        P.with_outputs (outputs_of w ++ [(i, P.stateChange data)])
                          (P.with_service
                             (S.updateState (clock_of w) (P.telemetry_update time data)
                                (P.playerId p) (store w))
                             (P.with_engineLog (engineLog w ++ [(h, P.E_getCurrentTime)])
                                (w_env w)));
                      surfaces := surfaces w |}).
  { unfold w1, time, step, outputs_of, engineLog, clock_of, store. cbn [handle].
    unfold dispatch. rewrite Hp.
    destruct w as [e surf]. destruct p. cbn in Hp, Hm, Hh, Hr. subst.
    run_method. cbn. apply Z.eqb_neq in Hd. rewrite Hd. cbn.
    rewrite list_insert_id by exact Hp. reflexivity. }
  rewrite E. unfold engineLog, store, outputs_of, timers_of. cbn.
  repeat (split; [reflexivity|]).
  intros Hok. unfold snapshot, store. cbn.
  rewrite updateState_accepted by (apply refused_false; exact Hok).
  reflexivity.
Qed.

Lemma state_change_report_witness :
  playback (snapshot (step main_at_120 (StateChange 0%nat 2))) = (120%Q, 2, false).
Proof.
  destruct (state_change_report main_at_120 0%nat (P.this (ctx_at 0%nat main_at_120))
              0%nat 2)
    as [_ [_ [_ [_ [_ H]]]]];
    [vm_compute; reflexivity | vm_compute; reflexivity | vm_compute; reflexivity
    | vm_compute; reflexivity | discriminate |].
  assert (Hok : token_empty (store main_at_120)
                \/ token main_at_120
                   = Some (P.playerId (P.this (ctx_at 0%nat main_at_120))))
    by (right; vm_compute; reflexivity).
  specialize (H Hok). vm_compute in H |- *. exact H.
Defined.

(** X12. On a follower, and on a main surface whose engine is not ready,
    [onStateChange] only emits [stateChange], whatever state is reported
    (ENDED included): the store, the engine, the timers and the instance
    are left as they are. *)
Theorem state_change_passive (w : World) (i : P.Ref) (p : P.t) (data : Z) :
  surfaces w !! i = Some p ->
  P.isMainPlayer p = false \/ P.player p = None \/ P.isPlayerReady p = false ->
  step w (StateChange i data) = emitted_only (P.stateChange data) i w.
Proof.
  intros Hp Hcase. unfold step, emitted_only. cbn [handle]. unfold dispatch. rewrite Hp.
  assert (Hoff : P.isMainPlayer p && bool_decide (is_Some (P.player p)) && P.isPlayerReady p
                 = false).
  { destruct Hcase as [->|[->| ->]]; cbn.
    - reflexivity.
    - rewrite andb_false_r. reflexivity.
    - apply andb_false_r. }
  destruct w as [e surf]. run_method. cbn in *. rewrite Hoff. cbn.
  rewrite list_insert_id by exact Hp. reflexivity.
Qed.

Lemma state_change_passive_witness :
  step follower_ready (StateChange 1%nat 0)
  = emitted_only (P.stateChange 0) 1%nat follower_ready.
Proof.
  apply (state_change_passive follower_ready 1%nat (P.this (ctx_at 1%nat follower_ready)) 0).
  - vm_compute. reflexivity.
  - left. vm_compute. reflexivity.
Defined.

(** X13. [syncWith] on a ready surface always seeks to the given time,
    then calls play only when the given state is PLAYING and the surface
    is the main one, and pause when the given state is PAUSED. It never
    writes to the store, arms no timer and emits nothing; a follower is
    never told to play. *)
Theorem syncWith_commands (w : World) (i : P.Ref) (p : P.t) (h : P.EngineRef)
    (time : Q) (state : Z) :
  surfaces w !! i = Some p -> P.player p = Some h -> P.isPlayerReady p = true ->
  let w1 := step w (SyncWith i time state) in
  engineLog w1
  = engineLog w ++ List.map (pair h) (sync_commands (P.isMainPlayer p) time state)
  /\ store w1 = store w
  /\ timers_of w1 = timers_of w
  /\ outputs_of w1 = outputs_of w
  /\ surfaces w1 = surfaces w
  /\ (P.isMainPlayer p = false ->
      ~ In P.E_playVideo (sync_commands (P.isMainPlayer p) time state)).
Proof.
  intros Hp Hh Hr w1.
  unfold w1, step, engineLog, store, timers_of, outputs_of, sync_commands.
  cbn [handle]. unfold dispatch. rewrite Hp.
  destruct w as [e surf]. destruct p. cbn in Hp, Hh, Hr. subst.
  run_method. cbn.
  destruct ((state =? 1) && isMainPlayer) eqn:E1; cbn;
    [|destruct (state =? 2) eqn:E2; cbn];
    rewrite <- ?app_assoc, list_insert_id by exact Hp; cbn;
    (repeat (split; [reflexivity|])).
  - intros ->. rewrite andb_false_r in E1. discriminate.
  - intros _ [H|[H|[]]]; discriminate.
  - intros _ [H|[]]; discriminate.
Qed.

Lemma syncWith_commands_witness :
  engineLog (step follower_ready (SyncWith 1%nat 30 1))
  = engineLog follower_ready ++ [(1%nat, P.E_seekTo 30 true)].
Proof.
  destruct (syncWith_commands follower_ready 1%nat (P.this (ctx_at 1%nat follower_ready))
              1%nat 30 1)
    as [H _];
    [vm_compute; reflexivity | vm_compute; reflexivity | vm_compute; reflexivity |].
  vm_compute in H |- *. exact H.
Defined.




(** * The timers of the surfaces *)

Ltac effect_solve :=
  first
    [ solve [apply te_none; reflexivity]
    | solve [eapply te_timeout; reflexivity]
    | solve [apply te_clear; reflexivity]
    | solve [eapply te_scheduler; reflexivity] ].

Ltac crush_effect c :=
  open_ctx c; run_method; unfold P.setupPlayerConfig, cleared; cbn -[P.drop_timer];
  repeat split_branch; effect_solve.

Lemma ngOnInit_discipline : timer_discipline P.ngOnInit.
Proof. intros c. crush_effect c. Qed.

Lemma ngOnDestroy_discipline : timer_discipline P.ngOnDestroy.
Proof. intros c. crush_effect c. Qed.

Lemma onStateChange_discipline (data : Z) : timer_discipline (P.onStateChange data).
Proof. intros c. crush_effect c. Qed.

Lemma syncWith_discipline (time : Q) (state : Z) : timer_discipline (P.syncWith time state).
Proof. intros c. crush_effect c. Qed.

Lemma run_callback_discipline (cb : P.Callback) : timer_discipline (P.run_callback cb).
Proof. intros c. destruct cb; crush_effect c. Qed.

Lemma onPlayerReady_discipline (target : P.EngineRef) :
  timer_discipline (P.onPlayerReady target).
Proof.
  intros c. open_ctx c. destruct saveStateInterval as [[|k]|];
    run_method; unfold cleared; cbn -[P.drop_timer]; repeat split_branch; effect_solve.
Qed.

Lemma drop_timer_elem (id : nat) (l : list P.Timer) (tm : P.Timer) :
  tm ∈ P.drop_timer id l <-> tm ∈ l /\ P.tm_id tm <> id.
Proof.
  unfold P.drop_timer.
  rewrite !list_elem_of_In, filter_In, negb_true_iff, Nat.eqb_neq. reflexivity.
Qed.

Lemma drop_timer_ids (id : nat) (l : list P.Timer) :
  NoDup (P.tm_id <$> l) -> NoDup (P.tm_id <$> P.drop_timer id l).
Proof.
  induction l as [|tm l IH]; cbn; [auto|].
  rewrite NoDup_cons. intros [Hnew Hl].
  destruct (negb (P.tm_id tm =? id)%nat); cbn; [|auto].
  apply NoDup_cons. split; [|auto].
  intros Hin. apply Hnew.
  apply list_elem_of_fmap in Hin as [tm' [E Hin]].
  apply drop_timer_elem in Hin as [Hin _].
  apply list_elem_of_fmap. eauto.
Qed.

Lemma rearm_id (k : Z) (id : nat) (tm : P.Timer) : P.tm_id (rearm k id tm) = P.tm_id tm.
Proof. unfold rearm. destruct (_ =? _)%nat; reflexivity. Qed.

Lemma rearm_scheduler (k : Z) (id : nat) (i : P.Ref) (tm : P.Timer) :
  is_scheduler (rearm k id tm) = is_scheduler tm
  /\ P.tm_owner (rearm k id tm) = P.tm_owner tm.
Proof. unfold rearm. destruct (_ =? _)%nat; split; reflexivity. Qed.

Lemma armed_drop (n id : nat) (tms : list P.Timer) (hs : list (option nat)) :
  armed n tms hs -> armed n (P.drop_timer id tms) hs.
Proof.
  intros [H1 [H2 [H3 [H4 H5]]]]. split; [exact H1|].
  split; [apply drop_timer_Forall; exact H2|].
  split; [apply drop_timer_ids; exact H3|].
  split.
  - intros tm Hin. apply drop_timer_elem in Hin as [Hin _]. auto.
  - intros i h Hh. destruct (H5 i h Hh) as [Hr Htm]. split; [exact Hr|].
    intros tm Hin. apply drop_timer_elem in Hin as [Hin _]. auto.
Qed.

Lemma armed_cleared (n : nat) (h : option nat) (tms : list P.Timer) (hs : list (option nat)) :
  armed n tms hs -> armed n (cleared h tms) hs.
Proof.
  intros H. unfold cleared. destruct (truthy_handle h); [apply armed_drop|]; exact H.
Qed.

Lemma armed_rearm (n id : nat) (k : Z) (tms : list P.Timer) (hs : list (option nat)) :
  armed n tms hs -> armed n (List.map (rearm k id) tms) hs.
Proof.
  intros [H1 [H2 [H3 [H4 H5]]]].
  change (List.map (rearm k id) tms) with (rearm k id <$> tms).
  split; [exact H1|].
  split.
  { apply Forall_fmap. eapply Forall_impl; [exact H2|].
    intros tm Htm. cbn. rewrite rearm_id. exact Htm. }
  split.
  { rewrite <- list_fmap_compose.
    erewrite list_fmap_ext; [exact H3|]. intros j tm _. cbn. apply rearm_id. }
  split.
  - intros tm Hin Hs. apply list_elem_of_fmap in Hin as [tm' [-> Hin]].
    destruct (rearm_scheduler k id O tm') as [Es Eo].
    rewrite Eo, rearm_id. apply H4; [exact Hin|]. rewrite <- Es. exact Hs.
  - intros i h Hh. destruct (H5 i h Hh) as [Hr Htm]. split; [exact Hr|].
    intros tm Hin Hid. apply list_elem_of_fmap in Hin as [tm' [-> Hin]].
    destruct (rearm_scheduler k id O tm') as [Es Eo].
    unfold scheduler_of. rewrite Es, Eo. rewrite rearm_id in Hid.
    apply (Htm tm' Hin Hid).
Qed.

Lemma armed_fresh_id (n : nat) (tms : list P.Timer) (hs : list (option nat)) :
  armed n tms hs -> n ∉ P.tm_id <$> tms.
Proof.
  intros [_ [H2 _]] Hin. apply list_elem_of_fmap in Hin as [tm [E Hin]].
  rewrite Forall_forall in H2. specialize (H2 tm Hin). lia.
Qed.

Lemma armed_timeout (n : nat) (tm : P.Timer) (tms : list P.Timer) (hs : list (option nat)) :
  armed n tms hs -> P.tm_id tm = n -> is_scheduler tm = false ->
  armed (S n) (tms ++ [tm]) hs.
Proof.
  intros H Hid Hs. pose proof (armed_fresh_id _ _ _ H) as Hnew.
  destruct H as [H1 [H2 [H3 [H4 H5]]]].
  split; [lia|].
  split.
  { apply Forall_app. split.
    - eapply Forall_impl; [exact H2|]. intros x Hx. cbn in Hx. lia.
    - apply Forall_singleton. lia. }
  split.
  { rewrite fmap_app. apply NoDup_app. split; [exact H3|]. split.
    - intros x Hx Hx'. cbn in Hx'. apply list_elem_of_singleton in Hx'. congruence.
    - cbn. apply NoDup_singleton. }
  split.
  - intros x Hin Hx. apply elem_of_app in Hin as [Hin|Hin]; [auto|].
    apply list_elem_of_singleton in Hin. congruence.
  - intros i h Hh. destruct (H5 i h Hh) as [Hr Htm]. split; [lia|].
    intros x Hin Hx. apply elem_of_app in Hin as [Hin|Hin]; [auto|].
    apply list_elem_of_singleton in Hin. subst x. lia.
Qed.

Lemma scheduler_of_true (i : P.Ref) (tm : P.Timer) :
  scheduler_of i tm = true <-> is_scheduler tm = true /\ P.tm_owner tm = i.
Proof. unfold scheduler_of. rewrite andb_true_iff, Nat.eqb_eq. reflexivity. Qed.

Lemma armed_scheduler (n : nat) (i : P.Ref) (tm : P.Timer) (tms : list P.Timer)
    (hs : list (option nat)) :
  armed n tms hs -> (i < length hs)%nat ->
  P.tm_id tm = n -> P.tm_owner tm = i -> is_scheduler tm = true ->
  (forall x, x ∈ tms -> scheduler_of i x = false) ->
  armed (S n) (tms ++ [tm]) (<[i := Some n]> hs).
Proof.
  intros H Hi Hid Ho Hs Hnone. pose proof (armed_fresh_id _ _ _ H) as Hnew.
  destruct H as [H1 [H2 [H3 [H4 H5]]]].
  split; [lia|].
  split.
  { apply Forall_app. split.
    - eapply Forall_impl; [exact H2|]. intros x Hx. cbn in Hx. lia.
    - apply Forall_singleton. lia. }
  split.
  { rewrite fmap_app. apply NoDup_app. split; [exact H3|]. split.
    - intros x Hx Hx'. cbn in Hx'. apply list_elem_of_singleton in Hx'. congruence.
    - cbn. apply NoDup_singleton. }
  split.
  - intros x Hin Hx. apply elem_of_app in Hin as [Hin|Hin].
    + destruct (decide (P.tm_owner x = i)) as [E|E].
      * specialize (Hnone x Hin). unfold scheduler_of in Hnone.
        rewrite Hx, E, Nat.eqb_refl in Hnone. discriminate.
      * rewrite list_lookup_insert_ne by congruence. auto.
    + apply list_elem_of_singleton in Hin. subst x.
      rewrite Ho, Hid. apply list_lookup_insert_eq. exact Hi.
  - intros j h Hh.
    apply list_lookup_insert_Some in Hh as [[<- [E _]]|[Hne Hh]].
    + injection E as <-. split; [lia|].
      intros x Hin Hx. apply elem_of_app in Hin as [Hin|Hin].
      * exfalso. apply Hnew. apply list_elem_of_fmap. eauto.
      * apply list_elem_of_singleton in Hin. subst x.
        apply scheduler_of_true. auto.
    + destruct (H5 j h Hh) as [Hr Htm]. split; [lia|].
      intros x Hin Hx. apply elem_of_app in Hin as [Hin|Hin]; [auto|].
      apply list_elem_of_singleton in Hin. subst x. lia.
Qed.

Lemma armed_new (n : nat) (tms : list P.Timer) (hs : list (option nat)) :
  armed n tms hs -> armed n tms (hs ++ [None]).
Proof.
  intros [H1 [H2 [H3 [H4 H5]]]].
  split; [exact H1|]. split; [exact H2|]. split; [exact H3|]. split.
  - intros tm Hin Hs. apply lookup_app_l_Some. auto.
  - intros i h Hh. apply lookup_app_Some in Hh as [Hh|[_ Hh]]; [auto|].
    apply list_lookup_singleton_Some in Hh as [_ Hh]. discriminate.
Qed.

Lemma cleared_elem (h : option nat) (tms : list P.Timer) (tm : P.Timer) :
  tm ∈ cleared h tms -> tm ∈ tms /\ (truthy_handle h = true -> Some (P.tm_id tm) <> h).
Proof.
  unfold cleared. destruct (truthy_handle h).
  - intros Hin. apply drop_timer_elem in Hin as [Hin Hne]. split; [exact Hin|].
    intros _ E. rewrite <- E in Hne. apply Hne. reflexivity.
  - intros Hin. split; [exact Hin | discriminate].
Qed.

Lemma cleared_no_scheduler (n : nat) (i : P.Ref) (h : option nat) (tms : list P.Timer)
    (hs : list (option nat)) :
  armed n tms hs -> hs !! i = Some h ->
  forall tm, tm ∈ cleared h tms -> scheduler_of i tm = false.
Proof.
  intros [H1 [H2 [H3 [H4 H5]]]] Hh tm Hin.
  apply cleared_elem in Hin as [Hin Hne].
  destruct (scheduler_of i tm) eqn:E; [|reflexivity]. exfalso.
  apply scheduler_of_true in E as [Hs Ho].
  specialize (H4 tm Hin Hs). rewrite Ho, Hh in H4. injection H4 as ->.
  apply Hne; [|reflexivity].
  rewrite Forall_forall in H2. specialize (H2 tm Hin). cbn.
  apply negb_true_iff, Nat.eqb_neq. lia.
Qed.

Lemma dispatch_armed (i : P.Ref) (m : P.M unit) (w : World) :
  timer_discipline m -> well_armed w -> well_armed (snd (dispatch i m w)).
Proof.
  intros Hm Hw. unfold dispatch.
  destruct (surfaces w !! i) as [p|] eqn:Hp; [|exact Hw].
  assert (Hh : (P.saveStateInterval <$> surfaces w) !! i = Some (P.saveStateInterval p)).
  { rewrite list_lookup_fmap. exact (f_equal (fmap P.saveStateInterval) Hp). }
  unfold well_armed, timers_of in *. cbn [snd w_env surfaces].
  rewrite list_fmap_insert.
  destruct (Hm {| P.self := i; P.this := p; P.env := w_env w |})
    as [Ht Hn Hs | tm Ht Hid Hsch Hn Hs | Ht Hn Hs
        | tm1 tm2 Ht Hid1 Ho1 Hs1 Hid2 Hs2 Hn Hs];
    cbn [P.self P.this P.env] in *; rewrite Ht, Hn, Hs.
  - rewrite list_insert_id by exact Hh. exact Hw.
  - rewrite list_insert_id by exact Hh. apply armed_timeout; assumption.
  - rewrite list_insert_id by exact Hh. apply armed_drop. exact Hw.
  - apply armed_timeout; [|exact Hid2|exact Hs2].
    apply armed_scheduler; try assumption.
    + apply armed_cleared. exact Hw.
    + rewrite length_fmap. eapply lookup_lt_Some. exact Hp.
    + eapply cleared_no_scheduler; [exact Hw | exact Hh].
Qed.

Lemma step_armed (w : World) (ev : Event) : well_armed w -> well_armed (step w ev).
Proof.
  intros Hw. unfold step. destruct ev; cbn [handle].
  - exact Hw.
  - unfold well_armed, timers_of in *. cbn. rewrite fmap_app. apply armed_new. exact Hw.
  - apply dispatch_armed; [apply ngOnInit_discipline | exact Hw].
  - apply dispatch_armed; [apply ngOnDestroy_discipline | exact Hw].
  - apply dispatch_armed; [apply onPlayerReady_discipline | exact Hw].
  - apply dispatch_armed; [apply onStateChange_discipline | exact Hw].
  - apply dispatch_armed; [apply syncWith_discipline | exact Hw].
  - unfold fire.
    destruct (List.find _ _) as [tm|]; [|exact Hw].
    destruct (P.tm_due tm <=? _); [|exact Hw].
    apply dispatch_armed; [apply run_callback_discipline|].
    unfold well_armed, timers_of in *. cbn.
    destruct (P.tm_period tm); [apply armed_rearm | apply armed_drop]; exact Hw.
  - exact Hw.
  - exact Hw.
Qed.

Lemma run_armed (evs : list Event) (w : World) : well_armed w -> well_armed (run evs w).
Proof.
  revert w. induction evs as [|ev evs IH]; intros w Hw; cbn.
  - exact Hw.
  - apply IH, step_armed, Hw.
Qed.

Lemma boot_armed (cfg : S.VideoConfig) (now : Z) : well_armed (boot cfg now).
Proof.
  unfold well_armed, armed. cbn.
  split; [lia|]. split; [constructor|]. split; [constructor|].
  split.
  - intros tm Hin. apply elem_of_nil in Hin. contradiction.
  - intros i h Hh. discriminate.
Qed.

Lemma reachable_armed (cfg : S.VideoConfig) (t0 : Z) (evs : list Event) :
  well_armed (run evs (boot cfg t0)).
Proof. apply run_armed, boot_armed. Qed.

Lemma filter_unique {A : Type} (f : A -> nat) (P : A -> bool) (a : nat) (l : list A) :
  NoDup (f <$> l) ->
  (forall x, x ∈ l -> P x = true -> f x = a) ->
  (length (List.filter P l) <= 1)%nat.
Proof.
  induction l as [|x l IH]; cbn; [lia|].
  rewrite NoDup_cons. intros [Hx Hl] Ha.
  assert (Ha' : forall y, y ∈ l -> P y = true -> f y = a).
  { intros y Hy. apply Ha. right. exact Hy. }
  destruct (P x) eqn:Px; [|auto].
  assert (Hnone : List.filter P l = []).
  { destruct (List.filter P l) as [|y k] eqn:E; [reflexivity|]. exfalso.
    assert (Hy : In y (List.filter P l)) by (rewrite E; left; reflexivity).
    apply filter_In in Hy as [Hy Py]. apply list_elem_of_In in Hy.
    apply Hx. apply list_elem_of_fmap. exists y. split; [|exact Hy].
    rewrite (Ha x) by (left || exact Px). symmetry. apply Ha'; assumption. }
  rewrite Hnone. cbn. lia.
Qed.

Lemma filter_filter_negb {A : Type} (P : A -> bool) (l : list A) :
  List.filter P (List.filter (fun x => negb (P x)) l) = [].
Proof.
  induction l as [|x l IH]; cbn; [reflexivity|].
  destruct (P x) eqn:E; cbn; [exact IH|]. rewrite E. exact IH.
Qed.

Lemma filter_all {A : Type} (P : A -> bool) (l : list A) :
  (forall x, x ∈ l -> P x = true) -> List.filter P l = l.
Proof.
  induction l as [|x l IH]; cbn; intros H; [reflexivity|].
  rewrite (H x) by left. f_equal. apply IH. intros y Hy. apply H. right. exact Hy.
Qed.

Lemma ngOnDestroy_timers (c : P.Ctx) :
  P.timers (P.env (snd (P.ngOnDestroy c)))
  = cleared (P.saveStateInterval (P.this c)) (P.timers (P.env c)).
Proof.
  open_ctx c. destruct saveStateInterval as [[|k]|];
    run_method; unfold cleared; cbn -[P.drop_timer]; repeat split_branch; reflexivity.
Qed.

Lemma cleared_is_filter (n : nat) (i : P.Ref) (h : option nat) (tms : list P.Timer)
    (hs : list (option nat)) :
  armed n tms hs -> hs !! i = Some h ->
  cleared h tms = List.filter (fun tm => negb (scheduler_of i tm)) tms.
Proof.
  intros Hw Hh. pose proof (cleared_no_scheduler _ _ _ _ _ Hw Hh) as Hnone.
  destruct Hw as [H1 [H2 [H3 [H4 H5]]]].
  destruct h as [id|].
  - destruct (H5 i id Hh) as [Hr Htm].
    unfold cleared. cbn. rewrite (proj2 (Nat.eqb_neq id 0)) by lia. cbn.
    unfold P.drop_timer. apply filter_ext_in. intros tm Hin.
    apply list_elem_of_In in Hin. f_equal.
    destruct (P.tm_id tm =? id)%nat eqn:E.
    + apply Nat.eqb_eq in E. symmetry. auto.
    + apply Nat.eqb_neq in E. destruct (scheduler_of i tm) eqn:Es; [|reflexivity].
      exfalso. apply scheduler_of_true in Es as [Hs Ho].
      specialize (H4 tm Hin Hs). rewrite Ho, Hh in H4. congruence.
  - unfold cleared. cbn. symmetry. apply filter_all.
    intros tm Hin. rewrite (Hnone tm Hin). reflexivity.
Qed.

(** X15. In any state the application reaches, a surface has at most one
    periodic scheduler pending, however often its engine became ready, and
    that scheduler is the one whose handle the surface keeps in
    [saveStateInterval]. *)
Theorem one_scheduler_per_surface (cfg : S.VideoConfig) (t0 : Z) (evs : list Event)
    (i : P.Ref) :
  let w := run evs (boot cfg t0) in
  (length (schedulers i w) <= 1)%nat
  /\ (forall tm, In tm (schedulers i w) ->
        exists p, surfaces w !! i = Some p
                  /\ P.saveStateInterval p = Some (P.tm_id tm)).
Proof.
  intros w. destruct (reachable_armed cfg t0 evs) as [H1 [H2 [H3 [H4 H5]]]].
  fold w in H1, H2, H3, H4, H5.
  assert (Hown : forall tm, tm ∈ timers_of w -> scheduler_of i tm = true ->
            (P.saveStateInterval <$> surfaces w) !! i = Some (Some (P.tm_id tm))).
  { intros tm Hin Hs. apply scheduler_of_true in Hs as [Hs Ho].
    rewrite <- Ho. apply H4; assumption. }
  split.
  - unfold schedulers.
    apply (filter_unique P.tm_id _
             (default O (default None ((P.saveStateInterval <$> surfaces w) !! i))));
      [exact H3|].
    intros tm Hin Hs. rewrite (Hown tm Hin Hs). reflexivity.
  - intros tm Hin. unfold schedulers in Hin. apply filter_In in Hin as [Hin Hs].
    apply list_elem_of_In in Hin. specialize (Hown tm Hin Hs).
    rewrite list_lookup_fmap in Hown. unfold P.Ref in *.
    destruct (surfaces w !! i) as [p|]; cbn in Hown; [|discriminate Hown].
    exists p. split; [reflexivity|]. congruence.
Qed.

(** X16. In any state the application reaches, [ngOnDestroy] of a
    surface cancels the periodic scheduler of that surface and no other
    timer: the timeouts the surface armed before, and every timer of the
    other surfaces, stay pending. *)
Theorem destroy_cancels_scheduler_only (cfg : S.VideoConfig) (t0 : Z) (evs : list Event)
    (i : P.Ref) :
  let w := run evs (boot cfg t0) in
  let w1 := step w (NgOnDestroy i) in
  timers_of w1 = List.filter (fun tm => negb (scheduler_of i tm)) (timers_of w)
  /\ schedulers i w1 = [].
Proof.
  intros w w1. pose proof (reachable_armed cfg t0 evs) as Hw. fold w in Hw.
  assert (Ht : timers_of w1
               = List.filter (fun tm => negb (scheduler_of i tm)) (timers_of w)).
  { unfold w1, step. cbn [handle]. unfold dispatch.
    destruct (surfaces w !! i) as [p|] eqn:Hp.
    - unfold timers_of at 1. cbn [snd w_env]. rewrite ngOnDestroy_timers. cbn [P.this P.env].
      eapply cleared_is_filter; [exact Hw|].
      rewrite list_lookup_fmap. exact (f_equal (fmap P.saveStateInterval) Hp).
    - cbn [snd]. destruct Hw as [_ [_ [_ [H4 _]]]].
      symmetry. apply filter_all. intros tm Hin.
      destruct (scheduler_of i tm) eqn:Es; [|reflexivity]. exfalso.
      apply scheduler_of_true in Es as [Hs Ho].
      specialize (H4 tm Hin Hs).
      rewrite Ho, list_lookup_fmap in H4. unfold P.Ref in *.
      rewrite Hp in H4. discriminate H4. }
  split; [exact Ht|]. unfold schedulers. rewrite Ht. apply filter_filter_negb.
Qed.

Lemma cleared_below (n : nat) (h : option nat) (l : list P.Timer) :
  Forall (fun tm => (P.tm_id tm < n)%nat) l ->
  Forall (fun tm => (P.tm_id tm < n)%nat) (cleared h l).
Proof.
  intros H. unfold cleared. destruct (truthy_handle h); [apply drop_timer_below|]; exact H.
Qed.

Lemma cleared_snoc (n : nat) (h : option nat) (l : list P.Timer) (tm : P.Timer) :
  P.tm_id tm = n -> (forall id, h = Some id -> (id < n)%nat) ->
  cleared h (l ++ [tm]) = cleared h l ++ [tm].
Proof.
  intros Hid Hh. unfold cleared. destruct (truthy_handle h) eqn:E; [|reflexivity].
  destruct h as [id|]; [|discriminate E].
  unfold P.drop_timer. rewrite List.filter_app. cbn.
  specialize (Hh id eq_refl). rewrite Hid.
  rewrite (proj2 (Nat.eqb_neq n id)) by lia. reflexivity.
Qed.

Lemma handle_below (w : World) (i : P.Ref) (p : P.t) :
  well_armed w -> surfaces w !! i = Some p ->
  forall id, P.saveStateInterval p = Some id -> (id < P.nextTimer (w_env w))%nat.
Proof.
  intros [_ [_ [_ [_ H5]]]] Hp id Hid.
  destruct (H5 i id) as [Hr _]; [|lia].
  rewrite list_lookup_fmap. rewrite <- Hid. exact (f_equal (fmap P.saveStateInterval) Hp).
Qed.

Lemma armed_fresh (w : World) : well_armed w -> timers_fresh w.
Proof.
  intros [_ [H2 _]]. unfold timers_fresh, fresh_env.
  eapply Forall_impl; [exact H2|]. intros tm Htm. cbn in Htm. lia.
Qed.

(** X17. In a state the application has reached, the engine of a ready
    main surface reports ENDED and the surface is destroyed before the
    recovery timer is due. [ngOnDestroy] flushes the engine's position and
    state into the store; the recovery timer is still pending, and once
    100 ms have passed it seeks the engine of the destroyed surface to 0,
    calls play, and makes its gated write, so that the store shows
    [{currentTime: 0, playerState: 1, isPlaying: true}] in place of the
    flushed values when the slot is empty or holds this surface's id. *)
Theorem recovery_survives_destroy (cfg : S.VideoConfig) (t0 : Z) (evs : list Event)
    (i : P.Ref) (p : P.t) (h : P.EngineRef) (d : Z) :
  let w := run evs (boot cfg t0) in
  surfaces w !! i = Some p ->
  P.isMainPlayer p = true -> P.player p = Some h -> P.isPlayerReady p = true ->
  100 <= d ->
  let n := P.nextTimer (w_env w) in
  let time := P.engineTime (P.telemetry (w_env w) h) in
  let code := P.engineState (P.telemetry (w_env w) h) in
  let w1 := run [StateChange i 0; NgOnDestroy i] w in
  let w2 := run [Elapse d; Fire n] w1 in
  store w1
  = S.forceUpdateState (clock_of w) (P.telemetry_flush time code code (clock_of w)) (store w)
  /\ playback (snapshot w1) = (time, code, code =? 1)
  /\ engineLog w2 = engineLog w1 ++ [(h, P.E_seekTo 0 true); (h, P.E_playVideo)]
  /\ store w2
     = S.updateState (clock_of w + d) P.playing_from_start (P.playerId p) (store w1)
  /\ (token_empty (store w) \/ token w = Some (P.playerId p) ->
      playback (snapshot w2) = (0%Q, 1, true)).
Proof.
  intros w.
  assert (Harmed : well_armed w) by apply reachable_armed.
  clearbody w. intros Hp Hm Hh Hr Hd n time code w1 w2.
  pose proof (armed_fresh w Harmed) as Hfresh.
  pose proof (handle_below w i p Harmed Hp) as Hbelow.
  assert (Hi : (i < length (surfaces w))%nat) by (eapply lookup_lt_Some; eauto).
  unfold engineLog, clock_of, store, token, snapshot, timers_fresh, fresh_env in *.
  destruct w as [[k sv tl lg tms nt outs] surf]. destruct p.
  cbn in Hp, Hm, Hh, Hr, Hi, Hfresh, Hbelow, n, time, code. subst.
  set (kept := cleared saveStateInterval tms).
  assert (Hkept : Forall (fun tm => (P.tm_id tm < n)%nat) kept)
    by (apply cleared_below; exact Hfresh).
  pose proof (fresh_other _ _ Hkept) as Hother.
  set (restart := {| P.tm_id := n; P.tm_owner := i; P.tm_due := k + 100;
                     P.tm_period := None; P.tm_callback := P.CbRestartLoop |}).
  assert (Hc : cleared saveStateInterval (tms ++ [restart]) = kept ++ [restart]).
  { apply (cleared_snoc n); [reflexivity | exact Hbelow]. }
  eassert (E1 : w1 = {| w_env := {| P.timers := kept ++ [restart] |} |}).
  { unfold w1, run, step. cbn [fold_left handle]. unfold dispatch.
    cbn [surfaces w_env]. rewrite Hp.
    run_method. cbn. rewrite list_lookup_insert_eq by exact Hi.
    rewrite <- Hc. unfold cleared, restart, n.
    destruct saveStateInterval as [[|j]|], videoStateSubscription;
      cbn -[P.drop_timer]; rewrite ?list_insert_insert_eq; reflexivity. }
  clearbody kept.
  eassert (E2 : w2 = _).
  { unfold w2, run, step, n. cbn [fold_left handle].
    rewrite E1. unfold fire. cbn -[P.drop_timer].
    erewrite find_fresh; [|reflexivity|exact Hother]. cbn -[P.drop_timer].
    rewrite (proj2 (Z.leb_le _ _)) by lia.
    rewrite drop_timer_last by (reflexivity || exact Hother).
    unfold dispatch. cbn. rewrite list_lookup_insert_eq by exact Hi.
    run_method. cbn. rewrite list_insert_insert_eq. reflexivity. }
  split; [|split; [|split; [|split]]].
  - rewrite E1. reflexivity.
  - rewrite E1. reflexivity.
  - rewrite E2, E1. cbn. rewrite <- (app_assoc _ [_] [_]). reflexivity.
  - rewrite E2, E1. cbn. f_equal. lia.
  - intros Hok. rewrite E2. cbn.
    rewrite updateState_accepted by (apply refused_false; exact Hok).
    reflexivity.
Qed.

Lemma recovery_survives_destroy_witness :
  let w1 := run [StateChange 0%nat 0; NgOnDestroy 0%nat] main_at_120 in
  let w2 := run [Elapse 100; Fire 3%nat] w1 in
  playback (snapshot w1) = (120%Q, 1, true)
  /\ playback (snapshot w2) = (0%Q, 1, true).
Proof.
  intros w1 w2.
  destruct (recovery_survives_destroy S.repoVideoConfig 1000 playing_trace 0%nat
              (P.this (ctx_at 0%nat main_at_120)) 0%nat 100)
    as [_ [H1 [_ [_ H2]]]];
    [vm_compute; reflexivity | vm_compute; reflexivity | vm_compute; reflexivity
    | vm_compute; reflexivity | lia |].
  assert (Hok : token_empty (store (run playing_trace (boot S.repoVideoConfig 1000)))
                \/ token (run playing_trace (boot S.repoVideoConfig 1000))
                   = Some (P.playerId (P.this (ctx_at 0%nat main_at_120))))
    by (right; vm_compute; reflexivity).
  specialize (H2 Hok).
  split.
  - vm_compute in H1 |- *. exact H1.
  - vm_compute in H2 |- *. exact H2.
Defined.

(** * The holder of the authority slot *)

Ltac crush_claim c :=
  open_ctx c; run_method; unfold P.setupPlayerConfig; cbn;
  repeat split_branch; rewrite ?updateState_token; auto.

Lemma ngOnInit_as_main : claims_as_main P.ngOnInit.
Proof. intros c. crush_claim c. Qed.

Lemma ngOnDestroy_as_main : claims_as_main P.ngOnDestroy.
Proof. intros c. crush_claim c. Qed.

Lemma onPlayerReady_as_main (target : P.EngineRef) : claims_as_main (P.onPlayerReady target).
Proof. intros c. crush_claim c. Qed.

Lemma onStateChange_as_main (data : Z) : claims_as_main (P.onStateChange data).
Proof. intros c. crush_claim c. Qed.

Lemma syncWith_as_main (time : Q) (state : Z) : claims_as_main (P.syncWith time state).
Proof. intros c. crush_claim c. Qed.

Lemma run_callback_as_main (cb : P.Callback) : claims_as_main (P.run_callback cb).
Proof. intros c. destruct cb; crush_claim c. Qed.

Lemma dispatch_held (i : P.Ref) (m : P.M unit) (w : World) :
  claims_as_main m -> held_by_main w -> held_by_main (snd (dispatch i m w)).
Proof.
  intros Hm Hw. unfold dispatch.
  destruct (surfaces w !! i) as [p|] eqn:Hp; [|exact Hw].
  assert (Hi : (i < length (surfaces w))%nat) by (eapply lookup_lt_Some; eauto).
  destruct (Hm {| P.self := i; P.this := p; P.env := w_env w |}) as [Hrole [Hid Htok]].
  cbn [P.this P.env] in Hrole, Hid, Htok.
  unfold held_by_main, token, store in *. cbn [snd w_env surfaces].
  destruct Htok as [Htok|[Hmain Htok]]; rewrite Htok.
  - destruct Hw as [Hw|[j [q [Hq [Hmq Hw]]]]]; [left; exact Hw|].
    right. destruct (decide (j = i)) as [->|Hne].
    + assert (E : Some q = Some p) by exact (eq_trans (eq_sym Hq) Hp).
      injection E as ->.
      eexists i, _. split; [apply list_lookup_insert_eq; exact Hi|].
      rewrite Hrole, Hid. auto.
    + exists j, q. split; [|auto].
      rewrite list_lookup_insert_ne by congruence. exact Hq.
  - right. eexists i, _. split; [apply list_lookup_insert_eq; exact Hi|].
    rewrite Hrole, Hid. auto.
Qed.

Lemma step_held (w : World) (ev : Event) :
  no_direct_claim ev = true -> held_by_main w -> held_by_main (step w ev).
Proof.
  intros Hev Hw. unfold step. destruct ev; cbn [handle].
  - exact Hw.
  - unfold held_by_main, token, store in *. cbn.
    destruct Hw as [Hw|[j [q [Hq Hw]]]]; [left; exact Hw|].
    right. exists j, q. split; [|exact Hw]. apply lookup_app_l_Some. exact Hq.
  - apply dispatch_held; [apply ngOnInit_as_main | exact Hw].
  - apply dispatch_held; [apply ngOnDestroy_as_main | exact Hw].
  - apply dispatch_held; [apply onPlayerReady_as_main | exact Hw].
  - apply dispatch_held; [apply onStateChange_as_main | exact Hw].
  - apply dispatch_held; [apply syncWith_as_main | exact Hw].
  - unfold fire.
    destruct (List.find _ _) as [tm|]; [|exact Hw].
    destruct (P.tm_due tm <=? _); [|exact Hw].
    apply dispatch_held; [apply run_callback_as_main|].
    exact Hw.
  - exact Hw.
  - unfold held_by_main, token, store in *. cbn in *.
    apply negb_true_iff in Hev. rewrite call_token by exact Hev. exact Hw.
Qed.

Lemma run_held (evs : list Event) (w : World) :
  forallb no_direct_claim evs = true -> held_by_main w -> held_by_main (run evs w).
Proof.
  revert w. induction evs as [|ev evs IH]; intros w Hevs Hw; cbn in *.
  - exact Hw.
  - apply andb_true_iff in Hevs as [Hev Hevs].
    apply IH; [exact Hevs | apply step_held; assumption].
Qed.

(** X18. As long as no other party calls [setActivePlayer] on the store
    directly, the authority slot of any state the application reaches is
    empty or holds the id of a main surface: the lifecycle hooks, the
    engine events and the timers of a follower never put its id in the
    slot, and with followers only the slot stays empty. *)
Theorem token_held_by_main (cfg : S.VideoConfig) (t0 : Z) (evs : list Event) :
  forallb no_direct_claim evs = true ->
  let w := run evs (boot cfg t0) in
  held_by_main w
  /\ (Forall (fun p => P.isMainPlayer p = false) (surfaces w) -> token w = None).
Proof.
  intros Hevs w.
  assert (Hw : held_by_main w).
  { apply run_held; [exact Hevs|]. left. reflexivity. }
  split; [exact Hw|].
  intros Hall. destruct Hw as [Hw|[j [q [Hq [Hm _]]]]]; [exact Hw|].
  rewrite Forall_forall in Hall.
  assert (Hin : q ∈ surfaces w) by (apply list_elem_of_lookup; eauto).
  rewrite (Hall q Hin) in Hm. discriminate.
Qed.

Lemma token_held_by_main_witness :
  held_by_main follower_created.
Proof.
  destruct (token_held_by_main S.repoVideoConfig 1000 follower_trace) as [H _].
  - vm_compute. reflexivity.
  - exact H.
Defined.

(** * The call service and the containers *)

Lemma decode_decimal (k : Z) : 1 <= k -> read_digits (decimal k) = Some k.
Proof.
  intros Hk. destruct k as [|p|p]; try lia.
  unfold read_digits, decimal. cbn [Z.to_int NilZero.string_of_int].
  rewrite NilZero.usu.
  - cbn. unfold Z.of_uint. rewrite DecimalPos.Unsigned.of_to. reflexivity.
  - intros E. pose proof (DecimalPos.Unsigned.of_to p) as H. rewrite E in H. discriminate H.
Qed.

Lemma decode_zeros (n : nat) (s : string) :
  s <> ""%string -> read_digits (CS.zeros_then n s) = read_digits s.
Proof.
  intros Hs. induction n as [|n IH]; cbn [CS.zeros_then]; [reflexivity|].
  rewrite <- IH. unfold read_digits.
  destruct (CS.zeros_then n s) as [|a r] eqn:E.
  - exfalso. destruct n; cbn in E; [congruence | discriminate E].
  - cbn. destruct (uint_of_char a _); reflexivity.
Qed.

Lemma decimal_nonempty (k : Z) : 1 <= k -> decimal k <> ""%string.
Proof.
  intros Hk E. pose proof (decode_decimal k Hk) as H. rewrite E in H. discriminate H.
Qed.

Lemma decode_padStart (k : Z) : 1 <= k -> read_digits (CS.padStart 3 (decimal k)) = Some k.
Proof.
  intros Hk. unfold CS.padStart.
  rewrite decode_zeros by (apply decimal_nonempty; exact Hk).
  apply decode_decimal, Hk.
Qed.

Lemma padStart_inj (k1 k2 : Z) :
  1 <= k1 -> 1 <= k2 ->
  CS.padStart 3 (decimal k1) = CS.padStart 3 (decimal k2) -> k1 = k2.
Proof.
  intros H1 H2 E. pose proof (decode_padStart k1 H1) as D1.
  rewrite E, decode_padStart in D1 by exact H2. congruence.
Qed.

Lemma append_inj_l (x y t u : string) :
  String.length x = String.length y -> (x ++ t = y ++ u)%string -> x = y /\ t = u.
Proof.
  revert y. induction x as [|a x IH]; intros [|b y] Hl E; cbn in Hl; try discriminate.
  - split; [reflexivity | exact E].
  - unfold String.append in E; fold String.append in E. injection E as -> E.
    destruct (IH y) as [-> ->]; [lia | exact E | split; reflexivity].
Qed.

Lemma generateNewCall_service (rnd : CS.Random) (w : CL.World) :
  CL.service (CL.generateNewCall rnd w) = CL.service w
  \/ service_step (CL.service w) (CL.service (CL.generateNewCall rnd w)).
Proof.
  unfold CL.generateNewCall.
  destruct (CS.generateCall (CL.clock w) rnd (CL.service w)) as [[c s1]|] eqn:E; [|left; reflexivity].
  right. cbn. eapply ss_call. exact E.
Qed.

Lemma step_service (w : CL.World) (ev : CL.Event) :
  CL.service (CL.step w ev) = CL.service w \/ service_step (CL.service w) (CL.service (CL.step w ev)).
Proof.
  destruct ev as [ms|rnd| |k rnd]; cbn [CL.step].
  - left. reflexivity.
  - apply generateNewCall_service.
  - left. reflexivity.
  - unfold CL.fire. destruct (CL.timers w !! k) as [tm|]; [|left; reflexivity].
    destruct (CL.tm_due tm <=? CL.clock w); [|left; reflexivity].
    destruct (CL.tm_callback tm); cbn [CL.run_callback].
    + right. cbn. apply ss_reset.
    + destruct (CM.AppState_eqb _ _); [|left; reflexivity].
      match goal with |- context [CL.generateNewCall rnd ?x] =>
        exact (generateNewCall_service rnd x) end.
Qed.

Lemma run_service (P : CS.t -> Prop) :
  (forall s s', P s -> service_step s s' -> P s') ->
  forall evs w, P (CL.service w) -> P (CL.service (CL.run evs w)).
Proof.
  intros Hstep evs. induction evs as [|ev evs IH]; intros w Hw; cbn; [exact Hw|].
  apply IH. destruct (step_service w ev) as [E|E]; [rewrite E; exact Hw|].
  eapply Hstep; eauto.
Qed.

(** ** The history window *)

Lemma generateCall_frame (now : Z) (rnd : CS.Random) (s s1 : CS.t) (c : CM.CallData) :
  CS.generateCall now rnd s = Some (c, s1) ->
  CS.currentStateSubject s1 = CS.currentStateSubject s
  /\ CS.currentCallSubject s1 = CS.currentCallSubject s
  /\ CS.callHistorySubject s1 = CS.callHistorySubject s
  /\ CS.callHistory s1 = CS.callHistory s.
Proof.
  unfold CS.generateCall. destruct (CS.at_index _ _); [|discriminate].
  intros E. injection E as _ <-. repeat split.
Qed.

Lemma generated_announce (c : CM.CallData) (s : CS.t) :
  generated (CS.announce c s) = generated s ++ [c].
Proof. unfold generated. cbn. rewrite omap_app. reflexivity. Qed.

Lemma generated_backToDefault (s : CS.t) : generated (CS.backToDefault s) = generated s.
Proof. unfold generated. cbn. rewrite omap_app. cbn. apply app_nil_r. Qed.

Lemma unshift_window (c : CM.CallData) (l : list CM.CallData) :
  (if (4 <? length (c :: take 4 l))%nat then take 4 (c :: take 4 l) else c :: take 4 l)
  = take 4 (c :: l).
Proof.
  destruct (4 <? length (c :: take 4 l))%nat eqn:E.
  - cbn. rewrite take_take. reflexivity.
  - apply Nat.ltb_ge in E. cbn in E. rewrite length_take in E.
    cbn. f_equal. rewrite !take_ge by lia. reflexivity.
Qed.

Lemma step_windowed (s s' : CS.t) : windowed s -> service_step s s' -> windowed s'.
Proof.
  intros [Hh Hv] [now rnd c s1 Hgen|].
  - destruct (generateCall_frame _ _ _ _ _ Hgen) as [_ [Hcall [_ Hhist]]].
    unfold windowed. rewrite generated_announce. cbn.
    assert (Hg : generated s1 = generated s) by (unfold generated; rewrite Hcall; reflexivity).
    rewrite Hg, reverse_snoc, Hhist, Hh. split; [|reflexivity].
    apply unshift_window.
  - unfold windowed. rewrite generated_backToDefault. cbn. split; assumption.
Qed.

Lemma create_windowed : windowed CS.create.
Proof. split; reflexivity. Qed.

Lemma reachable_windowed (now : Z) (evs : list CL.Event) :
  windowed (CL.service (CL.run evs (CL.boot now))).
Proof. apply run_service; [apply step_windowed | apply create_windowed]. Qed.

(** X19. In any state the call service reaches, [callHistory] holds the
    four most recent calls announced, newest first (all of them when fewer
    were announced), and it is the value last published on
    [callHistory$]; [getLastCall] answers the newest call and
    [getCallHistory] the up to three calls before it. *)
Theorem history_window (now : Z) (evs : list CL.Event) :
  let s := CL.service (CL.run evs (CL.boot now)) in
  let newest_first := reverse (generated s) in
  CS.callHistory s = take 4 newest_first
  /\ S.value (CS.callHistorySubject s) = CS.callHistory s
  /\ (length (CS.callHistory s) <= 4)%nat
  /\ CS.getLastCall s = newest_first !! O
  /\ CS.getCallHistory s = take 3 (drop 1 newest_first).
Proof.
  intros s newest_first. destruct (reachable_windowed now evs) as [Hh Hv].
  fold s in Hh, Hv. fold newest_first in Hh.
  split; [exact Hh|]. split; [exact Hv|]. split; [|split].
  - rewrite Hh, length_take. lia.
  - unfold CS.getLastCall. rewrite Hh.
    destruct newest_first as [|c l]; reflexivity.
  - unfold CS.getCallHistory. rewrite Hh.
    destruct newest_first as [|c l]; reflexivity.
Qed.

(** ** The state and the call on display *)

Lemma step_on_display (s s' : CS.t) : on_display s -> service_step s s' -> on_display s'.
Proof.
  intros _ [now rnd c s1 Hgen|]; unfold on_display, CS.getCurrentState, CS.getCurrentCall,
    CS.getLastCall; cbn.
  - split; [split; eauto|].
    intros c' E. injection E as <-.
    destruct (match length (CS.callHistory s1) with
              | S (S (S (S _))) => true
              | _ => false
              end); reflexivity.
  - split; [split; [discriminate | intros [x Hx]; discriminate]|]. discriminate.
Qed.

(** X20. In any state the call service reaches, the state is CALLING
    exactly when a current call is set, and the current call is then the
    newest call announced, the one [getLastCall] answers. *)
Theorem call_on_display (now : Z) (evs : list CL.Event) :
  let s := CL.service (CL.run evs (CL.boot now)) in
  (CS.getCurrentState s = CM.CALLING <-> is_Some (CS.getCurrentCall s))
  /\ (forall c, CS.getCurrentCall s = Some c ->
        CS.getLastCall s = Some c /\ last (generated s) = Some c).
Proof.
  intros s.
  assert (H : on_display s /\ (forall c, CS.getCurrentCall s = Some c ->
                                  last (generated s) = Some c)).
  { unfold s. apply (run_service (fun s => on_display s
       /\ (forall c, CS.getCurrentCall s = Some c -> last (generated s) = Some c))).
    - intros s0 s' [Hd Hl] Hstep. split; [eapply step_on_display; eauto|].
      destruct Hstep as [now' rnd c s1 Hgen|].
      + intros c' E. rewrite generated_announce, last_snoc.
        unfold CS.getCurrentCall in E. cbn in E. exact E.
      + intros c' E. unfold CS.getCurrentCall in E. cbn in E. discriminate E.
    - split; [|discriminate]. split; [split; [discriminate | intros [x Hx]; discriminate]|].
      discriminate. }
  destruct H as [[H1 H2] H3]. split; [exact H1|]. intros c Hc. split; auto.
Qed.

(** ** Passwords *)

Ltac acronym_case :=
  match goal with
  | |- context [String.eqb ?a ?sp] =>
      let E := fresh "E" in
      destruct (String.eqb a sp) eqn:E;
        [apply String.eqb_eq in E; subst sp; cbn; intros H; injection H as <-;
         unfold acronym_pairs; auto 10 |]
  end.

Lemma acronym_cases (sp acr : string) :
  CS.acronym_of sp = Some acr -> acronym_pairs sp acr.
Proof.
  unfold CS.acronym_of, CS.specialtyAcronyms. cbn [List.find fst snd].
  do 5 acronym_case. cbn. discriminate.
Qed.

Lemma code_inj (sp1 sp2 a1 a2 x y : string) :
  CS.acronym_of sp1 = Some a1 -> CS.acronym_of sp2 = Some a2 ->
  (a1 ++ "-" ++ x ++ "N" = a2 ++ "-" ++ y ++ "N")%string ->
  sp1 = sp2 /\ (x ++ "N" = y ++ "N")%string.
Proof.
  intros H1 H2 E.
  apply acronym_cases in H1. apply acronym_cases in H2. unfold acronym_pairs in *.
  destruct H1 as [[-> ->]|[[-> ->]|[[-> ->]|[[-> ->]| [-> ->]]]]];
    destruct H2 as [[-> ->]|[[-> ->]|[[-> ->]|[[-> ->]| [-> ->]]]]];
    unfold String.append in E; fold String.append in E;
    first [discriminate E | injection E as E; split; [reflexivity | exact E]].
Qed.

Lemma at_index_elem {A : Type} (l : list A) (index : float) (x : A) :
  CS.at_index l index = Some x -> x ∈ l.
Proof.
  unfold CS.at_index. destruct (CS.to_integer index) as [z|]; [|discriminate].
  destruct ((0 <=? z) && (z <? Z.of_nat (length l))); [|discriminate].
  intros E. apply list_elem_of_lookup. eauto.
Qed.

Lemma doctor_known (index : float) (d : CS.Doctor) :
  CS.at_index CS.mockDoctors index = Some d ->
  exists acr, CS.acronym_of (CS.doc_specialty d) = Some acr
    /\ VideoPlayer.js_or (CS.acronym_of (CS.doc_specialty d)) "GEN" = acr.
Proof.
  intros Hd. apply at_index_elem in Hd. unfold CS.mockDoctors in Hd.
  repeat (apply elem_of_cons in Hd as [->|Hd]; [eexists; split; reflexivity|]).
  apply elem_of_nil in Hd. destruct Hd.
Qed.

Lemma js_incr_counter (n : Z) :
  0 <= n -> CS.js_incr (Some (CS.Num (counter_after n))) = CS.Num (counter_after (n + 1)).
Proof.
  intros Hn. unfold CS.js_incr, counter_after.
  destruct (Z.le_gt_cases (n + 1) CS.two_53) as [Hle|Hgt].
  - rewrite (Z.min_l n), (Z.min_l (n + 1)) by lia.
    rewrite (proj2 (Z.leb_le _ _)) by lia. reflexivity.
  - rewrite (Z.min_r n), (Z.min_r (n + 1)) by lia. reflexivity.
Qed.

Lemma count_snoc (sp : string) (g : list CM.CallData) (c : CM.CallData) :
  calls_for sp (g ++ [c]) = calls_for sp g + (if same_specialty sp c then 1 else 0).
Proof.
  unfold calls_for. rewrite List.filter_app, length_app. cbn.
  destruct (same_specialty sp c); cbn; lia.
Qed.

Lemma count_app_le (sp : string) (g k : list CM.CallData) : calls_for sp g <= calls_for sp (g ++ k).
Proof. unfold calls_for. rewrite List.filter_app, length_app. lia. Qed.

Lemma count_nonneg (sp : string) (g : list CM.CallData) : 0 <= calls_for sp g.
Proof. unfold calls_for. lia. Qed.

Lemma create_ranked : ranked CS.create.
Proof.
  split.
  - intros sp [acr Hacr]. apply acronym_cases in Hacr. unfold acronym_pairs in Hacr.
    destruct Hacr as [[-> _]|[[-> _]|[[-> _]|[[-> _]| [-> _]]]]]; reflexivity.
  - intros j c Hj. cbn in Hj. discriminate Hj.
Qed.

Lemma same_specialty_refl (c : CM.CallData) : same_specialty (CM.specialty c) c = true.
Proof. apply String.eqb_refl. Qed.

Lemma step_ranked (s s' : CS.t) : ranked s -> service_step s s' -> ranked s'.
Proof.
  intros [Hc Hs] [now rnd c s1 Hgen|].
  - pose proof Hgen as Hgen'. unfold CS.generateCall in Hgen'.
    destruct (CS.at_index _ _) as [d|] eqn:Hd; [|discriminate].
    destruct (doctor_known _ _ Hd) as [acr [Hacr Hor]].
    injection Hgen' as Ec Es1.
    assert (Hg1 : generated s1 = generated s) by (rewrite <- Es1; reflexivity).
    assert (Hsp : CM.specialty c = CS.doc_specialty d) by (rewrite <- Ec; reflexivity).
    assert (Hold : CS.specialtyCounters s !! CS.doc_specialty d
                   = Some (CS.Num (counter_after (calls_for (CS.doc_specialty d) (generated s)))))
      by (apply Hc; eauto).
    split.
    + intros sp Hknown. rewrite generated_announce, Hg1, count_snoc.
      cbn. rewrite <- Es1. cbn.
      unfold same_specialty. rewrite Hsp.
      destruct (String.eqb (CS.doc_specialty d) sp) eqn:E.
      * apply String.eqb_eq in E. subst sp.
        rewrite lookup_insert_eq, Hold, js_incr_counter by apply count_nonneg.
        reflexivity.
      * apply String.eqb_neq in E.
        rewrite lookup_insert_ne by exact E. rewrite Hc by exact Hknown.
        do 3 f_equal. lia.
    + rewrite generated_announce, Hg1. intros j c' Hj.
      apply lookup_app_Some in Hj as [Hj|[Hlen Hj]].
      * destruct (Hs j c' Hj) as [acr' [Ha Hp]]. exists acr'. split; [exact Ha|].
        rewrite Hp. do 3 f_equal.
        symmetry. apply take_app_le. apply lookup_lt_Some in Hj. lia.
      * apply list_lookup_singleton_Some in Hj as [Hj <-].
        exists acr. rewrite Hsp. split; [exact Hacr|].
        assert (Ej : S j = length (generated s ++ [c])) by (rewrite length_app; cbn; lia).
        rewrite Ej, firstn_all, count_snoc.
        unfold same_specialty. rewrite Hsp, String.eqb_refl.
        rewrite <- Ec. cbn [CM.password]. rewrite Hor, Hold.
        rewrite js_incr_counter by apply count_nonneg. reflexivity.
  - split.
    + intros sp Hknown. rewrite generated_backToDefault. cbn. apply Hc. exact Hknown.
    + rewrite generated_backToDefault. exact Hs.
Qed.

Lemma length_append (x t : string) :
  String.length (x ++ t) = (String.length x + String.length t)%nat.
Proof.
  induction x as [|a x IH]; [reflexivity|].
  unfold String.append; fold String.append. cbn. rewrite IH. reflexivity.
Qed.

Lemma append_inj_r (x y t : string) : (x ++ t = y ++ t)%string -> x = y.
Proof.
  intros E. apply (append_inj_l x y t t); [|exact E].
  apply (f_equal String.length) in E. rewrite !length_append in E. lia.
Qed.

Lemma count_upto (g : list CM.CallData) (j : nat) (c : CM.CallData) :
  g !! j = Some c ->
  calls_for (CM.specialty c) (take (S j) g) = calls_for (CM.specialty c) (take j g) + 1.
Proof.
  intros Hj. rewrite (take_S_r _ _ _ Hj), count_snoc, same_specialty_refl. reflexivity.
Qed.

Lemma count_take_le (sp : string) (g : list CM.CallData) (i j : nat) :
  (i <= j)%nat -> calls_for sp (take i g) <= calls_for sp (take j g).
Proof.
  intros Hij. rewrite <- (take_drop i (take j g)), take_take.
  replace (i `min` j)%nat with i by lia. apply count_app_le.
Qed.

Lemma count_take_all (sp : string) (g : list CM.CallData) (j : nat) :
  calls_for sp (take j g) <= calls_for sp g.
Proof.
  rewrite <- (take_drop j g) at 2. apply count_app_le.
Qed.

Lemma sequential_distinct (g : list CM.CallData) (i j : nat) (ci cj : CM.CallData) :
  sequential g -> (forall sp, calls_for sp g <= CS.two_53) ->
  (i < j)%nat -> g !! i = Some ci -> g !! j = Some cj ->
  CM.password ci <> CM.password cj.
Proof.
  intros Hs Hfew Hij Hi Hj E.
  destruct (Hs i ci Hi) as [ai [Hai Hpi]]. destruct (Hs j cj Hj) as [aj [Haj Hpj]].
  rewrite Hpi, Hpj in E. unfold password_for in E.
  destruct (code_inj _ _ _ _ _ _ Hai Haj E) as [Hsp Epad].
  apply append_inj_r in Epad.
  pose proof (count_take_all (CM.specialty ci) g (S i)) as Hti.
  pose proof (count_take_all (CM.specialty cj) g (S j)) as Htj.
  pose proof (Hfew (CM.specialty ci)) as Hfi. pose proof (Hfew (CM.specialty cj)) as Hfj.
  unfold counter_after in Epad. rewrite !Z.min_l in Epad by lia.
  rewrite (count_upto g i ci Hi), (count_upto g j cj Hj) in Epad.
  apply padStart_inj in Epad.
  - rewrite <- Hsp in Epad.
    pose proof (count_take_le (CM.specialty ci) g (S i) j ltac:(lia)) as Hle.
    rewrite (count_upto g i ci Hi) in Hle. lia.
  - pose proof (count_nonneg (CM.specialty ci) (take i g)). lia.
  - pose proof (count_nonneg (CM.specialty cj) (take j g)). lia.
Qed.

Lemma sequential_NoDup (g : list CM.CallData) :
  sequential g -> (forall sp, calls_for sp g <= CS.two_53) -> NoDup (CM.password <$> g).
Proof.
  intros Hs Hfew. apply NoDup_alt. intros i j x Hi Hj.
  rewrite list_lookup_fmap in Hi, Hj.
  destruct (g !! i) as [ci|] eqn:Ei; [|discriminate Hi].
  destruct (g !! j) as [cj|] eqn:Ej; [|discriminate Hj].
  cbn in Hi, Hj. injection Hi as Hi. injection Hj as Hj.
  destruct (lt_eq_lt_dec i j) as [[Hlt|Heq]|Hgt]; [|exact Heq|]; exfalso.
  - apply (sequential_distinct g i j ci cj Hs Hfew Hlt Ei Ej). congruence.
  - apply (sequential_distinct g j i cj ci Hs Hfew Hgt Ej Ei). congruence.
Qed.

Lemma reachable_ranked (now : Z) (evs : list CL.Event) :
  ranked (CL.service (CL.run evs (CL.boot now))).
Proof. apply run_service; [apply step_ranked | apply create_ranked]. Qed.

(** X21. In any state the call service reaches, the counter of each
    specialty is a number, never [NaN]: the number of calls announced for
    that specialty as long as this is at most [2^53], and [2^53] from then
    on, where the increment of a double no longer moves it. The password
    of every call announced is the acronym of its specialty (never
    ["GEN"]), a dash, what the counter read after the call was counted,
    that is the smaller of the rank of the call among the calls of its
    specialty and [2^53], padded to three digits, and ["N"]. As long as no
    specialty has had more than [2^53] calls, the passwords announced are
    pairwise distinct. *)
Theorem passwords_sequential (now : Z) (evs : list CL.Event) :
  let s := CL.service (CL.run evs (CL.boot now)) in
  let g := generated s in
  (forall j c, g !! j = Some c ->
     exists acronym, CS.acronym_of (CM.specialty c) = Some acronym
       /\ CM.password c
          = password_for acronym
              (Z.min (calls_for (CM.specialty c) (take j g) + 1) CS.two_53))
  /\ ((forall sp, calls_for sp g <= CS.two_53) -> NoDup (CM.password <$> g))
  /\ (forall sp, is_Some (CS.acronym_of sp) ->
        CS.specialtyCounters s !! sp = Some (CS.Num (Z.min (calls_for sp g) CS.two_53))).
Proof.
  intros s g. destruct (reachable_ranked now evs) as [Hc Hs]. fold s in Hc, Hs. fold g in Hs.
  split; [|split].
  - intros j c Hj. destruct (Hs j c Hj) as [acr [Ha Hp]]. exists acr. split; [exact Ha|].
    rewrite Hp, (count_upto g j c Hj). reflexivity.
  - intros Hfew. apply sequential_NoDup; assumption.
  - exact Hc.
Qed.

(** ** Rounded products

    [Math.random() * n] is the double nearest to the exact product. For a
    draw below 1 the exact product is at most [n - n * 2^-53], more than
    half a unit in the last place below [n]: the nearest double is below
    [n] too, and so is what [Math.floor] makes of it. *)

(** [digits2_pos] counts the binary digits. *)
Lemma digits2_pos_bounds (p : positive) :
  2 ^ (Z.pos (digits2_pos p) - 1) <= Z.pos p < 2 ^ Z.pos (digits2_pos p).
Proof.
  induction p as [p IH|p IH|]; cbn [digits2_pos].
  - rewrite Pos2Z.inj_succ.
    replace (Z.succ (Z.pos (digits2_pos p)) - 1) with (Z.succ (Z.pos (digits2_pos p) - 1)) by lia.
    rewrite !Z.pow_succ_r by lia. lia.
  - rewrite Pos2Z.inj_succ.
    replace (Z.succ (Z.pos (digits2_pos p)) - 1) with (Z.succ (Z.pos (digits2_pos p) - 1)) by lia.
    rewrite !Z.pow_succ_r by lia. lia.
  - cbn. lia.
Qed.

Lemma shr_1_shifted (M j : Z) (mrs : shr_record) :
  shifted M j mrs -> shifted M (j + 1) (shr_1 mrs).
Proof.
  intros [Hj [Hm [rem [Hrem [HM Hr]]]]].
  assert (Hpow : 2 ^ (j + 1) = 2 * 2 ^ j) by (rewrite Z.pow_add_r by lia; lia).
  assert (Hpos : 0 < 2 ^ j) by (apply Z.pow_pos_nonneg; lia).
  destruct mrs as [m r s]. cbn [shr_m shr_r] in *.
  unfold shifted. rewrite Hpow.
  destruct m as [|[p|p|]|p]; cbn [shr_1 shr_m shr_r]; try lia.
  - split; [lia|]. split; [lia|]. exists rem. split; [lia|]. split; [lia|]. discriminate.
  - split; [lia|]. split; [lia|]. exists (2 ^ j + rem). split; [lia|]. split; [lia|]. lia.
  - split; [lia|]. split; [lia|]. exists rem. split; [lia|]. split; [lia|]. discriminate.
  - split; [lia|]. split; [lia|]. exists (2 ^ j + rem). split; [lia|]. split; [lia|]. lia.
Qed.

Lemma iter_shr_1_shifted (p : positive) (M j : Z) (mrs : shr_record) :
  shifted M j mrs -> shifted M (j + Z.pos p) (SpecFloat.iter_pos shr_1 p mrs).
Proof.
  revert j mrs. induction p as [p IH|p IH|]; intros j mrs H; cbn [SpecFloat.iter_pos].
  - replace (j + Z.pos p~1) with (j + 1 + Z.pos p + Z.pos p) by lia.
    apply IH, IH, shr_1_shifted, H.
  - replace (j + Z.pos p~0) with (j + Z.pos p + Z.pos p) by lia.
    apply IH, IH, H.
  - apply shr_1_shifted, H.
Qed.

Lemma shifted_start (M : Z) : 0 <= M -> shifted M 0 {| shr_m := M; shr_r := false; shr_s := false |}.
Proof.
  intros HM. split; [lia|]. split; [exact HM|]. exists 0. cbn. split; [lia|]. split; [lia|].
  discriminate.
Qed.

Lemma round_nearest_even_bounds (mrs : shr_record) :
  let m2 := round_nearest_even (shr_m mrs) (loc_of_shr_record mrs) in
  shr_m mrs <= m2 <= shr_m mrs + 1 /\ (shr_r mrs = false -> m2 = shr_m mrs).
Proof.
  destruct mrs as [m [|] [|]]; cbn; try destruct (Z.even m); lia.
Qed.

Lemma fexp_64 (k : Z) : fexp prec emax k = Z.max (k - 53) (-1074).
Proof. reflexivity. Qed.

Lemma digits_le (m : positive) (k : Z) :
  0 <= k -> Z.pos m < 2 ^ k -> Z.pos (digits2_pos m) <= k.
Proof.
  intros Hk H. destruct (digits2_pos_bounds m) as [Hlo _].
  assert (Hlt : 2 ^ (Z.pos (digits2_pos m) - 1) < 2 ^ k) by lia.
  apply Z.pow_lt_mono_r_iff in Hlt; lia.
Qed.

Lemma pow_split (a b : Z) : 0 <= a -> 0 <= b -> 2 ^ (a + b) = 2 ^ a * 2 ^ b.
Proof. intros. apply Z.pow_add_r; assumption. Qed.

Lemma digits_below (n m e : Z) :
  1 <= n <= 16 -> e < 0 -> 0 <= m < n * 2 ^ (- e) -> 0 <= Zdigits2 m /\ Zdigits2 m + e <= 4.
Proof.
  intros Hn He Hm. destruct m as [|p|p]; cbn [Zdigits2]; try lia.
  split; [lia|].
  assert (Hpos : 0 < 2 ^ (- e)) by (apply Z.pow_pos_nonneg; lia).
  assert (Hlt : Z.pos p < 2 ^ (4 - e)).
  { replace (4 - e) with (4 + - e) by lia. rewrite pow_split by lia.
    change (2 ^ 4) with 16. nia. }
  pose proof (digits_le p (4 - e) ltac:(lia) Hlt). lia.
Qed.

(** Bringing a significand to its canonical exponent only drops bits: a
    value below [n] stays below [n]. *)
Lemma shr_fexp_below (n m e : Z) :
  1 <= n <= 16 -> e < 0 -> 0 <= m < n * 2 ^ (- e) ->
  let res := shr_fexp prec emax m e loc_Exact in
  snd res < 0 /\ 0 <= shr_m (fst res) < n * 2 ^ (- snd res).
Proof.
  intros Hn He Hm res. unfold res, shr_fexp. rewrite fexp_64.
  destruct (digits_below n m e Hn He Hm) as [Hk0 Hk].
  set (e2 := Z.max (Zdigits2 m + e - 53) (-1074)).
  assert (He2 : e2 < 0) by (unfold e2; lia).
  unfold shr. cbn [shr_record_of_loc].
  destruct (e2 - e) as [|d|d] eqn:Ed; cbn [fst snd shr_m]; try (split; [lia|exact Hm]).
  assert (Hsh := iter_shr_1_shifted d m 0 _ (shifted_start m (proj1 Hm))).
  destruct Hsh as [_ [Hm3 [rem [Hrem [HM _]]]]].
  replace (e + Z.pos d) with e2 by lia.
  split; [exact He2|]. split; [exact Hm3|].
  assert (Hpow : 2 ^ (- e) = 2 ^ (- e2) * 2 ^ (0 + Z.pos d)).
  { rewrite <- pow_split by lia. f_equal. lia. }
  assert (HD : 0 < 2 ^ (0 + Z.pos d)) by (apply Z.pow_pos_nonneg; lia).
  assert (HQ : 0 < 2 ^ (- e2)) by (apply Z.pow_pos_nonneg; lia).
  rewrite Hpow in Hm. nia.
Qed.

(** The first shift followed by rounding to nearest, ties to even. The
    value [M * 2^E] is at most [n - n * 2^-53]; the rounded significand
    is still below [n] at the new exponent: rounding up to [n] would take
    shifted-out bits worth half a unit right below [n], and half a unit
    there is less than [n * 2^-53]. *)
Lemma shr_fexp_round_below (n : Z) (M : positive) (E : Z) :
  1 <= n <= 16 -> E < 0 -> Z.pos M * 2 ^ 53 <= n * (2 ^ 53 - 1) * 2 ^ (- E) ->
  let res := shr_fexp prec emax (Z.pos M) E loc_Exact in
  let m2 := round_nearest_even (shr_m (fst res)) (loc_of_shr_record (fst res)) in
  snd res < 0 /\ 0 <= m2 < n * 2 ^ (- snd res).
Proof.
  intros Hn HE HM res m2.
  assert (HP : 0 < 2 ^ (- E)) by (apply Z.pow_pos_nonneg; lia).
  assert (Hlt : Z.pos M < n * 2 ^ (- E)).
  { change (2 ^ 53) with 9007199254740992 in HM. nia. }
  destruct (digits_below n (Z.pos M) E Hn HE ltac:(lia)) as [_ Hk].
  destruct (digits2_pos_bounds M) as [Hlo _].
  unfold m2, res, shr_fexp. rewrite fexp_64. cbn [Zdigits2] in *.
  set (k := Z.pos (digits2_pos M)) in *.
  set (e1 := Z.max (k + E - 53) (-1074)).
  assert (He1 : e1 < 0) by (unfold e1; lia).
  unfold shr. cbn [shr_record_of_loc].
  destruct (e1 - E) as [|d|d] eqn:Ed; cbn [fst snd shr_m loc_of_shr_record round_nearest_even];
    try (split; [lia|]; lia).
  assert (Hsh := iter_shr_1_shifted d (Z.pos M) 0 _ (shifted_start (Z.pos M) ltac:(lia))).
  set (mrs := SpecFloat.iter_pos shr_1 d _) in *.
  destruct Hsh as [_ [Hm1 [rem [Hrem [HMeq Hr]]]]].
  destruct (round_nearest_even_bounds mrs) as [Hb Hexact]. cbv zeta in Hb, Hexact.
  replace (E + Z.pos d) with e1 by lia.
  split; [exact He1|]. split; [lia|].
  assert (Hpow : 2 ^ (- E) = 2 ^ (- e1) * 2 ^ (0 + Z.pos d)).
  { rewrite <- pow_split by lia. f_equal. lia. }
  set (D := 2 ^ (0 + Z.pos d)) in *. set (Q := 2 ^ (- e1)) in *.
  assert (HD : 0 < D) by (apply Z.pow_pos_nonneg; lia).
  assert (HQ : 0 < Q) by (apply Z.pow_pos_nonneg; lia).
  rewrite Hpow in Hlt, HM.
  assert (Hm1lt : shr_m mrs < n * Q) by nia.
  destruct (shr_r mrs) eqn:Er; [|rewrite Hexact by reflexivity; exact Hm1lt].
  specialize (Hr eq_refl).
  destruct (Z.lt_ge_cases (shr_m mrs + 1) (n * Q)) as [Hok|Hbad]; [lia|exfalso].
  (* the significand is the last one below [n] and the bits shifted out
     make at least half a unit *)
  assert (Hm1eq : shr_m mrs = n * Q - 1) by lia.
  change (2 ^ 53) with 9007199254740992 in HM.
  assert (HnQ : n * Q <= 4503599627370496).
  { rewrite HMeq, Hm1eq in HM. nia. }
  assert (Hk2 : 2 ^ (k - 1) < 2 ^ (52 + Z.pos d)).
  { rewrite pow_split by lia. change (2 ^ 52) with 4503599627370496.
    replace (2 ^ Z.pos d) with D by (unfold D; f_equal).
    nia. }
  apply Z.pow_lt_mono_r_iff in Hk2; [|lia|lia].
  assert (E1 : e1 = -1074) by (unfold e1 in *; lia).
  assert (HQbig : 2 ^ 52 < Q).
  { unfold Q. rewrite E1. apply Z.pow_lt_mono_r; lia. }
  change (2 ^ 52) with 4503599627370496 in HQbig. nia.
Qed.

(** The double nearest to a value of at most [n - n * 2^-53] is zero or
    a positive double below [n], with fractional bits. *)
Lemma binary_round_aux_below (n : Z) (M : positive) (E : Z) :
  1 <= n <= 16 -> E < 0 -> Z.pos M * 2 ^ 53 <= n * (2 ^ 53 - 1) * 2 ^ (- E) ->
  binary_round_aux prec emax false (Z.pos M) E loc_Exact = S754_zero false
  \/ exists m e, binary_round_aux prec emax false (Z.pos M) E loc_Exact = S754_finite false m e
       /\ e < 0 /\ Z.pos m < n * 2 ^ (- e).
Proof.
  intros Hn HE HM. unfold binary_round_aux.
  pose proof (shr_fexp_round_below n M E Hn HE HM) as HA. cbv zeta in HA.
  destruct (shr_fexp prec emax (Z.pos M) E loc_Exact) as [mrs1 e1]. cbn [fst snd] in HA.
  destruct HA as [He1 Hm2].
  pose proof (shr_fexp_below n _ e1 Hn He1 Hm2) as HB. cbv zeta in HB.
  destruct (shr_fexp prec emax _ e1 loc_Exact) as [mrs2 e2]. cbn [fst snd] in HB.
  destruct HB as [He2 Hm3].
  destruct (shr_m mrs2) as [|m|m]; [left; reflexivity| |lia].
  right. exists m, e2. rewrite (proj2 (Z.leb_le e2 (emax - prec))) by (unfold emax, prec; lia).
  split; [reflexivity|]. split; [exact He2 | lia].
Qed.

Lemma one_double :
  exists c, Z.pos c = 2 ^ 52 /\ Prim2SF 1 = S754_finite false c (-52).
Proof. exists 4503599627370496%positive. split; reflexivity. Qed.

(** A double of [0, 1) is a zero or a positive double with an exponent
    of at most -53: at most [1 - 2^-53]. *)
Lemma unit_double (r : float) :
  in_unit r = true ->
  (exists s, Prim2SF r = S754_zero s)
  \/ exists m e, Prim2SF r = S754_finite false m e /\ e <= -53 /\ Z.pos m < 2 ^ 53.
Proof.
  unfold in_unit. intros H. apply andb_true_iff in H as [H0 H1].
  rewrite leb_spec in H0. rewrite ltb_spec in H1.
  pose proof (Prim2SF_valid r) as Hv.
  change (Prim2SF 0) with (S754_zero false) in H0.
  destruct one_double as [c [Hc1 Hone]]. rewrite Hone in H1. clear Hone.
  destruct (Prim2SF r) as [s|s| |s m e].
  - left. exists s. reflexivity.
  - destruct s; discriminate.
  - discriminate.
  - destruct s; [discriminate|]. right. exists m, e. split; [reflexivity|].
    unfold valid_binary, bounded, canonical_mantissa in Hv.
    apply andb_true_iff in Hv as [Hc _]. apply Z.eqb_eq in Hc. rewrite fexp_64 in Hc.
    destruct (digits2_pos_bounds m) as [Hlo Hhi].
    assert (Hd : Z.pos (digits2_pos m) <= 53) by lia.
    assert (Hm : Z.pos m < 2 ^ 53).
    { eapply Z.lt_le_trans; [exact Hhi|]. apply Z.pow_le_mono_r; lia. }
    split; [|exact Hm].
    unfold SFltb, SFcompare in H1.
    destruct (Z.compare_spec e (-52)) as [Ee|Ee|Ee]; [|lia|discriminate H1].
    exfalso. rewrite Pos.compare_cont_spec in H1. unfold Pos.switch_Eq in H1.
    destruct (Pos.compare_spec m c) as [Em|Em|Em]; try discriminate H1.
    assert (Hd53 : Z.pos (digits2_pos m) = 53) by lia.
    rewrite Hd53 in Hlo. change (53 - 1) with 52 in Hlo. lia.
Qed.

(** [Math.floor(r * n)] for a draw [r] of [0, 1) and the double [nf] of
    an integer [n] up to 16: a zero or one of the integers [0 .. n - 1]. *)
Lemma floor_product_below (r nf : float) (n : Z) (mn : positive) (en : Z) :
  in_unit r = true ->
  Prim2SF nf = S754_finite false mn en -> en < 0 -> Z.pos mn = n * 2 ^ (- en) ->
  1 <= n <= 16 ->
  let x := CS.Math_floor (PrimFloat.mul r nf) in
  (exists s, Prim2SF x = S754_zero s) \/ exists q, 0 <= q < n /\ x = CS.float_of_Z q.
Proof.
  intros Hr Hnf Hen Hmn Hn x. unfold x, CS.Math_floor.
  assert (Hmul : Prim2SF (PrimFloat.mul r nf) = SFmul prec emax (Prim2SF r) (Prim2SF nf))
    by apply mul_spec.
  rewrite Hnf in Hmul.
  destruct (unit_double r Hr) as [[s Hs]|[m [e [Hs [He Hm]]]]]; rewrite Hs in Hmul;
    cbn [SFmul xorb] in Hmul.
  - rewrite Hmul. left. exists (xorb s false). exact Hmul.
  - destruct (binary_round_aux_below n (m * mn) (e + en)) as [Hz|[m' [e' [Hf [He' Hm']]]]].
    + exact Hn.
    + lia.
    + rewrite Pos2Z.inj_mul, Hmn.
      replace (- (e + en)) with (- e + - en) by lia. rewrite pow_split by lia.
      assert (HA : 2 ^ 53 <= 2 ^ (- e)) by (apply Z.pow_le_mono_r; lia).
      assert (HB : 0 < 2 ^ (- en)) by (apply Z.pow_pos_nonneg; lia).
      set (A := 2 ^ (- e)) in *. set (B := 2 ^ (- en)) in *.
      change (2 ^ 53) with 9007199254740992 in *.
      assert (H1 : Z.pos m * 9007199254740992 <= (9007199254740992 - 1) * A) by (clear - Hm HA; nia).
      assert (HnB : 0 <= n * B) by (clear - Hn HB; nia).
      pose proof (Z.mul_le_mono_nonneg_r _ _ (n * B) HnB H1) as H2.
      clear - H2. lia.
    + rewrite Hz in Hmul. rewrite Hmul. left. exists false. exact Hmul.
    + rewrite Hf in Hmul. rewrite Hmul.
      rewrite (proj2 (Z.ltb_lt e' 0)) by exact He'.
      assert (HP : 0 < 2 ^ (- e')) by (apply Z.pow_pos_nonneg; lia).
      right. exists (Z.pos m' / 2 ^ (- e')). split; [|reflexivity]. split.
      * apply Z.div_pos; lia.
      * apply Z.div_lt_upper_bound; lia.
Qed.

Lemma five_double :
  Prim2SF (CS.float_of_Z (Z.of_nat (length CS.mockDoctors)))
  = S754_finite false 5629499534213120 (-50).
Proof. reflexivity. Qed.

Lemma ten_double : Prim2SF 10 = S754_finite false 5629499534213120 (-49).
Proof. reflexivity. Qed.

Lemma doctor_in_range (rnd : CS.Random) :
  in_unit (CS.r_doctor rnd) = true ->
  exists doctor, CS.at_index CS.mockDoctors (CS.doctorIndex rnd) = Some doctor.
Proof.
  intros H. unfold CS.doctorIndex.
  destruct (floor_product_below (CS.r_doctor rnd)
              (CS.float_of_Z (Z.of_nat (length CS.mockDoctors))) 5 _ _ H five_double)
    as [[s Hs]|[q [Hq Hx]]].
  - reflexivity.
  - reflexivity.
  - lia.
  - unfold CS.at_index, CS.to_integer. rewrite Hs. eexists. reflexivity.
  - rewrite Hx.
    assert (Hcases : q = 0 \/ q = 1 \/ q = 2 \/ q = 3 \/ q = 4) by lia.
    destruct Hcases as [->|[->|[->|[->| ->]]]]; eexists; reflexivity.
Qed.

Lemma guichet_in_range (rnd : CS.Random) :
  in_unit (CS.r_guichet rnd) = true ->
  exists g, 1 <= g <= 10 /\ CS.guichetNumber rnd = CS.float_of_Z g.
Proof.
  intros H. unfold CS.guichetNumber.
  destruct (floor_product_below (CS.r_guichet rnd) 10%float 10 _ _ H ten_double)
    as [[s Hs]|[q [Hq Hx]]].
  - reflexivity.
  - reflexivity.
  - lia.
  - exists 1. split; [lia|].
    rewrite <- (SF2Prim_Prim2SF (CS.Math_floor _)), Hs. destruct s; reflexivity.
  - exists (q + 1). split; [lia|]. rewrite Hx.
    assert (Hcases : q = 0 \/ q = 1 \/ q = 2 \/ q = 3 \/ q = 4
                     \/ q = 5 \/ q = 6 \/ q = 7 \/ q = 8 \/ q = 9) by lia.
    destruct Hcases as [->|[->|[->|[->|[->|[->|[->|[->|[->| ->]]]]]]]]]; reflexivity.
Qed.

(** ** One call *)

Lemma generateCall_returns (now : Z) (rnd : CS.Random) (s : CS.t) (doctor : CS.Doctor) :
  CS.at_index CS.mockDoctors (CS.doctorIndex rnd) = Some doctor ->
  exists c s1,
    CS.generateCall now rnd s = Some (c, s1)
    /\ CM.doctorName c = CS.name doctor /\ CM.specialty c = CS.doc_specialty doctor
    /\ CM.id c = CS.r_id rnd /\ CM.timestamp c = now
    /\ CM.guichet c = CS.guichetNumber rnd.
Proof.
  intros Hat. unfold CS.generateCall. rewrite Hat.
  eexists _, _. split; [reflexivity|]. repeat split.
Qed.

(** X22. With the draws of [Math.random] doubles of the interval [0, 1),
    [generateNewCall] always announces a call: the rounded product of the
    first draw and 5, floored, is the index of one of the five doctors,
    whose name and specialty the call carries, and the rounded product of
    the last draw and 10, floored, plus 1 is a counter number between 1
    and 10; the call carries the id drawn and the clock reading as
    timestamp. The state becomes CALLING, the call is the current and the
    last call, the history is the former one with the call in front, cut
    to four, the tone is requested once and one timeout is armed 15 s
    ahead. *)
Theorem generateNewCall_announces (rnd : CS.Random) (w : CL.World) :
  draws_in_range rnd ->
  let w1 := CL.generateNewCall rnd w in
  exists c doctor g,
    CS.at_index CS.mockDoctors (CS.doctorIndex rnd) = Some doctor
    /\ doctor ∈ CS.mockDoctors
    /\ CM.doctorName c = CS.name doctor /\ CM.specialty c = CS.doc_specialty doctor
    /\ CM.id c = CS.r_id rnd /\ CM.timestamp c = CL.clock w
    /\ 1 <= g <= 10 /\ CM.guichet c = CS.float_of_Z g
    /\ CS.getCurrentState (CL.service w1) = CM.CALLING
    /\ CS.getCurrentCall (CL.service w1) = Some c
    /\ CS.getLastCall (CL.service w1) = Some c
    /\ CS.callHistory (CL.service w1) = take 4 (c :: CS.callHistory (CL.service w))
    /\ CL.playCallTone w1 = S (CL.playCallTone w)
    /\ CL.timers w1 = CL.timers w ++ [{| CL.tm_due := CL.clock w + 15000;
                                         CL.tm_period := None;
                                         CL.tm_callback := CL.CbBackToDefault |}].
Proof.
  intros [Hd Hg] w1.
  destruct (doctor_in_range rnd Hd) as [doctor Hat].
  destruct (guichet_in_range rnd Hg) as [g [Hrange Hgu]].
  destruct (generateCall_returns (CL.clock w) rnd (CL.service w) doctor Hat)
    as [c [s1 [Hgen [H1 [H2 [H3 [H4 H5]]]]]]].
  destruct (generateCall_frame _ _ _ _ _ Hgen) as [_ [_ [_ Hhist]]].
  exists c, doctor, g. unfold w1, CL.generateNewCall. rewrite Hgen.
  split; [exact Hat|]. split; [eapply at_index_elem; exact Hat|].
  do 4 (split; [assumption|]). split; [exact Hrange|].
  split; [rewrite H5; exact Hgu|].
  assert (Hh : CS.callHistory (CS.announce c s1)
               = take 4 (c :: CS.callHistory (CL.service w))).
  { cbn -[take Nat.ltb]. rewrite Hhist.
    destruct (4 <? S (length (CS.callHistory (CL.service w))))%nat eqn:E; [reflexivity|].
    apply Nat.ltb_ge in E. symmetry. apply take_ge. cbn. lia. }
  split; [reflexivity|]. split; [reflexivity|].
  split; [|split; [exact Hh|split; reflexivity]].
  unfold CS.getLastCall. cbn [CL.service]. rewrite Hh. reflexivity.
Qed.

(** ** Automatic calls *)

Lemma filter_delete_only {A : Type} (P : A -> bool) (l : list A) (k : nat) (x y : A) :
  l !! k = Some x -> P x = true -> List.filter P l = [y] ->
  x = y /\ List.filter P (delete k l) = [].
Proof.
  intros Hk Hx Hf. rewrite delete_take_drop, List.filter_app.
  rewrite <- (take_drop_middle l k x Hk), List.filter_app in Hf. cbn in Hf. rewrite Hx in Hf.
  destruct (List.filter P (take k l)) as [|a fa]; cbn in Hf |- *.
  - injection Hf as -> Hf. split; [reflexivity | exact Hf].
  - injection Hf as _ Hf. destruct fa; discriminate Hf.
Qed.

Lemma filter_insert_other {A : Type} (P : A -> bool) (l : list A) (k : nat) (x y : A) :
  l !! k = Some x -> P x = false -> P y = false ->
  List.filter P (<[k := y]> l) = List.filter P l.
Proof.
  intros Hk Hx Hy.
  rewrite insert_take_drop by (eapply lookup_lt_Some; eauto).
  rewrite <- (take_drop_middle l k x Hk) at 3.
  rewrite !List.filter_app. cbn. rewrite Hx, Hy. reflexivity.
Qed.

Lemma generateNewCall_undisturbed (rnd : CS.Random) (w : CL.World) :
  undisturbed w -> CS.getCurrentCall (CL.service w) = None ->
  undisturbed (CL.generateNewCall rnd w).
Proof.
  intros [Hk Hw] Hnone. rewrite Hnone in Hw. destruct Hw as [Hst Hres].
  unfold CL.generateNewCall.
  destruct (CS.generateCall (CL.clock w) rnd (CL.service w)) as [[c s1]|] eqn:Hgen.
  - assert (Hts : CM.timestamp c = CL.clock w).
    { unfold CS.generateCall in Hgen. destruct (CS.at_index _ _); [|discriminate].
      injection Hgen as <- _. reflexivity. }
    split.
    + cbn. apply Forall_app. split; [exact Hk|]. apply Forall_singleton. reflexivity.
    + unfold CS.getCurrentCall, CS.getCurrentState, pending_resets in *. cbn.
      split; [reflexivity|]. rewrite List.filter_app, Hres, Hts. reflexivity.
  - split; [exact Hk|]. rewrite Hnone. split; assumption.
Qed.

Lemma step_undisturbed (w : CL.World) (ev : CL.Event) :
  manual ev = false -> undisturbed w ->
  undisturbed (CL.step w ev)
  /\ (forall c, CS.getCurrentCall (CL.service w) = Some c ->
        CS.getCurrentCall (CL.service (CL.step w ev)) = Some c
        \/ (CS.getCurrentCall (CL.service (CL.step w ev)) = None
            /\ CM.timestamp c + 15000 <= CL.clock w)).
Proof.
  intros Hev Hw. destruct ev as [ms|rnd| |k rnd]; cbn [CL.step]; try discriminate Hev.
  - split; [exact Hw | auto].
  - split; [|auto]. destruct Hw as [Hk Hw]. split.
    + cbn. apply Forall_app. split; [exact Hk|]. apply Forall_singleton. cbn. eauto.
    + unfold pending_resets in *. cbn. rewrite List.filter_app. cbn.
      rewrite app_nil_r. exact Hw.
  - unfold CL.fire. destruct (CL.timers w !! k) as [tm|] eqn:Ek; [|split; [exact Hw | auto]].
    destruct (CL.tm_due tm <=? CL.clock w) eqn:Edue; [|split; [exact Hw | auto]].
    apply Z.leb_le in Edue.
    pose proof Hw as [Hk Hcur].
    assert (Hkind : timer_kind tm)
      by (rewrite Forall_forall in Hk; apply Hk; eapply list_elem_of_lookup_2; eauto).
    unfold timer_kind in Hkind.
    destruct (CL.tm_callback tm) eqn:Ecb; cbn [CL.run_callback].
    + rewrite Hkind.
      assert (Hreset : is_reset tm = true) by (unfold is_reset; rewrite Ecb; reflexivity).
      destruct (CS.getCurrentCall (CL.service w)) as [c|] eqn:Ecall.
      * destruct Hcur as [Hst Hres].
        destruct (filter_delete_only is_reset (CL.timers w) k tm _ Ek Hreset Hres) as [Etm Hnone].
        split.
        -- split; [cbn; apply Forall_delete; exact Hk|].
           unfold CS.getCurrentCall, CS.getCurrentState, pending_resets. cbn.
           split; [reflexivity | exact Hnone].
        -- intros c' E. injection E as <-. right. split; [reflexivity|].
           rewrite Etm in Edue. exact Edue.
      * destruct Hcur as [_ Hres]. exfalso.
        assert (Hin : In tm (List.filter is_reset (CL.timers w))).
        { apply filter_In. split; [|exact Hreset].
          apply list_elem_of_In. eapply list_elem_of_lookup_2; eauto. }
        unfold pending_resets in Hres. rewrite Hres in Hin. exact Hin.
    + destruct Hkind as [period Hperiod]. rewrite Hperiod.
      assert (Hauto : is_reset tm = false) by (unfold is_reset; rewrite Ecb; reflexivity).
      set (w' := CL.with_timers _ w).
      assert (Hw' : undisturbed w').
      { split.
        - cbn. apply Forall_insert; [exact Hk|]. unfold timer_kind. cbn. rewrite ?Ecb. eauto.
        - unfold pending_resets, w'. cbn [CL.timers CL.service CL.with_timers].
          rewrite (filter_insert_other is_reset (CL.timers w) k tm _ Ek Hauto)
            by (unfold is_reset; cbn; rewrite ?Ecb; reflexivity).
          exact Hcur. }
      change (CL.service w) with (CL.service w').
      destruct (CM.AppState_eqb (CS.getCurrentState (CL.service w')) CM.DEFAULT) eqn:Est;
        [|split; [exact Hw' | auto]].
      assert (Hnone : CS.getCurrentCall (CL.service w') = None).
      { destruct Hw' as [_ Hcur']. destruct (CS.getCurrentCall (CL.service w')) as [c|];
          [|reflexivity]. destruct Hcur' as [Hc _]. rewrite Hc in Est. discriminate Est. }
      split; [apply generateNewCall_undisturbed; assumption|].
      intros c E. rewrite Hnone in E. discriminate E.
Qed.

Lemma run_undisturbed (evs : list CL.Event) (w : CL.World) :
  auto_only evs = true -> undisturbed w -> undisturbed (CL.run evs w).
Proof.
  revert w. induction evs as [|ev evs IH]; intros w Hevs Hw; cbn in *; [exact Hw|].
  apply andb_true_iff in Hevs as [Hev Hevs]. apply negb_true_iff in Hev.
  apply IH; [exact Hevs|]. apply step_undisturbed; assumption.
Qed.

Lemma boot_undisturbed (now : Z) : undisturbed (CL.boot now).
Proof. split; [constructor | split; reflexivity]. Qed.

(** X23. As long as calls are made by the automatic caller only, a call
    on display is never replaced by another one: either no call is
    displayed and no timeout is pending, or one call is displayed and the
    single pending timeout is due 15 s after it was made; and a call leaves
    the display only by that timeout, hence not before 15 s have passed. *)
Theorem auto_calls_never_overlap (now : Z) (evs : list CL.Event) (ev : CL.Event) :
  auto_only (evs ++ [ev]) = true ->
  let w := CL.run evs (CL.boot now) in
  undisturbed w
  /\ (forall c, CS.getCurrentCall (CL.service w) = Some c ->
        CS.getCurrentCall (CL.service (CL.step w ev)) = Some c
        \/ (CS.getCurrentCall (CL.service (CL.step w ev)) = None
            /\ CM.timestamp c + 15000 <= CL.clock w)).
Proof.
  intros Hevs w. unfold auto_only in Hevs. rewrite forallb_app in Hevs.
  apply andb_true_iff in Hevs as [Hevs Hev]. cbn in Hev. rewrite andb_true_r in Hev.
  apply negb_true_iff in Hev.
  assert (Hw : undisturbed w) by (apply run_undisturbed; [exact Hevs | apply boot_undisturbed]).
  split; [exact Hw|]. apply step_undisturbed; assumption.
Qed.

(** ** The two places of the video *)

Lemma highlight_deliver (vs : list CM.AppState) (v : CM.AppState) :
  let h := deliver Highlight.onState (vs ++ [v]) Highlight.create in
  Highlight.isCallingState h = CM.AppState_eqb v CM.CALLING
  /\ Highlight.showVideo h = CM.AppState_eqb v CM.DEFAULT.
Proof.
  intros h. unfold h, deliver. rewrite fold_left_app. cbn.
  set (h0 := fold_left _ vs Highlight.create).
  assert (Hinv : Highlight.isCallingState h0 = true -> Highlight.showVideo h0 = false).
  { unfold h0. clear. induction vs as [|x vs IH] using rev_ind; [discriminate|].
    rewrite fold_left_app. cbn.
    destruct x; cbn; [discriminate|]. intros _.
    destruct (Highlight.isCallingState _) eqn:E; cbn; [apply IH; reflexivity | reflexivity]. }
  destruct v; cbn; split; try reflexivity.
  destruct (Highlight.isCallingState h0); cbn; auto.
Qed.

Lemma sidebar_deliver (vs : list CM.AppState) (v : CM.AppState) :
  let sb := deliver Sidebar.onState (vs ++ [v]) Sidebar.create in
  Sidebar.isCallingState sb = CM.AppState_eqb v CM.CALLING
  /\ Sidebar.showMiniVideo sb = CM.AppState_eqb v CM.CALLING.
Proof.
  intros sb. unfold sb, deliver. rewrite fold_left_app. cbn.
  set (s0 := fold_left _ vs Sidebar.create).
  assert (Hinv : Sidebar.showMiniVideo s0 = Sidebar.isCallingState s0).
  { unfold s0. clear. induction vs as [|x vs IH] using rev_ind; [reflexivity|].
    rewrite fold_left_app. cbn.
    destruct x; cbn; destruct (Sidebar.isCallingState _) eqn:E; cbn; auto. }
  destruct v; cbn; split; try reflexivity;
    destruct (Sidebar.isCallingState s0); cbn; auto.
Qed.

(** X24. After any number of states delivered to the two containers,
    the last one being the same, the highlight shows its video exactly
    when the sidebar hides its mini video: the highlight shows it when the
    last state is DEFAULT and the sidebar when it is CALLING. *)
Theorem one_video_at_a_time (vs1 vs2 : list CM.AppState) (v : CM.AppState) :
  let h := deliver Highlight.onState (vs1 ++ [v]) Highlight.create in
  let sb := deliver Sidebar.onState (vs2 ++ [v]) Sidebar.create in
  Highlight.showVideo h = negb (Sidebar.showMiniVideo sb)
  /\ (Highlight.showVideo h = true <-> v = CM.DEFAULT)
  /\ (Sidebar.showMiniVideo sb = true <-> v = CM.CALLING)
  /\ Highlight.isCallingState h = Sidebar.isCallingState sb.
Proof.
  intros h sb.
  destruct (highlight_deliver vs1 v) as [H1 H2].
  destruct (sidebar_deliver vs2 v) as [H3 H4].
  fold h in H1, H2. fold sb in H3, H4.
  rewrite H1, H2, H3, H4. destruct v; cbn; repeat split; auto; discriminate.
Qed.

(** ** The sidebar comes up *)

(** X25. In any state the call service reaches, [loadInitialData]
    changes nothing of what the subscriptions of [ngOnInit] have just set
    in the sidebar: [lastCall] is the answer of [getLastCall],
    [callHistory] that of [getCallHistory], at most three calls, and
    [allHistory] the whole history of the service. *)
Theorem sidebar_init (now : Z) (evs : list CL.Event) (audio : bool) (sb : Sidebar.t) :
  let s := CL.service (CL.run evs (CL.boot now)) in
  let up := Sidebar.ngOnInit s audio sb in
  up = Sidebar.setupSubscriptions s audio sb
  /\ Sidebar.lastCall up = CS.getLastCall s
  /\ Sidebar.callHistory up = CS.getCallHistory s
  /\ Sidebar.allHistory up = CS.callHistory s
  /\ (length (Sidebar.callHistory up) <= 3)%nat.
Proof.
  intros s up. destruct (reachable_windowed now evs) as [Hh Hv]. fold s in Hh, Hv.
  assert (Hlen : (length (CS.callHistory s) <= 4)%nat) by (rewrite Hh, length_take; lia).
  assert (Hall : omap (fun x => x) (CS.getLastCall s :: (Some <$> CS.getCallHistory s))
                 = CS.callHistory s).
  { unfold CS.getLastCall, CS.getCallHistory.
    destruct (CS.callHistory s) as [|c l]; cbn; [reflexivity|]. f_equal.
    clear. induction l as [|x l IH]; cbn; [reflexivity|]. f_equal. exact IH. }
  assert (Htake : take 4 (drop 1 (CS.callHistory s)) = CS.getCallHistory s).
  { unfold CS.getCallHistory. apply take_ge. rewrite length_drop. lia. }
  assert (Hup : up = Sidebar.setupSubscriptions s audio sb).
  { unfold up, Sidebar.ngOnInit, Sidebar.loadInitialData, Sidebar.setupSubscriptions,
      Sidebar.onAudio, Sidebar.onHistory, Sidebar.onState.
    cbv zeta.
    cbn [Sidebar.isCallingState Sidebar.lastCall Sidebar.callHistory Sidebar.allHistory
         Sidebar.audioEnabled Sidebar.showMiniVideo].
    rewrite Hall, Hv, Htake. reflexivity. }
  split; [exact Hup|].
  unfold up, Sidebar.ngOnInit, Sidebar.loadInitialData. cbv zeta.
  cbn [Sidebar.lastCall Sidebar.callHistory Sidebar.allHistory].
  split; [reflexivity|]. split; [reflexivity|]. split; [exact Hall|].
  unfold CS.getCallHistory. rewrite length_drop. lia.
Qed.

(** The doubles nearest to 0.6 and to 0.7: the fourth doctor at the
    counter number 8. *)
Lemma generateNewCall_announces_witness :
  draws_in_range rounded_draws
  /\ CS.doctorIndex rounded_draws = 3%float
  /\ CS.guichetNumber rounded_draws = 8%float
  /\ exists c,
       CS.getCurrentCall (CL.service (CL.generateNewCall rounded_draws (CL.boot 1000))) = Some c
       /\ CS.getCurrentState (CL.service (CL.generateNewCall rounded_draws (CL.boot 1000)))
          = CM.CALLING
       /\ CM.doctorName c = "Mariana Costa"%string
       /\ CM.password c = "DERMA-001N"%string
       /\ CM.guichet c = 8%float.
Proof.
  assert (Hrange : draws_in_range rounded_draws) by (split; reflexivity).
  split; [exact Hrange|]. split; [reflexivity|]. split; [reflexivity|].
  destruct (generateNewCall_announces rounded_draws (CL.boot 1000) Hrange)
    as [c [doctor [g [_ [_ [_ [_ [_ [_ [_ [_ [Hst [Hcur _]]]]]]]]]]]]].
  exists c. split; [exact Hcur|]. split; [exact Hst|].
  vm_compute in Hcur. injection Hcur as <-. repeat split.
Defined.

Lemma auto_calls_never_overlap_witness :
  undisturbed (CL.run auto_trace (CL.boot 1000)).
Proof.
  destruct (auto_calls_never_overlap 1000 auto_trace (CL.Elapse 15000)) as [H _].
  - reflexivity.
  - exact H.
Defined.

(** Two calls for the same doctor, as the service numbers them. *)
Example two_calls_passwords :
  CM.password <$> generated (CL.service two_calls) = ["NEURO-001N"; "NEURO-002N"]%string.
Proof. vm_compute. reflexivity. Qed.

(** The increment of a counter is the one the doubles make, on both sides
    of [2^53] and of [2^54]. *)
Example js_incr_rounds_like_the_doubles :
  Forall
    (fun z =>
       match CS.js_incr (Some (CS.Num z)) with
       | CS.Num z' => CS.to_integer (PrimFloat.add (CS.float_of_Z z) 1) = Some z'
       | CS.NaN => False
       end)
    [0; 41; CS.two_53 - 2; CS.two_53 - 1; CS.two_53; CS.two_53 + 2; CS.two_53 + 4;
     2 * CS.two_53 - 2; 2 * CS.two_53; 2 * CS.two_53 + 4; 4 * CS.two_53;
     -1; -2; - CS.two_53; - CS.two_53 - 2; - CS.two_53 - 4; - 2 * CS.two_53;
     - 2 * CS.two_53 - 4]
  /\ CS.js_incr (Some (CS.Num CS.two_53)) = CS.Num CS.two_53
  /\ CS.js_incr (Some CS.NaN) = CS.NaN
  /\ CS.js_incr None = CS.NaN.
Proof.
  split; [|repeat split]. repeat (apply Forall_cons; split; [vm_compute; reflexivity|]).
  apply Forall_nil_2.
Qed.

(** A first draw of 1, which [Math.random] never returns, names no
    doctor: the call is not made. *)
Example generateNewCall_out_of_range :
  CS.at_index CS.mockDoctors (CS.doctorIndex odd_draws) = None
  /\ CL.generateNewCall odd_draws (CL.boot 1000) = CL.boot 1000.
Proof. split; reflexivity. Qed.

(** * The audio service *)

Ltac run_audio :=
  unfold Au.step, Au.handle, Au.settled, Au.toggleAudio, Au.disableAudio, Au.enableAudio,
    Au.playCallTone, Au.playCallToneFallback, Au.initializeAudio, Au.answer, Au.attach,
    Au.on_callTone, Au.modify_this, Au.get_this, Au.try_catch, Au.throw, Au.bind, Au.ret.

Ltac open_env e :=
  let subj := fresh "subj" in
  let el := fresh "el" in
  let flag := fresh "flag" in
  let fbs := fresh "fbs" in
  let prs := fresh "prs" in
  destruct e as [[subj el flag] fbs prs]; cbn in *.

Lemma never_enabled_snoc (l : list bool) (b : bool) :
  Forall (fun x => x = false) (l ++ [b]) <-> Forall (fun x => x = false) l /\ b = false.
Proof. rewrite Forall_app, Forall_singleton. reflexivity. Qed.

Ltac coherent_solve :=
  unfold coherent, never_enabled in *; cbn in *;
  repeat match goal with
  | H : _ /\ _ |- _ => destruct H
  | |- _ /\ _ => split
  | |- _ -> _ => intro
  | H : Forall _ (_ ++ [_]) |- _ => apply never_enabled_snoc in H
  | H : ?P -> _, H' : ?P |- _ => specialize (H H')
  | H : true = false |- _ => discriminate H
  | H : false = true |- _ => discriminate H
  end;
  subst; cbn in *;
  try solve [ reflexivity | assumption | eauto
            | discriminate
            | apply Forall_delete; eauto
            | apply Forall_app; split; [eauto | apply Forall_singleton; reflexivity] ].

Lemma step_coherent (e : Au.Env) (ev : Au.Event) : coherent e -> coherent (Au.step e ev).
Proof.
  intros He. destruct ev as [res av res'|res| |res|k ok av res'].
  - open_env e. destruct flag, el as [a|], res, av, res'; run_audio; cbn; coherent_solve.
  - open_env e. destruct flag, el as [a|], res; run_audio; cbn; coherent_solve.
  - open_env e. run_audio; cbn; coherent_solve.
  - open_env e. destruct flag, el as [a|], res; run_audio; cbn; coherent_solve.
  - open_env e. unfold Au.step, Au.handle. cbn.
    destruct (prs !! k) as [p|] eqn:Ek; [|exact He].
    destruct p, ok, el as [a|], av, res'; run_audio; cbn; coherent_solve.
    all: match goal with
         | H : Forall _ ?l, E : ?l !! _ = Some _ |- _ =>
             pose proof (Forall_lookup_1 _ _ _ _ H E) as Hk; discriminate Hk
         end.
Qed.

Lemma create_coherent (available : bool) : coherent (Au.create available).
Proof.
  destruct available; unfold coherent, never_enabled; cbn; repeat split; eauto; discriminate.
Qed.

Lemma run_coherent (evs : list Au.Event) (e : Au.Env) : coherent e -> coherent (Au.run evs e).
Proof.
  revert e. induction evs as [|ev evs IH]; intros e He; cbn; [exact He|].
  apply IH, step_coherent, He.
Qed.

(** X26. In any state the audio service reaches, the value of
    [audioEnabled$] is the flag [isAudioActive] answers, and an enabled
    service has a call tone element. As long as [true] has never been
    published, the service is disabled, no fallback element has been made
    and every pending promise is one of [enableAudio]: no tone is requested
    before the audio has been enabled once. *)
Theorem audio_off_until_enabled (available : bool) (evs : list Au.Event) :
  let e := Au.run evs (Au.create available) in
  S.value (Au.audioEnabledSubject (Au.this e)) = Au.isAudioActive (Au.this e)
  /\ (Au.isAudioActive (Au.this e) = true -> is_Some (Au.callToneAudio (Au.this e)))
  /\ (never_enabled e ->
        Au.isAudioActive (Au.this e) = false
        /\ Au.fallbacks e = []
        /\ Forall (fun p => is_EnablePlay p = true) (Au.promises e)).
Proof. intros e. apply run_coherent, create_coherent. Qed.

(** X27. [playCallTone] returns normally whatever the elements do
    ([new Audio] failing, [play] throwing, answering [undefined] or a
    promise); it leaves the flag, the subject and the volume of the call
    tone element as they are, makes at most one fallback element, and
    changes nothing at all while the audio is disabled. *)
Theorem playCallTone_never_throws (res : Au.PlayResult) (available : bool)
    (res' : Au.PlayResult) (e : Au.Env) :
  let r := Au.playCallTone res available res' e in
  fst r = Au.Returned tt
  /\ Au.audioEnabledSubject (Au.this (snd r)) = Au.audioEnabledSubject (Au.this e)
  /\ Au.isAudioEnabled (Au.this (snd r)) = Au.isAudioEnabled (Au.this e)
  /\ tone_volume (snd r) = tone_volume e
  /\ (Au.isAudioEnabled (Au.this e) = false -> snd r = e)
  /\ (length (Au.fallbacks (snd r)) <= S (length (Au.fallbacks e)))%nat.
Proof.
  intros r. unfold r, tone_volume. clear r. open_env e.
  destruct flag, el as [a|], res, available, res'; run_audio; cbn;
    rewrite ?length_app; cbn; repeat split; try discriminate; lia.
Qed.

Lemma step_muted (e : Au.Env) (ev : Au.Event) : muted e -> muted (Au.step e ev).
Proof.
  unfold muted, tone_volume. intros [Hv Hp].
  destruct ev as [res av res'|res| |res|k ok av res'].
  - open_env e. destruct flag, el as [a|], res, av, res'; run_audio; cbn;
      try discriminate Hv;
      (split; [exact Hv|]);
      repeat (apply Forall_app; split; [|apply Forall_singleton; exact I]); exact Hp.
  - open_env e. destruct flag, el as [a|], res; run_audio; cbn;
      try discriminate Hv; injection Hv as Hv;
      (split; [first [reflexivity | f_equal; exact Hv]|]);
      try exact Hp;
      apply Forall_app; (split; [exact Hp | apply Forall_singleton; exact Hv]).
  - open_env e. run_audio; cbn. split; assumption.
  - open_env e. destruct flag, el as [a|], res; run_audio; cbn;
      try discriminate Hv; injection Hv as Hv;
      (split; [first [reflexivity | f_equal; exact Hv]|]);
      try exact Hp;
      apply Forall_app; (split; [exact Hp | apply Forall_singleton; exact Hv]).
  - open_env e. unfold Au.step, Au.handle. cbn.
    destruct (prs !! k) as [p|] eqn:Ek; [|split; assumption].
    pose proof (Forall_lookup_1 _ _ _ _ Hp Ek) as Hk.
    pose proof (Forall_delete (restores 0) prs k Hp) as Hd.
    destruct p, ok, el as [a|], av, res'; run_audio; cbn in *;
      try discriminate Hv; subst;
      (split; [first [reflexivity | exact Hv]|]);
      repeat (apply Forall_app; split; [|apply Forall_singleton; exact I]); exact Hd.
Qed.

Lemma run_muted (evs : list Au.Event) (e : Au.Env) : muted e -> muted (Au.run evs e).
Proof.
  revert e. induction evs as [|ev evs IH]; intros e He; cbn; [exact He|].
  apply IH, step_muted, He.
Qed.

(** X28. [enableAudio] on a disabled service with a call tone element
    sets the volume to 0 and calls [play]. When the promise is fulfilled,
    the volume read at the call is restored, the element is paused and
    rewound, the service is enabled and [true] is published. When the
    promise is rejected, or when [play] throws or answers [undefined],
    the service stays disabled, nothing is published, and the volume stays
    0. *)
Theorem enable_outcomes (e : Au.Env) (a : Au.Audio) (available : bool) (res' : Au.PlayResult) :
  Au.callToneAudio (Au.this e) = Some a ->
  Au.isAudioEnabled (Au.this e) = false ->
  let k := length (Au.promises e) in
  let e1 := Au.step e (Au.EnableAudio Au.AnswersPromise) in
  let fulfilled := Au.step e1 (Au.Settle k true available res') in
  let rejected := Au.step e1 (Au.Settle k false available res') in
  (Au.promises e1 = Au.promises e ++ [Au.EnablePlay (Au.volume a)]
   /\ tone_volume e1 = Some 0%Q
   /\ Au.isAudioEnabled (Au.this e1) = false)
  /\ (Au.isAudioEnabled (Au.this fulfilled) = true
      /\ Au.callToneAudio (Au.this fulfilled)
         = Some (Au.with_currentTime 0 (Au.called Au.A_pause (Au.called Au.A_play a)))
      /\ S.emitted (Au.audioEnabledSubject (Au.this fulfilled))
         = S.emitted (Au.audioEnabledSubject (Au.this e)) ++ [true]
      /\ Au.promises fulfilled = Au.promises e)
  /\ (Au.isAudioEnabled (Au.this rejected) = false
      /\ tone_volume rejected = Some 0%Q
      /\ Au.audioEnabledSubject (Au.this rejected) = Au.audioEnabledSubject (Au.this e)
      /\ Au.promises rejected = Au.promises e)
  /\ (forall res, res <> Au.AnswersPromise ->
        let thrown := Au.handle (Au.EnableAudio res) e in
        (exists err, fst thrown = Au.Thrown err)
        /\ tone_volume (snd thrown) = Some 0%Q
        /\ Au.isAudioEnabled (Au.this (snd thrown)) = false
        /\ Au.promises (snd thrown) = Au.promises e).
Proof.
  intros Ha Hf k e1 fulfilled rejected.
  unfold fulfilled, rejected, e1, k, tone_volume. clear fulfilled rejected e1 k.
  open_env e. subst.
  assert (Hk : (prs ++ [Au.EnablePlay (Au.volume a)]) !! length prs
               = Some (Au.EnablePlay (Au.volume a))).
  { rewrite lookup_app_r by lia. rewrite Nat.sub_diag. reflexivity. }
  assert (Hd : delete (length prs) (prs ++ [Au.EnablePlay (Au.volume a)]) = prs).
  { rewrite delete_take_drop, take_app_length.
    rewrite drop_app_ge by lia.
    replace (S (length prs) - length prs)%nat with 1%nat by lia. cbn. apply app_nil_r. }
  split; [|split; [|split]].
  - run_audio. cbn. repeat split.
  - run_audio. cbn. rewrite Hk, Hd. cbn. repeat split.
  - run_audio. cbn. rewrite Hk, Hd. cbn. repeat split.
  - intros res Hres. destruct res; [| |congruence]; run_audio; cbn; repeat split; eauto.
Qed.

Lemma rejected_enable_muted (e : Au.Env) (a : Au.Audio) (available : bool)
    (res' : Au.PlayResult) :
  Au.callToneAudio (Au.this e) = Some a ->
  Au.isAudioEnabled (Au.this e) = false ->
  Forall (restores 0) (Au.promises e) ->
  muted (Au.run [Au.EnableAudio Au.AnswersPromise;
                Au.Settle (length (Au.promises e)) false available res'] e).
Proof.
  intros Ha Hf Hp. unfold muted, tone_volume. open_env e. subst.
  assert (Hk : (prs ++ [Au.EnablePlay (Au.volume a)]) !! length prs
               = Some (Au.EnablePlay (Au.volume a))).
  { rewrite lookup_app_r by lia. rewrite Nat.sub_diag. reflexivity. }
  assert (Hd : delete (length prs) (prs ++ [Au.EnablePlay (Au.volume a)]) = prs).
  { rewrite delete_take_drop, take_app_length.
    rewrite drop_app_ge by lia.
    replace (S (length prs) - length prs)%nat with 1%nat by lia. cbn. apply app_nil_r. }
  run_audio. cbn. rewrite Hk, Hd. cbn. split; [reflexivity | exact Hp].
Qed.

Lemma thrown_enable_muted (e : Au.Env) (a : Au.Audio) (res : Au.PlayResult) :
  Au.callToneAudio (Au.this e) = Some a ->
  Au.isAudioEnabled (Au.this e) = false ->
  Forall (restores 0) (Au.promises e) ->
  res <> Au.AnswersPromise ->
  muted (Au.step e (Au.EnableAudio res)).
Proof.
  intros Ha Hf Hp Hres. unfold muted, tone_volume. open_env e. subst.
  destruct res; [| |congruence]; run_audio; cbn; split; auto.
Qed.

(** X29. After one failed [enableAudio] (its promise rejected, or [play]
    throwing or answering [undefined]) on a service where no earlier
    attempt is pending with an audible volume, the volume of the call tone
    element is 0 and stays 0 whatever happens next: a later [enableAudio]
    that succeeds restores 0, the volume it read. *)
Theorem failed_enable_mutes_for_good (e : Au.Env) (a : Au.Audio) (available : bool)
    (res res' : Au.PlayResult) (evs : list Au.Event) :
  Au.callToneAudio (Au.this e) = Some a ->
  Au.isAudioEnabled (Au.this e) = false ->
  Forall (restores 0) (Au.promises e) ->
  let failed :=
    match res with
    | Au.AnswersPromise =>
        [Au.EnableAudio res; Au.Settle (length (Au.promises e)) false available res']
    | _ => [Au.EnableAudio res]
    end in
  let e' := Au.run (failed ++ evs) e in
  tone_volume e' = Some 0%Q
  /\ Forall (restores 0) (Au.promises e').
Proof.
  intros Ha Hf Hp failed e'. unfold e', Au.run. rewrite fold_left_app.
  apply run_muted. unfold failed. destruct res.
  - apply (thrown_enable_muted e a); auto; discriminate.
  - apply (thrown_enable_muted e a); auto; discriminate.
  - apply (rejected_enable_muted e a); auto.
Qed.

Lemma failed_enable_mutes_for_good_witness :
  let e' := Au.run failed_then_enabled (Au.create true) in
  Au.isAudioEnabled (Au.this e') = true /\ tone_volume e' = Some 0%Q.
Proof.
  intros e'. split; [reflexivity|].
  destruct (failed_enable_mutes_for_good (Au.create true)
              (Au.called Au.A_load
                 (Au.with_preload "auto" (Au.with_volume (7 # 10)
                    (Au.with_src Au.tone (Au.new_Audio "")))))
              true Au.AnswersPromise Au.AnswersPromise
              [Au.EnableAudio Au.AnswersPromise; Au.Settle 0 true true Au.AnswersPromise;
               Au.PlayCallTone Au.AnswersPromise true Au.AnswersPromise])
    as [H _].
  - reflexivity.
  - reflexivity.
  - constructor.
  - exact H.
Defined.

Lemma enable_outcomes_witness :
  let e1 := Au.step (Au.create true) (Au.EnableAudio Au.AnswersPromise) in
  let fulfilled := Au.step e1 (Au.Settle 0 true true Au.AnswersPromise) in
  Au.isAudioEnabled (Au.this fulfilled) = true
  /\ tone_volume fulfilled = Some (7 # 10).
Proof.
  intros e1 fulfilled.
  destruct (enable_outcomes (Au.create true)
              (Au.called Au.A_load
                 (Au.with_preload "auto" (Au.with_volume (7 # 10)
                    (Au.with_src Au.tone (Au.new_Audio "")))))
              true Au.AnswersPromise eq_refl eq_refl)
    as [_ [[H1 [H2 _]] _]].
  split; [exact H1|]. unfold tone_volume.
  change (Au.callToneAudio (Au.this fulfilled)) with
    (Au.callToneAudio
       (Au.this
          (Au.step (Au.step (Au.create true) (Au.EnableAudio Au.AnswersPromise))
             (Au.Settle (length (Au.promises (Au.create true))) true true Au.AnswersPromise)))).
  rewrite H2. reflexivity.
Defined.
